(** * GSM-AT response parser ([gsm_parser.c]): shallow embedding and properties

    The development follows the C file function by function.  A
    [const char*] cursor is the list of characters from the pointer up to
    (not including) the terminating NUL; [int32_t] and the unsigned types
    are integers in [Z] with their wrap-around written out; the global
    [gsm] structure and the active message are records that every statement
    parser receives and returns. *)

From Stdlib Require Import ZArith Lia Bool Ascii String List.
From stdpp Require Import base tactics list.
Import ListNotations.

Local Open Scope Z_scope.

#[local] Arguments Ascii.eqb !a !b.

(** ** Characters and C strings *)

Definition cstr := list ascii.

Definition NUL : ascii := "000"%char.
Definition QUOTE : ascii := "034"%char.
Definition CR : ascii := "013"%char.
Definition LF : ascii := "010"%char.

(** A string literal of the C source. *)
Definition lit (s : string) : cstr := list_ascii_of_string s.

(** [*p]: reading at the terminator gives NUL. *)
Definition deref (p : cstr) : ascii :=
  match p with
  | [] => NUL
  | c :: _ => c
  end.

(** [p++] (never applied by the source at the terminator except through
    the fixed-width prefix skip, see [advance]). *)
Definition next (p : cstr) : cstr :=
  match p with
  | [] => []
  | _ :: p' => p'
  end.

(** [p += n]; the source steps over a 7 character response keyword. *)
Definition advance (n : nat) (p : cstr) : cstr := drop n p.

(** [if ( *p == c) p++;] *)
Definition skip_char (c : ascii) (p : cstr) : cstr :=
  if (deref p =? c)%char then next p else p.

(** [if ( *str == '+') str += 7;] *)
Definition skip_keyword (str : cstr) : cstr :=
  if (deref str =? "+")%char then advance 7 str else str.

Definition char_code (c : ascii) : Z := Z.of_N (N_of_ascii c).

(** [strlen]. *)
Fixpoint strlen (s : cstr) : nat :=
  match s with
  | [] => O
  | c :: s' => if (c =? NUL)%char then O else S (strlen s')
  end.

(** [strncmp (s, t, n) == 0]. *)
Fixpoint strncmp_eq (s t : cstr) (n : nat) : bool :=
  match n with
  | O => true
  | S n' =>
      if (deref s =? deref t)%char
      then if (deref s =? NUL)%char then true
           else strncmp_eq (next s) (next t) n'
      else false
  end.

(** [strcmp (s, t) == 0]. *)
Fixpoint strcmp_eq (s t : cstr) : bool :=
  match s with
  | [] => (deref t =? NUL)%char
  | c :: s' =>
      if (c =? deref t)%char
      then if (c =? NUL)%char then true else strcmp_eq s' (next t)
      else false
  end.

(** The string held by a character array: everything before the first NUL. *)
Fixpoint c_str (b : list ascii) : cstr :=
  match b with
  | [] => []
  | c :: b' => if (c =? NUL)%char then [] else c :: c_str b'
  end.

(** ** Fixed-width integers *)

Definition wrap_signed (bits z : Z) : Z :=
  (z + 2 ^ (bits - 1)) mod 2 ^ bits - 2 ^ (bits - 1).

(** Arithmetic on [int32_t] (two's complement wrap-around). *)
Definition int32 (z : Z) : Z := wrap_signed 32 z.

Definition GSM_U8 (z : Z) : Z := z mod 2 ^ 8.
Definition GSM_U16 (z : Z) : Z := z mod 2 ^ 16.
Definition GSM_U32 (z : Z) : Z := z mod 2 ^ 32.

(** Modelled from the spec: the macros [GSM_CHARISNUM] and [GSM_CHARTONUM]
    are declared in a header outside the parser; the spec has the scanner
    accumulate decimal digits, so they are the test for '0'..'9' and the
    distance from '0'. *)
Definition GSM_CHARISNUM (c : ascii) : bool :=
  (48 <=? char_code c) && (char_code c <=? 57).

Definition GSM_CHARTONUM (c : ascii) : Z := char_code c - 48.

(** ** Token scanners *)

(** The [while (GSM_CHARISNUM ( *p))] loop of [gsmi_parse_number]. *)
Fixpoint number_loop (p : cstr) (val : Z) : Z * cstr :=
  match p with
  | [] => (val, p)
  | c :: p' =>
      if GSM_CHARISNUM c
      then number_loop p' (int32 (val * 10 + GSM_CHARTONUM c))
      else (val, p)
  end.

Definition gsmi_parse_number (str : cstr) : Z * cstr :=
  let p := str in
  let p := skip_char QUOTE p in
  let p := skip_char "," p in
  let p := skip_char QUOTE p in
  let p := skip_char "/" p in
  let p := skip_char ":" p in
  let p := skip_char "+" p in
  let '(minus, p) :=
    if (deref p =? "-")%char then (true, next p) else (false, p) in
  let '(val, p) := number_loop p 0 in
  let p := skip_char "," p in
  ((if minus then int32 (- val) else val), p).

(** [p[1] == ',' || p[1] == '\r' || p[1] == '\n'] *)
Definition is_field_end (c : ascii) : bool :=
  (c =? ",")%char || (c =? CR)%char || (c =? LF)%char.

(** The [while ( *p)] loop of [gsmi_parse_string].  [dst] is [None] for a
    NULL destination and otherwise the memory the pointer designates;
    [i] counts the characters stored so far, which is also the distance
    the source has moved [dst] by. *)
Fixpoint string_loop (p : cstr) (dst : option (list ascii))
    (dst_len i : nat) (trim : bool) : cstr * option (list ascii) * nat :=
  match p with
  | [] => (p, dst, i)
  | c :: p' =>
      if (c =? NUL)%char then (p, dst, i)
      else if (c =? QUOTE)%char && is_field_end (deref p') then (p', dst, i)
      else
        match dst with
        | Some d =>
            if (i <? dst_len)%nat
            then string_loop p' (Some (<[i := c]> d)) dst_len (S i) trim
            else if negb trim then (p, dst, i)
            else string_loop p' dst dst_len i trim
        | None => string_loop p' dst dst_len i trim
        end
  end.

Definition gsmi_parse_string (src : cstr) (dst : option (list ascii))
    (dst_len : nat) (trim : bool) : Z * cstr * option (list ascii) :=
  let p := src in
  let p := skip_char "," p in
  let p := skip_char QUOTE p in
  let dst_len := if (dst_len =? 0)%nat then dst_len else (dst_len - 1)%nat in
  let '(p, dst, i) := string_loop p dst dst_len 0 trim in
  let dst :=
    match dst with
    | Some d => Some (<[i := NUL]> d)
    | None => None
    end in
  (1, p, dst).

(** A call that fills an array the caller owns (never NULL). *)
Definition parse_string_into (src : cstr) (d : list ascii) (dst_len : nat)
    (trim : bool) : cstr * list ascii :=
  match gsmi_parse_string src (Some d) dst_len trim with
  | (_, p, Some d') => (p, d')
  | (_, p, None) => (p, d)
  end.

Definition gsmi_check_and_trim (src : cstr) : cstr :=
  let t := src in
  if negb (deref t =? QUOTE)%char && negb (deref t =? CR)%char
     && negb (deref t =? ",")%char
  then snd (fst (gsmi_parse_string src None 0 true))
  else src.

(** ** Declarations the parser takes from the library headers

    [gsm_parser.c] includes [gsm_private.h]; the enumerators, the device
    memory table and the sizes of the text fields are declared there and
    are parameters of the development. *)

Record gsm_dev_mem_map_t := {
  mem_id : Z;        (* member [mem] *)
  mem_str : cstr
}.

Class gsm_hdr := {
  GSM_NETWORK_REG_STATUS_CONNECTED : Z;
  GSM_NETWORK_REG_STATUS_CONNECTED_ROAMING : Z;
  GSM_OPERATOR_FORMAT_LONG_NAME : Z;
  GSM_OPERATOR_FORMAT_SHORT_NAME : Z;
  GSM_OPERATOR_FORMAT_NUMBER : Z;
  GSM_OPERATOR_FORMAT_INVALID : Z;
  GSM_MEM_UNKNOWN : Z;
  gsm_dev_mem_map : list gsm_dev_mem_map_t;
  (* the conversion of an integer to an enumerated type *)
  to_enum : Z -> Z;
  (* width of [size_t] *)
  size_t_bits : Z;
  (* [sizeof] of the text members of [gsm.network.curr_operator.data] *)
  sizeof_curr_long_name : nat;
  sizeof_curr_short_name : nat;
  (* ... of an operator record of the scan, [gsm_operator_t] *)
  sizeof_long_name : nat;
  sizeof_short_name : nat;
  (* ... of [gsm_sms_entry_t] and of [gsm_pb_entry_t] *)
  sizeof_sms_number : nat;
  sizeof_sms_name : nat;
  sizeof_pb_name : nat;
  sizeof_pb_number : nat
}.

(** ** The data the statement parsers work on

    Members that hold text are character arrays (lists of bytes, the
    string they hold ends at the first NUL).  Integer members hold the
    value after the conversion to their declared type: [uint8_t] and
    [uint16_t] for date and time, [uint32_t] for the memory counters and
    the operator number, [size_t] for positions, and [to_enum] for the
    members of an enumerated type that are assigned a parsed number. *)

Inductive gsm_sim_state_t :=
  | GSM_SIM_STATE_NOT_INSERTED
  | GSM_SIM_STATE_READY
  | GSM_SIM_STATE_NOT_READY
  | GSM_SIM_STATE_PIN
  | GSM_SIM_STATE_PUK.

Inductive gsm_sms_status_t :=
  | GSM_SMS_STATUS_ALL
  | GSM_SMS_STATUS_READ
  | GSM_SMS_STATUS_UNREAD
  | GSM_SMS_STATUS_SENT
  | GSM_SMS_STATUS_UNSENT.

(** The command kinds the parser tests [cmd_def] against, and the rest. *)
Inductive gsm_cmd_t :=
  | GSM_CMD_IDLE
  | GSM_CMD_COPS_GET
  | GSM_CMD_COPS_SCAN
  | GSM_CMD_CMGL
  | GSM_CMD_CPBR
  | GSM_CMD_CPBF
  | GSM_CMD_other (n : nat).

#[global] Instance gsm_cmd_eq_dec : EqDecision gsm_cmd_t.
Proof. solve_decision. Defined.

#[global] Instance gsm_sim_state_eq_dec : EqDecision gsm_sim_state_t.
Proof. solve_decision. Defined.

Inductive gsmr_t :=
  | gsmOK
  | gsmERR.

Inductive gsm_cb_type_t :=
  | GSM_CB_CPIN.

(** Calls into the rest of the library, in the order they are made. *)
Inductive ext_call :=
  | call_gsm_operator_get
  | call_gsmi_get_sim_info
  | call_gsmi_send_cb (evt : gsm_cb_type_t).

(** [gsm.network.curr_operator]; the members of [data] lie side by side
    here, each parser call writes one of them. *)
Record gsm_operator_curr_t := {
  mode : Z;
  format : Z;
  data_long_name : list ascii;
  data_short_name : list ascii;
  data_num : Z
}.

(** An operator record of the scan. *)
Record gsm_operator_t := {
  stat : Z;
  long_name : list ascii;
  short_name : list ascii;
  num : Z
}.

Record gsm_datetime_t := {
  date : Z;
  month : Z;
  year : Z;
  day : Z;
  hours : Z;
  minutes : Z;
  seconds : Z
}.

Record gsm_sms_entry_t := {
  sms_mem : Z;
  sms_pos : Z;
  sms_datetime : gsm_datetime_t;
  sms_status : gsm_sms_status_t;
  sms_number : list ascii;
  sms_name : list ascii
}.

Record gsm_pb_entry_t := {
  pb_pos : Z;
  pb_name : list ascii;
  pb_type : Z;
  pb_number : list ascii
}.

(** [msg.cops_scan]: [opf] is [None] for a NULL observer pointer and
    otherwise the value it points to. *)
Record cops_scan_t := {
  ops : list gsm_operator_t;
  opsl : nat;
  opsi : nat;
  opf : option nat
}.

(** [msg.sms_list] *)
Record sms_list_t := {
  sl_mem : Z;
  sl_entries : list gsm_sms_entry_t;
  sl_etr : nat;
  sl_ei : nat;
  sl_er : option nat
}.

(** [msg.pb_list] and [msg.pb_search] *)
Record pb_list_t := {
  entries : list gsm_pb_entry_t;
  etr : nat;
  ei : nat;
  er : option nat
}.

(** The active message.  The members of the union [msg] lie side by side;
    a command uses the one of its kind.  [cops_get_curr] is [None] for a
    NULL [curr] and otherwise the record it points to. *)
Record gsm_msg_t := {
  cmd_def : gsm_cmd_t;
  cops_get_curr : option gsm_operator_curr_t;
  cops_scan : cops_scan_t;
  sms_list : sms_list_t;
  pb_list : pb_list_t;
  pb_search : pb_list_t
}.

(** [gsm.sms.mem[i]] *)
Record gsm_sms_mem_t := {
  mem_available : Z;
  current : Z;
  used : Z;
  total : Z
}.

(** The part of the global [gsm] the parsers below touch; [msg] is [None]
    for a NULL pointer. *)
Record gsm_t := {
  network_status : Z;
  curr_operator : gsm_operator_curr_t;
  sim_state : gsm_sim_state_t;
  sms_mems : list gsm_sms_mem_t;
  cb_cpin_state : gsm_sim_state_t;
  msg : option gsm_msg_t
}.

Definition set_network_status (v : Z) (g : gsm_t) : gsm_t :=
  {| network_status := v; curr_operator := curr_operator g;
     sim_state := sim_state g; sms_mems := sms_mems g;
     cb_cpin_state := cb_cpin_state g; msg := msg g |}.

Definition set_curr_operator (v : gsm_operator_curr_t) (g : gsm_t) : gsm_t :=
  {| network_status := network_status g; curr_operator := v;
     sim_state := sim_state g; sms_mems := sms_mems g;
     cb_cpin_state := cb_cpin_state g; msg := msg g |}.

Definition set_sim_state (v : gsm_sim_state_t) (g : gsm_t) : gsm_t :=
  {| network_status := network_status g; curr_operator := curr_operator g;
     sim_state := v; sms_mems := sms_mems g;
     cb_cpin_state := cb_cpin_state g; msg := msg g |}.

Definition set_sms_mems (v : list gsm_sms_mem_t) (g : gsm_t) : gsm_t :=
  {| network_status := network_status g; curr_operator := curr_operator g;
     sim_state := sim_state g; sms_mems := v;
     cb_cpin_state := cb_cpin_state g; msg := msg g |}.

Definition set_cb_cpin_state (v : gsm_sim_state_t) (g : gsm_t) : gsm_t :=
  {| network_status := network_status g; curr_operator := curr_operator g;
     sim_state := sim_state g; sms_mems := sms_mems g;
     cb_cpin_state := v; msg := msg g |}.

Definition set_msg (v : option gsm_msg_t) (g : gsm_t) : gsm_t :=
  {| network_status := network_status g; curr_operator := curr_operator g;
     sim_state := sim_state g; sms_mems := sms_mems g;
     cb_cpin_state := cb_cpin_state g; msg := v |}.

Definition set_cops_get_curr (v : option gsm_operator_curr_t) (m : gsm_msg_t)
    : gsm_msg_t :=
  {| cmd_def := cmd_def m; cops_get_curr := v; cops_scan := cops_scan m;
     sms_list := sms_list m; pb_list := pb_list m; pb_search := pb_search m |}.

Definition set_sms_list (v : sms_list_t) (m : gsm_msg_t) : gsm_msg_t :=
  {| cmd_def := cmd_def m; cops_get_curr := cops_get_curr m;
     cops_scan := cops_scan m; sms_list := v; pb_list := pb_list m;
     pb_search := pb_search m |}.

Definition set_pb_list (v : pb_list_t) (m : gsm_msg_t) : gsm_msg_t :=
  {| cmd_def := cmd_def m; cops_get_curr := cops_get_curr m;
     cops_scan := cops_scan m; sms_list := sms_list m; pb_list := v;
     pb_search := pb_search m |}.

Definition set_pb_search (v : pb_list_t) (m : gsm_msg_t) : gsm_msg_t :=
  {| cmd_def := cmd_def m; cops_get_curr := cops_get_curr m;
     cops_scan := cops_scan m; sms_list := sms_list m; pb_list := pb_list m;
     pb_search := v |}.

Section Parser.
Context {hdr : gsm_hdr}.

Definition GSM_SZ (z : Z) : Z := z mod 2 ^ size_t_bits.

(** The [for] loop of [gsmi_parse_memory] over the table, first match
    wins. *)
Fixpoint mem_scan (s : cstr) (map : list gsm_dev_mem_map_t) (mem : Z)
    : Z * cstr :=
  match map with
  | [] => (mem, s)
  | e :: map' =>
      let sl := strlen (mem_str e) in
      if strncmp_eq s (mem_str e) sl
      then (mem_id e, advance sl s)
      else mem_scan s map' mem
  end.

Definition gsmi_parse_memory (src : cstr) : Z * cstr :=
  let s := src in
  let s := skip_char "," s in
  let s := skip_char QUOTE s in
  let '(mem, s) := mem_scan s gsm_dev_mem_map GSM_MEM_UNKNOWN in
  let s :=
    if (mem =? GSM_MEM_UNKNOWN)
    then snd (fst (gsmi_parse_string s None 0 true))
    else s in
  let s := skip_char QUOTE s in
  (mem, s).

(** [GSM_U32(1 << GSM_U32(mem))] *)
Definition mem_bit (mem : Z) : Z := GSM_U32 (Z.shiftl 1 (GSM_U32 mem)).

(** The [do ... while ( *str && *str != ')')] loop of
    [gsmi_parse_memories_string].  One unit of fuel is one pass; [None]
    is a loop that is still running when the fuel is used up. *)
Fixpoint memories_loop (fuel : nat) (str : cstr) (mem_dst : Z)
    : option (cstr * Z) :=
  match fuel with
  | O => None
  | S fuel' =>
      let '(mem, str) := gsmi_parse_memory str in
      let mem_dst := Z.lor mem_dst (mem_bit mem) in
      if negb (deref str =? NUL)%char && negb (deref str =? ")")%char
      then memories_loop fuel' str mem_dst
      else Some (str, mem_dst)
  end.

(** The result is (return value, cursor, mask).  A pass that goes on
    leaves a shorter input or the very same one, so a loop that has not
    stopped after [S (length src)] passes never does. *)
Definition gsmi_parse_memories_string (src : cstr) : option (Z * cstr * Z) :=
  let str := src in
  let mem_dst := 0 in
  let str := skip_char "," str in
  let str := skip_char "(" str in
  match memories_loop (S (length str)) str mem_dst with
  | Some (str, mem_dst) =>
      let str := skip_char ")" str in
      Some (1, str, mem_dst)
  | None => None
  end.

(** ** Statement parsers *)

Definition gsmi_parse_creg (str : cstr) (skip_first : bool)
    (operator_get : gsmr_t) (g : gsm_t) : Z * gsm_t * list ext_call :=
  let cb := false in
  let str := skip_keyword str in
  let str := if skip_first then snd (gsmi_parse_number str) else str in
  let '(n, str) := gsmi_parse_number str in
  let g := set_network_status (to_enum n) g in
  let '(cb, calls) :=
    if (network_status g =? GSM_NETWORK_REG_STATUS_CONNECTED)
       || (network_status g =? GSM_NETWORK_REG_STATUS_CONNECTED_ROAMING)
    then
      (* [gsm_operator_get (0) != gsmOK] *)
      match operator_get with
      | gsmOK => (cb, [call_gsm_operator_get])
      | gsmERR => (true, [call_gsm_operator_get])
      end
    else (true, [])
  in
  (* [if (cb) { }]: the callback is not processed *)
  (1, g, calls).

Definition gsmi_parse_cpin (str : cstr) (send_evt : bool) (g : gsm_t)
    : Z * gsm_t * list ext_call :=
  let str := skip_keyword str in
  let g :=
    if strncmp_eq str (lit "READY") 5 then
      set_sim_state GSM_SIM_STATE_READY g
    else if strncmp_eq str (lit "NOT READY") 9 then
      set_sim_state GSM_SIM_STATE_NOT_READY g
    else if strncmp_eq str (lit "NOT INSERTED") 14 then
      set_sim_state GSM_SIM_STATE_NOT_INSERTED g
    else if strncmp_eq str (lit "SIM PIN") 7 then
      set_sim_state GSM_SIM_STATE_PIN g
    else if strncmp_eq str (lit "PIN PUK") 7 then
      set_sim_state GSM_SIM_STATE_PUK g
    else
      set_sim_state GSM_SIM_STATE_NOT_READY g in
  let calls1 :=
    if bool_decide (sim_state g = GSM_SIM_STATE_READY)
    then [call_gsmi_get_sim_info] else [] in
  let '(g, calls2) :=
    if send_evt
    then (set_cb_cpin_state (sim_state g) g, [call_gsmi_send_cb GSM_CB_CPIN])
    else (g, []) in
  (1, g, calls1 ++ calls2).

Definition set_mode (v : Z) (o : gsm_operator_curr_t) : gsm_operator_curr_t :=
  {| mode := v; format := format o; data_long_name := data_long_name o;
     data_short_name := data_short_name o; data_num := data_num o |}.

Definition set_format (v : Z) (o : gsm_operator_curr_t) : gsm_operator_curr_t :=
  {| mode := mode o; format := v; data_long_name := data_long_name o;
     data_short_name := data_short_name o; data_num := data_num o |}.

Definition set_data_long_name (v : list ascii) (o : gsm_operator_curr_t)
    : gsm_operator_curr_t :=
  {| mode := mode o; format := format o; data_long_name := v;
     data_short_name := data_short_name o; data_num := data_num o |}.

Definition set_data_short_name (v : list ascii) (o : gsm_operator_curr_t)
    : gsm_operator_curr_t :=
  {| mode := mode o; format := format o; data_long_name := data_long_name o;
     data_short_name := v; data_num := data_num o |}.

Definition set_data_num (v : Z) (o : gsm_operator_curr_t)
    : gsm_operator_curr_t :=
  {| mode := mode o; format := format o; data_long_name := data_long_name o;
     data_short_name := data_short_name o; data_num := v |}.

(** The [switch] of [gsmi_parse_cops] on the format; its case labels are
    distinct constants, so testing them in the order of the source is the
    switch.  The numeric case calls [gsmi_parse_number (&str, 1)]; the
    function has the one parameter [str]. *)
Definition cops_payload (str : cstr) (o : gsm_operator_curr_t)
    : gsm_operator_curr_t :=
  if (format o =? GSM_OPERATOR_FORMAT_LONG_NAME) then
    let '(_, d) :=
      parse_string_into str (data_long_name o) sizeof_curr_long_name true in
    set_data_long_name d o
  else if (format o =? GSM_OPERATOR_FORMAT_SHORT_NAME) then
    let '(_, d) :=
      parse_string_into str (data_short_name o) sizeof_curr_short_name true in
    set_data_short_name d o
  else if (format o =? GSM_OPERATOR_FORMAT_NUMBER) then
    set_data_num (GSM_U32 (fst (gsmi_parse_number str))) o
  else o.

Definition gsmi_parse_cops (str : cstr) (g : gsm_t) : Z * gsm_t :=
  let str := skip_keyword str in
  let '(n, str) := gsmi_parse_number str in
  let o := set_mode (to_enum n) (curr_operator g) in
  let o :=
    if negb (deref str =? CR)%char then
      let '(n, str) := gsmi_parse_number str in
      let o := set_format (to_enum n) o in
      if negb (deref str =? CR)%char then cops_payload str o else o
    else
      set_format GSM_OPERATOR_FORMAT_INVALID o in
  let g := set_curr_operator o g in
  let g :=
    match msg g with
    | Some m =>
        if bool_decide (cmd_def m = GSM_CMD_COPS_GET) then
          match cops_get_curr m with
          | Some _ =>
              (* [memcpy] to the user variable *)
              set_msg (Some (set_cops_get_curr (Some (curr_operator g)) m)) g
          | None => g
          end
        else g
    | None => g
    end in
  (1, g).

(** *** The operator scan, one character at a time *)

(** The function-local [static] state [u.f]. *)
Record cops_scan_state := {
  bo : bool;          (* bracket open *)
  ccd : bool;         (* two commas in a row detected *)
  tn : nat;           (* term number, 2 bits *)
  tp : nat;           (* position in the term, [uint8_t] *)
  ch_prev : ascii     (* previous character *)
}.

(** [memset (&u, 0x00, sizeof (u))] *)
Definition cops_scan_reset : cops_scan_state :=
  {| bo := false; ccd := false; tn := 0; tp := 0; ch_prev := NUL |}.

Definition set_ccd (v : bool) (u : cops_scan_state) : cops_scan_state :=
  {| bo := bo u; ccd := v; tn := tn u; tp := tp u; ch_prev := ch_prev u |}.

Definition set_bo (v : bool) (u : cops_scan_state) : cops_scan_state :=
  {| bo := v; ccd := ccd u; tn := tn u; tp := tp u; ch_prev := ch_prev u |}.

Definition set_tn (v : nat) (u : cops_scan_state) : cops_scan_state :=
  {| bo := bo u; ccd := ccd u; tn := v; tp := tp u; ch_prev := ch_prev u |}.

Definition set_tp (v : nat) (u : cops_scan_state) : cops_scan_state :=
  {| bo := bo u; ccd := ccd u; tn := tn u; tp := v; ch_prev := ch_prev u |}.

Definition set_ch_prev (v : ascii) (u : cops_scan_state) : cops_scan_state :=
  {| bo := bo u; ccd := ccd u; tn := tn u; tp := tp u; ch_prev := v |}.

Definition set_ops (v : list gsm_operator_t) (sc : cops_scan_t) : cops_scan_t :=
  {| ops := v; opsl := opsl sc; opsi := opsi sc; opf := opf sc |}.

(** [opsi++] and the store through [opf] when it is not NULL. *)
Definition commit_operator (sc : cops_scan_t) : cops_scan_t :=
  let opsi' := S (opsi sc) in
  {| ops := ops sc; opsl := opsl sc; opsi := opsi';
     opf := match opf sc with Some _ => Some opsi' | None => None end |}.

Definition set_stat (v : Z) (o : gsm_operator_t) : gsm_operator_t :=
  {| stat := v; long_name := long_name o; short_name := short_name o;
     num := num o |}.

Definition set_long_name (v : list ascii) (o : gsm_operator_t) : gsm_operator_t :=
  {| stat := stat o; long_name := v; short_name := short_name o;
     num := num o |}.

Definition set_short_name (v : list ascii) (o : gsm_operator_t) : gsm_operator_t :=
  {| stat := stat o; long_name := long_name o; short_name := v;
     num := num o |}.

Definition set_num (v : Z) (o : gsm_operator_t) : gsm_operator_t :=
  {| stat := stat o; long_name := long_name o; short_name := short_name o;
     num := v |}.

(** [tp++] on a [uint8_t]. *)
Definition tp_incr (tp : nat) : nat := (S tp) mod 256.

(** [name[tp++] = ch; name[tp] = 0;] *)
Definition name_put (name : list ascii) (tp : nat) (ch : ascii) : list ascii :=
  <[tp_incr tp := NUL]> (<[tp := ch]> name).

(** The [switch (u.f.tn)] for a data character, on the record [ops[i]]. *)
Definition cops_scan_data (ch : ascii) (u : cops_scan_state)
    (o : gsm_operator_t) : gsm_operator_t :=
  match tn u with
  | 0%nat => set_stat (to_enum (GSM_SZ (10 * GSM_SZ (stat o) + (char_code ch - 48)))) o
  | 1%nat =>
      if (tp u <? sizeof_long_name - 1)%nat
      then set_long_name (name_put (long_name o) (tp u) ch) o else o
  | 2%nat =>
      if (tp u <? sizeof_short_name - 1)%nat
      then set_short_name (name_put (short_name o) (tp u) ch) o else o
  | 3%nat => set_num (GSM_U32 (10 * num o + (char_code ch - 48))) o
  | _ => o
  end.

(** The write position after a data character. *)
Definition cops_scan_data_tp (u : cops_scan_state) : nat :=
  match tn u with
  | 1%nat => if (tp u <? sizeof_long_name - 1)%nat then tp_incr (tp u) else tp u
  | 2%nat => if (tp u <? sizeof_short_name - 1)%nat then tp_incr (tp u) else tp u
  | _ => tp u
  end.

(** [gsmi_parse_cops_scan (ch, reset)] on the static state [u] and on
    [gsm.msg->msg.cops_scan] (the function requires an active message). *)
Definition gsmi_parse_cops_scan (ch : ascii) (reset : bool)
    (u : cops_scan_state) (sc : cops_scan_t)
    : Z * cops_scan_state * cops_scan_t :=
  if reset then (1, cops_scan_reset, sc)
  else
    let first := (ch_prev u =? NUL)%char in
    if first && (ch =? " ")%char then (1, u, sc)
    else
      let u := if first && (ch =? ",")%char then set_ccd true u else u in
      if ccd u || (opsl sc <=? opsi sc)%nat then (1, u, sc)
      else
        let '(u, sc) :=
          if bo u then
            if (ch =? ")")%char then
              (set_tp 0 (set_tn 0 (set_bo false u)), commit_operator sc)
            else if (ch =? ",")%char then
              (set_tp 0 (set_tn ((S (tn u)) mod 4) u), sc)
            else if negb (ch =? QUOTE)%char then
              let i := opsi sc in
              (set_tp (cops_scan_data_tp u) u,
               set_ops (alter (cops_scan_data ch u) i (ops sc)) sc)
            else (u, sc)
          else
            if (ch =? "(")%char then (set_bo true u, sc)
            else if (ch =? ",")%char && (ch_prev u =? ",")%char
            then (set_ccd true u, sc)
            else (u, sc)
        in
        (1, set_ch_prev ch u, sc).

(** Feeding the characters of [s] in order, none of them with the reset
    flag. *)
Fixpoint cops_scan_feed (s : list ascii) (u : cops_scan_state)
    (sc : cops_scan_t) : cops_scan_state * cops_scan_t :=
  match s with
  | [] => (u, sc)
  | ch :: s' =>
      let '(_, u, sc) := gsmi_parse_cops_scan ch false u sc in
      cops_scan_feed s' u sc
  end.

(** *** Date and time, SMS entries *)

Definition gsmi_parse_datetime (src : cstr) (dt : gsm_datetime_t)
    : Z * cstr * gsm_datetime_t :=
  let '(n_date, src) := gsmi_parse_number src in
  let '(n_month, src) := gsmi_parse_number src in
  let '(n_year, src) := gsmi_parse_number src in
  let '(n_hours, src) := gsmi_parse_number src in
  let '(n_minutes, src) := gsmi_parse_number src in
  let '(n_seconds, src) := gsmi_parse_number src in
  let src := gsmi_check_and_trim src in
  (1, src,
   {| date := GSM_U8 n_date; month := GSM_U8 n_month;
      year := GSM_U16 (GSM_U16 2000 + n_year); day := day dt;
      hours := GSM_U8 n_hours; minutes := GSM_U8 n_minutes;
      seconds := GSM_U8 n_seconds |}).

(** The local [char t[11]] before it is written to. *)
Definition sms_status_buf : list ascii := repeat NUL 11.

(** Returns the value, the cursor and the content of [*stat]. *)
Definition gsmi_parse_sms_status (src : cstr) (stat : gsm_sms_status_t)
    : Z * cstr * gsm_sms_status_t :=
  let '(src, t) := parse_string_into src sms_status_buf 11 true in
  let s :=
    if strcmp_eq t (lit "REC UNREAD") then GSM_SMS_STATUS_UNREAD
    else if strcmp_eq t (lit "REC READ") then GSM_SMS_STATUS_READ
    else if strcmp_eq t (lit "STO UNSENT") then GSM_SMS_STATUS_UNSENT
    else if strcmp_eq t (lit "REC SENT") then GSM_SMS_STATUS_SENT
    else GSM_SMS_STATUS_ALL in
  match s with
  | GSM_SMS_STATUS_ALL => (0, src, stat)
  | _ => (1, src, s)
  end.

(** What [gsmi_parse_cmgl] stores through [e]. *)
Definition cmgl_entry (str : cstr) (mem : Z) (e : gsm_sms_entry_t)
    : gsm_sms_entry_t :=
  let '(n, str) := gsmi_parse_number str in
  let '(_, str, status) := gsmi_parse_sms_status str (sms_status e) in
  let '(str, number) :=
    parse_string_into str (sms_number e) sizeof_sms_number true in
  let '(str, name) :=
    parse_string_into str (sms_name e) sizeof_sms_name true in
  let '(_, str, dt) := gsmi_parse_datetime str (sms_datetime e) in
  {| sms_mem := mem; sms_pos := GSM_SZ n; sms_datetime := dt;
     sms_status := status; sms_number := number; sms_name := name |}.

(** [e] points to [entries[ei]]; the caller has declared [etr] entries. *)
Definition gsmi_parse_cmgl (str : cstr) (g : gsm_t) : Z * gsm_t :=
  match msg g with
  | None => (0, g)
  | Some m =>
      let l := sms_list m in
      if negb (bool_decide (cmd_def m = GSM_CMD_CMGL))
         || (sl_etr l <=? sl_ei l)%nat
      then (0, g)
      else
        let str := skip_keyword str in
        let l :=
          {| sl_mem := sl_mem l;
             sl_entries :=
               alter (cmgl_entry str (sl_mem l)) (sl_ei l) (sl_entries l);
             sl_etr := sl_etr l; sl_ei := sl_ei l; sl_er := sl_er l |} in
        (1, set_msg (Some (set_sms_list l m)) g)
  end.

(** *** Memory-pool status *)

Definition set_mem_available (v : Z) (x : gsm_sms_mem_t) : gsm_sms_mem_t :=
  {| mem_available := v; current := current x; used := used x;
     total := total x |}.

Definition set_current (v : Z) (x : gsm_sms_mem_t) : gsm_sms_mem_t :=
  {| mem_available := mem_available x; current := v; used := used x;
     total := total x |}.

Definition set_used (v : Z) (x : gsm_sms_mem_t) : gsm_sms_mem_t :=
  {| mem_available := mem_available x; current := current x; used := v;
     total := total x |}.

Definition set_total (v : Z) (x : gsm_sms_mem_t) : gsm_sms_mem_t :=
  {| mem_available := mem_available x; current := current x; used := used x;
     total := v |}.

(** The three [for (i = 0; i < 3; i++)] loops of [gsmi_parse_cpms], each
    over the indices still to visit.  The first one answers whether it ran
    to its end ([true]) or left through the [return 0] inside it. *)
Fixpoint cpms_opt_loop (idx : list nat) (str : cstr) (g : gsm_t)
    : option (bool * gsm_t) :=
  match idx with
  | [] => Some (true, g)
  | i :: idx' =>
      match gsmi_parse_memories_string str with
      | None => None
      | Some (r, str, mask) =>
          let g :=
            set_sms_mems (alter (set_mem_available mask) i (sms_mems g)) g in
          if (r =? 0) then Some (false, g) else cpms_opt_loop idx' str g
      end
  end.

Fixpoint cpms_get_loop (idx : list nat) (str : cstr) (g : gsm_t)
    : cstr * gsm_t :=
  match idx with
  | [] => (str, g)
  | i :: idx' =>
      let '(mem, str) := gsmi_parse_memory str in
      let '(n_used, str) := gsmi_parse_number str in
      let '(n_total, str) := gsmi_parse_number str in
      let upd x :=
        set_total (GSM_U32 n_total) (set_used (GSM_U32 n_used)
          (set_current mem x)) in
      cpms_get_loop idx' str (set_sms_mems (alter upd i (sms_mems g)) g)
  end.

Fixpoint cpms_set_loop (idx : list nat) (str : cstr) (g : gsm_t)
    : cstr * gsm_t :=
  match idx with
  | [] => (str, g)
  | i :: idx' =>
      let '(n_used, str) := gsmi_parse_number str in
      let '(n_total, str) := gsmi_parse_number str in
      let upd x := set_total (GSM_U32 n_total) (set_used (GSM_U32 n_used) x) in
      cpms_set_loop idx' str (set_sms_mems (alter upd i (sms_mems g)) g)
  end.

(** [None]: the call does not return (see [memories_loop]). *)
Definition gsmi_parse_cpms (str : cstr) (opt : Z) (g : gsm_t)
    : option (Z * gsm_t) :=
  let str := skip_keyword str in
  if (opt =? 0) then
    match cpms_opt_loop [0; 1; 2]%nat str g with
    | None => None
    | Some (false, g) => Some (0, g)
    | Some (true, g) => Some (1, g)
    end
  else if (opt =? 1) then Some (1, snd (cpms_get_loop [0; 1; 2]%nat str g))
  else if (opt =? 2) then Some (1, snd (cpms_set_loop [0; 1; 2]%nat str g))
  else Some (1, g).

(** *** Phonebook entries *)

(** What [gsmi_parse_cpbr] and [gsmi_parse_cpbf] store through [e]. *)
Definition cpbr_entry (str : cstr) (e : gsm_pb_entry_t) : gsm_pb_entry_t :=
  let '(n, str) := gsmi_parse_number str in
  let '(str, name) := parse_string_into str (pb_name e) sizeof_pb_name true in
  let '(t, str) := gsmi_parse_number str in
  let '(str, number) :=
    parse_string_into str (pb_number e) sizeof_pb_number true in
  {| pb_pos := GSM_SZ n; pb_name := name; pb_type := to_enum t;
     pb_number := number |}.

(** The body shared by the two phonebook parsers after their guard, on
    the member of the message each of them uses. *)
Definition pb_store (str : cstr) (l : pb_list_t) : pb_list_t :=
  let str := skip_keyword str in
  let ei' := S (ei l) in
  {| entries := alter (cpbr_entry str) (ei l) (entries l);
     etr := etr l; ei := ei';
     er := match er l with Some _ => Some ei' | None => None end |}.

Definition gsmi_parse_cpbr (str : cstr) (g : gsm_t) : Z * gsm_t :=
  match msg g with
  | None => (0, g)
  | Some m =>
      if negb (bool_decide (cmd_def m = GSM_CMD_CPBR))
         || (etr (pb_list m) <=? ei (pb_list m))%nat
      then (0, g)
      else (1, set_msg (Some (set_pb_list (pb_store str (pb_list m)) m)) g)
  end.

Definition gsmi_parse_cpbf (str : cstr) (g : gsm_t) : Z * gsm_t :=
  match msg g with
  | None => (0, g)
  | Some m =>
      if negb (bool_decide (cmd_def m = GSM_CMD_CPBF))
         || (etr (pb_search m) <=? ei (pb_search m))%nat
      then (0, g)
      else (1, set_msg (Some (set_pb_search (pb_store str (pb_search m)) m)) g)
  end.

End Parser.

(** ** Decimal text, for statements about numbers *)

Definition is_digit (c : ascii) : Prop := GSM_CHARISNUM c = true.

(** The value of a run of digits read after the value [v]. *)
Fixpoint dec_acc (v : Z) (ds : list ascii) : Z :=
  match ds with
  | [] => v
  | c :: ds' => dec_acc (v * 10 + GSM_CHARTONUM c) ds'
  end.

Definition dec_value (ds : list ascii) : Z := dec_acc 0 ds.

Definition digit_char (d : Z) : ascii := ascii_of_N (Z.to_N (48 + d)).

(** The digits of [n] in front of [acc], most significant first. *)
Fixpoint print_dec_aux (fuel : nat) (n : Z) (acc : cstr) : cstr :=
  match fuel with
  | O => acc
  | S fuel' =>
      let acc' := digit_char (n mod 10) :: acc in
      if (n / 10 =? 0) then acc' else print_dec_aux fuel' (n / 10) acc'
  end.

Definition print_dec (n : Z) : cstr := print_dec_aux (S (Z.to_nat n)) n [].

Definition opt_char (b : bool) (c : ascii) : cstr := if b then [c] else [].

(** The characters [gsmi_parse_number] steps over before the sign, each
    of them present or not. *)
Definition lead (q1 c q2 s k p : bool) : cstr :=
  opt_char q1 QUOTE ++ opt_char c "," ++ opt_char q2 QUOTE
  ++ opt_char s "/" ++ opt_char k ":" ++ opt_char p "+".

Definition is_lead_char (c : ascii) : bool :=
  (c =? QUOTE)%char || (c =? ",")%char || (c =? "/")%char
  || (c =? ":")%char || (c =? "+")%char || (c =? "-")%char.

(** An input of the shape lead, sign, digits, remainder. *)
Definition number_input (q1 c q2 s k p minus : bool) (ds rest : cstr) : cstr :=
  lead q1 c q2 s k p ++ opt_char minus "-" ++ ds ++ rest.

(** The decomposition is the one the scanner sees: the digit run is
    maximal and, when there is neither sign nor digit, the remainder does
    not begin with a character the scanner would step over. *)
Definition number_shape (minus : bool) (ds rest : cstr) : Prop :=
  Forall is_digit ds
  /\ GSM_CHARISNUM (deref rest) = false
  /\ (minus = false -> ds = [] -> is_lead_char (deref rest) = false).

(** The spec's sentence on the scanner, with no bound on the digits. *)
Definition parse_number_exact_on (q1 c q2 s k p minus : bool)
    (ds rest : cstr) : Prop :=
  number_shape minus ds rest ->
  gsmi_parse_number (number_input q1 c q2 s k p minus ds rest)
  = ((if minus then - dec_value ds else dec_value ds), skip_char "," rest).

(** ** A sample set of header values, for the evaluated examples *)

Definition sample_hdr : gsm_hdr :=
  {| GSM_NETWORK_REG_STATUS_CONNECTED := 1;
     GSM_NETWORK_REG_STATUS_CONNECTED_ROAMING := 5;
     GSM_OPERATOR_FORMAT_LONG_NAME := 0;
     GSM_OPERATOR_FORMAT_SHORT_NAME := 1;
     GSM_OPERATOR_FORMAT_NUMBER := 2;
     GSM_OPERATOR_FORMAT_INVALID := 3;
     GSM_MEM_UNKNOWN := 31;
     gsm_dev_mem_map :=
       [ {| mem_id := 0; mem_str := lit "SM" |};
         {| mem_id := 1; mem_str := lit "ME" |};
         {| mem_id := 2; mem_str := lit "MT" |};
         {| mem_id := 3; mem_str := lit "BM" |};
         {| mem_id := 4; mem_str := lit "SR" |} ];
     to_enum := fun z => z;
     size_t_bits := 32;
     sizeof_curr_long_name := 20;
     sizeof_curr_short_name := 10;
     sizeof_long_name := 20;
     sizeof_short_name := 10;
     sizeof_sms_number := 26;
     sizeof_sms_name := 20;
     sizeof_pb_name := 20;
     sizeof_pb_number := 26 |}.

(** ** Vocabulary of the statements

    Sample values for the evaluated examples, the shapes of input the
    statements speak of, and the sentences of the spec that the code does
    not bear out, each as a proposition of its own. *)

Section Statements.
Context {hdr : gsm_hdr}.

(** The six optional skips, in the order of the source. *)
Definition skip_lead (p : cstr) : cstr :=
  skip_char "+" (skip_char ":" (skip_char "/" (skip_char QUOTE
    (skip_char "," (skip_char QUOTE p))))).

(** The quoted field ["abc"] followed by [,next]. *)
Definition abc_field : cstr := QUOTE :: lit "abc" ++ QUOTE :: lit ",next".

(** The spec's sentence on where the cursor is left after the field. *)
Definition cursor_at_next (d : list ascii) : Prop :=
  snd (fst (gsmi_parse_string abc_field (Some d) 10 true)) = lit "next".

(** The state machine has stopped taking characters in: the latch is set
    or the record array is full. *)
Definition scan_ignoring (u : cops_scan_state) (sc : cops_scan_t) : Prop :=
  ccd u = true \/ (opsl sc <= opsi sc)%nat.

(** A reset call followed by the characters of [s]. *)
Definition feed_after_reset (s : list ascii) (u : cops_scan_state)
    (sc : cops_scan_t) : cops_scan_state * cops_scan_t :=
  let '(_, u, sc) := gsmi_parse_cops_scan NUL true u sc in
  cops_scan_feed s u sc.

(** The spec's sentence on the input [()]. *)
Definition empty_brackets_latch (u : cops_scan_state) (sc : cops_scan_t)
    : Prop :=
  let '(u', sc') := feed_after_reset (lit "()") u sc in
  opsi sc' = 0%nat /\ ccd u' = true.

(** A scan destination with room for [n] records, none filled in. *)
Definition blank_operator : gsm_operator_t :=
  {| stat := 0; long_name := repeat NUL 20; short_name := repeat NUL 10;
     num := 0 |}.

Definition blank_scan (n : nat) : cops_scan_t :=
  {| ops := repeat blank_operator n; opsl := n; opsi := 0; opf := Some 0%nat |}.

(** The device is attached to a network. *)
Definition attached (status : Z) : bool :=
  (status =? GSM_NETWORK_REG_STATUS_CONNECTED)
  || (status =? GSM_NETWORK_REG_STATUS_CONNECTED_ROAMING).

(** The status field of a line: the first number, or the second one when
    the line echoes the request format. *)
Definition creg_status_field (str : cstr) (skip_first : bool) : Z :=
  let str := skip_keyword str in
  let str := if skip_first then snd (gsmi_parse_number str) else str in
  fst (gsmi_parse_number str).

(** The spec's sentence on a follow-up query that cannot be enqueued: the
    caller learns of it from the return value. *)
Definition creg_failure_reported (str : cstr) (skip_first : bool)
    (g : gsm_t) : Prop :=
  let '(ret, _, calls) := gsmi_parse_creg str skip_first gsmERR g in
  In call_gsm_operator_get calls -> ret = 0.

(** A [gsm] structure with no active message. *)
Definition blank_curr_operator : gsm_operator_curr_t :=
  {| mode := 0; format := 0; data_long_name := repeat NUL 20;
     data_short_name := repeat NUL 10; data_num := 0 |}.

Definition blank_gsm : gsm_t :=
  {| network_status := 0; curr_operator := blank_curr_operator;
     sim_state := GSM_SIM_STATE_NOT_INSERTED; sms_mems := [];
     cb_cpin_state := GSM_SIM_STATE_NOT_INSERTED; msg := None |}.

(** [t] is a prefix of [s]. *)
Fixpoint is_prefix (t s : cstr) : bool :=
  match t with
  | [] => true
  | c :: t' =>
      match s with
      | [] => false
      | d :: s' => (c =? d)%char && is_prefix t' s'
      end
  end.

(** The spec's matcher: the first phrase, in its order, that the line body
    begins with. *)
Definition cpin_by_phrases (body : cstr) : gsm_sim_state_t :=
  if is_prefix (lit "READY") body then GSM_SIM_STATE_READY
  else if is_prefix (lit "NOT READY") body then GSM_SIM_STATE_NOT_READY
  else if is_prefix (lit "NOT INSERTED") body then GSM_SIM_STATE_NOT_INSERTED
  else if is_prefix (lit "SIM PIN") body then GSM_SIM_STATE_PIN
  else if is_prefix (lit "PIN PUK") body then GSM_SIM_STATE_PUK
  else GSM_SIM_STATE_NOT_READY.

(** The line a modem without a SIM card answers with. *)
Definition cpin_not_inserted_line : cstr :=
  lit "+CPIN: NOT INSERTED" ++ [CR; LF].

(** What the parser needs of the enumerator of the numeric format: it is
    a value an [int32_t] holds and the conversion leaves alone, and it is
    a case label of its own in the [switch]. *)
Definition format_number_ok : Prop :=
  0 <= GSM_OPERATOR_FORMAT_NUMBER < 2 ^ 31
  /\ to_enum GSM_OPERATOR_FORMAT_NUMBER = GSM_OPERATOR_FORMAT_NUMBER
  /\ GSM_OPERATOR_FORMAT_NUMBER <> GSM_OPERATOR_FORMAT_LONG_NAME
  /\ GSM_OPERATOR_FORMAT_NUMBER <> GSM_OPERATOR_FORMAT_SHORT_NAME.

(** A current-operator line in the numeric format: mode, format, code,
    with or without the response keyword and the quotes around the code. *)
Definition cops_line (kw quoted : bool) (md code : Z) : cstr :=
  (if kw then lit "+COPS: " else [])
  ++ print_dec md ++ ","%char :: print_dec GSM_OPERATOR_FORMAT_NUMBER
  ++ ","%char :: opt_char quoted QUOTE ++ print_dec code
  ++ opt_char quoted QUOTE ++ [CR; LF].

(** The guard of each parser: a message of its kind is active and the
    write cursor is below the declared number of entries. *)
Definition cpbr_accepts (g : gsm_t) : bool :=
  match msg g with
  | Some m => bool_decide (cmd_def m = GSM_CMD_CPBR)
              && (ei (pb_list m) <? etr (pb_list m))%nat
  | None => false
  end.

Definition cpbf_accepts (g : gsm_t) : bool :=
  match msg g with
  | Some m => bool_decide (cmd_def m = GSM_CMD_CPBF)
              && (ei (pb_search m) <? etr (pb_search m))%nat
  | None => false
  end.

Definition cmgl_accepts (g : gsm_t) : bool :=
  match msg g with
  | Some m => bool_decide (cmd_def m = GSM_CMD_CMGL)
              && (sl_ei (sms_list m) <? sl_etr (sms_list m))%nat
  | None => false
  end.

(** The array [new] is [old] with the entry at [i] rewritten by [f] and
    no other entry touched. *)
Definition one_entry_written {A : Type} (f : A -> A) (i : nat)
    (old new : list A) : Prop :=
  length new = length old
  /\ new !! i = f <$> old !! i
  /\ forall j : nat, j <> i -> new !! j = old !! j.

Definition publish (er : option nat) (n : nat) : option nat :=
  match er with
  | Some _ => Some n
  | None => None
  end.

(** The effect of an accepted phonebook line on the member of the message:
    one entry written at the cursor, the cursor one further and published. *)
Definition pb_line_stored (str : cstr) (l l' : pb_list_t) : Prop :=
  one_entry_written (cpbr_entry (skip_keyword str)) (ei l)
    (entries l) (entries l')
  /\ ei l' = S (ei l)
  /\ etr l' = etr l
  /\ er l' = publish (er l) (S (ei l)).

(** The effect of an accepted SMS list line, with the cursor after the
    call in [cursor']. *)
Definition sms_line_stored (str : cstr) (cursor' : nat) (l l' : sms_list_t)
    : Prop :=
  one_entry_written (cmgl_entry (skip_keyword str) (sl_mem l)) (sl_ei l)
    (sl_entries l) (sl_entries l')
  /\ sl_ei l' = cursor'
  /\ sl_etr l' = sl_etr l.

(** The spec's sentence for [gsmi_parse_cmgl]: an accepted line moves the
    cursor on by one. *)
Definition cmgl_advances (str : cstr) (g : gsm_t) : Prop :=
  cmgl_accepts g = true ->
  exists m m',
    msg g = Some m /\ msg (snd (gsmi_parse_cmgl str g)) = Some m'
    /\ fst (gsmi_parse_cmgl str g) = 1
    /\ sms_line_stored str (S (sl_ei (sms_list m))) (sms_list m) (sms_list m').

Definition blank_pb_entry : gsm_pb_entry_t :=
  {| pb_pos := 0; pb_name := repeat NUL 20; pb_type := 0;
     pb_number := repeat NUL 26 |}.

Definition blank_datetime : gsm_datetime_t :=
  {| date := 0; month := 0; year := 0; day := 0; hours := 0; minutes := 0;
     seconds := 0 |}.

Definition blank_sms_entry : gsm_sms_entry_t :=
  {| sms_mem := 0; sms_pos := 0; sms_datetime := blank_datetime;
     sms_status := GSM_SMS_STATUS_ALL; sms_number := repeat NUL 26;
     sms_name := repeat NUL 20 |}.

Definition blank_pb_list (n : nat) : pb_list_t :=
  {| entries := repeat blank_pb_entry n; etr := n; ei := 0; er := Some 0%nat |}.

Definition blank_sms_list (n : nat) : sms_list_t :=
  {| sl_mem := 0; sl_entries := repeat blank_sms_entry n; sl_etr := n;
     sl_ei := 0; sl_er := Some 0%nat |}.

(** [gsm] with an active command of kind [cmd] that has room for [n]
    entries in each of its members. *)
Definition gsm_with_cmd (cmd : gsm_cmd_t) (n : nat) : gsm_t :=
  set_msg (Some {| cmd_def := cmd; cops_get_curr := None;
                   cops_scan := blank_scan n; sms_list := blank_sms_list n;
                   pb_list := blank_pb_list n; pb_search := blank_pb_list n |})
    blank_gsm.

Definition cpbr_line : cstr :=
  lit "+CPBR: 1," ++ QUOTE :: lit "Home" ++ QUOTE :: lit ",129,"
  ++ QUOTE :: lit "+38640123456" ++ [QUOTE; CR; LF].

Definition cmgl_line : cstr :=
  lit "+CMGL: 3," ++ QUOTE :: lit "REC READ" ++ QUOTE :: lit ","
  ++ QUOTE :: lit "+38640123456" ++ QUOTE :: lit ","
  ++ QUOTE :: QUOTE :: lit ","
  ++ QUOTE :: lit "18/03/21,10:15:30+04" ++ [QUOTE; CR; LF].

(** Some bit of a 32-bit mask is set. *)
Definition some_bit_set (mask : Z) : Prop :=
  exists k, 0 <= k < 32 /\ Z.testbit mask k = true.

(** What the scanners need of the device memory table: no entry has an
    empty literal, and every identifier, the unknown one included, is the
    number of a bit of the 32-bit mask. *)
Definition mem_map_ok : Prop :=
  Forall (fun e => strlen (mem_str e) <> 0%nat /\ 0 <= mem_id e < 32)
    gsm_dev_mem_map
  /\ 0 <= GSM_MEM_UNKNOWN < 32.

(** [gsmi_parse_memory] after its two leading skips. *)
Definition memory_after_skip (s : cstr) : Z * cstr :=
  let '(mem, s) := mem_scan s gsm_dev_mem_map GSM_MEM_UNKNOWN in
  let s :=
    if (mem =? GSM_MEM_UNKNOWN)
    then snd (fst (gsmi_parse_string s None 0 true))
    else s in
  let s := skip_char QUOTE s in
  (mem, s).

Definition cpms_opt_line : cstr :=
  lit "+CPMS: (" ++ QUOTE :: lit "SM" ++ QUOTE :: lit ","
  ++ QUOTE :: lit "ME" ++ QUOTE :: lit "),("
  ++ QUOTE :: lit "SM" ++ QUOTE :: lit "),("
  ++ QUOTE :: lit "XX" ++ QUOTE :: lit ")" ++ [CR; LF].

Definition gsm_three_pools : gsm_t :=
  set_sms_mems
    (repeat {| mem_available := 0; current := 0; used := 0; total := 0 |} 3)
    blank_gsm.

End Statements.

(** ** Further scanners of [gsm_parser.c] *)

(** Modelled from the spec: the macros [GSM_CHARISHEXNUM] and
    [GSM_CHARHEXTONUM] are declared in a header outside the parser; the
    spec has the hex scanner read base 16 digits, so they are the test for
    '0'..'9', 'a'..'f', 'A'..'F' and the value of such a digit. *)
Definition GSM_CHARISHEXNUM (c : ascii) : bool :=
  ((48 <=? char_code c) && (char_code c <=? 57))
  || ((97 <=? char_code c) && (char_code c <=? 102))
  || ((65 <=? char_code c) && (char_code c <=? 70)).

Definition GSM_CHARHEXTONUM (c : ascii) : Z :=
  if (48 <=? char_code c) && (char_code c <=? 57) then char_code c - 48
  else if (97 <=? char_code c) && (char_code c <=? 102)
       then char_code c - 97 + 10
  else if (65 <=? char_code c) && (char_code c <=? 70)
       then char_code c - 65 + 10
  else 0.

(** The [while (GSM_CHARISHEXNUM ( *p))] loop of [gsmi_parse_hexnumber],
    on its [int32_t] accumulator. *)
Fixpoint hexnumber_loop (p : cstr) (val : Z) : Z * cstr :=
  match p with
  | [] => (val, p)
  | c :: p' =>
      if GSM_CHARISHEXNUM c
      then hexnumber_loop p' (int32 (val * 16 + GSM_CHARHEXTONUM c))
      else (val, p)
  end.

(** The [int32_t] accumulator is returned as [uint32_t]. *)
Definition gsmi_parse_hexnumber (str : cstr) : Z * cstr :=
  let p := str in
  let p := skip_char QUOTE p in
  let p := skip_char "," p in
  let p := skip_char QUOTE p in
  let '(val, p) := hexnumber_loop p 0 in
  let p := skip_char "," p in
  (GSM_U32 val, p).

(** [gsm_ip_t]: the four [uint8_t] of [ip->ip].  Returns the value, the
    cursor and the address. *)
Definition gsmi_parse_ip (src : cstr) : Z * cstr * list Z :=
  let p := src in
  let p := skip_char QUOTE p in
  let '(n0, p) := gsmi_parse_number p in
  let p := next p in
  let '(n1, p) := gsmi_parse_number p in
  let p := next p in
  let '(n2, p) := gsmi_parse_number p in
  let p := next p in
  let '(n3, p) := gsmi_parse_number p in
  let p := skip_char QUOTE p in
  (1, p, [GSM_U8 n0; GSM_U8 n1; GSM_U8 n2; GSM_U8 n3]).

(** [gsm_mac_t]: the six [uint8_t] of [mac->mac]. *)
Definition gsmi_parse_mac (src : cstr) : Z * cstr * list Z :=
  let p := src in
  let p := skip_char QUOTE p in
  let '(n0, p) := gsmi_parse_hexnumber p in
  let p := next p in
  let '(n1, p) := gsmi_parse_hexnumber p in
  let p := next p in
  let '(n2, p) := gsmi_parse_hexnumber p in
  let p := next p in
  let '(n3, p) := gsmi_parse_hexnumber p in
  let p := next p in
  let '(n4, p) := gsmi_parse_hexnumber p in
  let p := next p in
  let '(n5, p) := gsmi_parse_hexnumber p in
  let p := skip_char QUOTE p in
  let p := skip_char "," p in
  (1, p, [GSM_U8 n0; GSM_U8 n1; GSM_U8 n2; GSM_U8 n3; GSM_U8 n4; GSM_U8 n5]).

(** ** Vocabulary of the further statements *)

Definition is_hex_digit (c : ascii) : Prop := GSM_CHARISHEXNUM c = true.

(** The value of a run of hex digits read after the value [v]. *)
Fixpoint hex_acc (v : Z) (hs : list ascii) : Z :=
  match hs with
  | [] => v
  | c :: hs' => hex_acc (v * 16 + GSM_CHARHEXTONUM c) hs'
  end.

Definition hex_value (hs : list ascii) : Z := hex_acc 0 hs.

(** The upper-case hex digit of [d]. *)
Definition hex_char (d : Z) : ascii :=
  ascii_of_N (Z.to_N (if d <? 10 then 48 + d else 55 + d)).

(** A byte as two hex digits. *)
Definition print_hex_byte (b : Z) : cstr := [hex_char (b / 16); hex_char (b mod 16)].

(** A number below 100 as two decimal digits. *)
Definition print_dec2 (n : Z) : cstr := [digit_char (n / 10); digit_char (n mod 10)].

(** The text of a field between its quotes: no NUL and no quote in it. *)
Definition plain_text (body : cstr) : Prop :=
  Forall (fun c => c <> NUL /\ c <> QUOTE) body.

(** A quoted field with the delimiter after it, behind an optional comma. *)
Definition quoted_field (comma : bool) (body : cstr) (delim : ascii)
    (rest : cstr) : cstr :=
  opt_char comma "," ++ QUOTE :: body ++ QUOTE :: delim :: rest.

(** A value of a [uint8_t]. *)
Definition octet (z : Z) : Prop := 0 <= z <= 255.

(** A character between two numbers that [gsmi_parse_ip] steps over
    unseen: anything but a digit or a comma. *)
Definition ip_separator (c : ascii) : Prop :=
  GSM_CHARISNUM c = false /\ c <> ","%char.

(** An address as text: four decimal numbers with one character between
    each two, behind an optional quote. *)
Definition ip_text (q : bool) (a b c d : Z) (s1 s2 s3 : ascii) (tail : cstr)
    : cstr :=
  opt_char q QUOTE ++ print_dec a ++ s1 :: print_dec b ++ s2 :: print_dec c
  ++ s3 :: print_dec d ++ tail.

(** A character between two bytes of a MAC address: anything but a hex
    digit or a comma. *)
Definition mac_separator (c : ascii) : Prop :=
  GSM_CHARISHEXNUM c = false /\ c <> ","%char.

(** Six bytes, two hex digits each, with the separators [seps] between
    them. *)
Fixpoint mac_bytes_text (bs : list Z) (seps : list ascii) (tail : cstr) : cstr :=
  match bs with
  | [] => tail
  | [b] => print_hex_byte b ++ tail
  | b :: bs' =>
      match seps with
      | s :: seps' => print_hex_byte b ++ s :: mac_bytes_text bs' seps' tail
      | [] => print_hex_byte b ++ tail
      end
  end.

(** Date and time as the modem writes them: six two-digit numbers. *)
Definition datetime_text (comma q : bool) (dd mm yy hh mi ss : Z)
    (tail : cstr) : cstr :=
  opt_char comma "," ++ opt_char q QUOTE
  ++ print_dec2 dd ++ "/"%char :: print_dec2 mm ++ "/"%char :: print_dec2 yy
  ++ ","%char :: print_dec2 hh ++ ":"%char :: print_dec2 mi
  ++ ":"%char :: print_dec2 ss ++ tail.

Definition two_digits (n : Z) : Prop := 0 <= n <= 99.

#[global] Instance ascii_eq_decision : EqDecision ascii := Ascii.ascii_dec.

(** The status a token stands for, if any. *)
Definition sms_status_of_token (t : cstr) : option gsm_sms_status_t :=
  if decide (t = lit "REC UNREAD") then Some GSM_SMS_STATUS_UNREAD
  else if decide (t = lit "REC READ") then Some GSM_SMS_STATUS_READ
  else if decide (t = lit "STO UNSENT") then Some GSM_SMS_STATUS_UNSENT
  else if decide (t = lit "REC SENT") then Some GSM_SMS_STATUS_SENT
  else None.

Section ScanStatements.
Context {hdr : gsm_hdr}.

(** Every name of the record array ends in its buffer: the last byte of
    the buffer, the terminator slot, holds NUL. *)
Definition names_terminated (sc : cops_scan_t) : Prop :=
  forall (r : nat) (o : gsm_operator_t),
    ops sc !! r = Some o ->
    long_name o !! (sizeof_long_name - 1)%nat = Some NUL
    /\ short_name o !! (sizeof_short_name - 1)%nat = Some NUL.

End ScanStatements.

Section ScanRecord.
Context {hdr : gsm_hdr}.

(** The state between two records and the state inside one, in term [k]
    at position [t]; [c] is the character before. *)
Definition scan_idle (c : ascii) : cops_scan_state :=
  {| bo := false; ccd := false; tn := 0; tp := 0; ch_prev := c |}.

Definition scan_in_record (k t : nat) (c : ascii) : cops_scan_state :=
  {| bo := true; ccd := false; tn := k; tp := t; ch_prev := c |}.

(** A character the state machine takes as data inside a record. *)
Definition name_char (ch : ascii) : Prop :=
  ch <> NUL /\ ch <> ")"%char /\ ch <> ","%char /\ ch <> QUOTE.

(** One operator as the modem lists it: status, long name, short name and
    numeric code, the names quoted, the code quoted or not. *)
Definition operator_text (st long short code : cstr) (qc : bool) : cstr :=
  "("%char :: st ++ ","%char :: QUOTE :: long ++ QUOTE :: ","%char
  :: QUOTE :: short ++ QUOTE :: ","%char :: opt_char qc QUOTE ++ code
  ++ opt_char qc QUOTE ++ [")"%char].

(** A record nothing has been decoded into: numbers at 0, names empty in
    buffers of their declared size. *)
Definition fresh_operator (o : gsm_operator_t) : Prop :=
  stat o = 0 /\ num o = 0
  /\ long_name o !! 0%nat = Some NUL /\ short_name o !! 0%nat = Some NUL
  /\ (sizeof_long_name <= length (long_name o))%nat
  /\ (sizeof_short_name <= length (short_name o))%nat.

(** The write position [tp] is a [uint8_t]: it reaches every slot of a
    name buffer of up to 256 bytes. *)
Definition scan_sizes_ok : Prop :=
  (sizeof_long_name <= 256)%nat /\ (sizeof_short_name <= 256)%nat.

(** A status value that [size_t] holds and the conversion to the
    enumerated type leaves alone, with the values below it. *)
Definition stat_fits (v : Z) : Prop :=
  v < 2 ^ size_t_bits /\ forall w, 0 <= w <= v -> to_enum w = w.

(** The record and the write position after the data characters [w] of
    term [k], from position [t]. *)
Fixpoint term_rec (k : nat) (w : list ascii) (t : nat) (o : gsm_operator_t)
    : gsm_operator_t :=
  match w with
  | [] => o
  | ch :: w' =>
      term_rec k w' (cops_scan_data_tp (scan_in_record k t NUL))
        (cops_scan_data ch (scan_in_record k t NUL) o)
  end.

Fixpoint term_tp (k : nat) (w : list ascii) (t : nat) : nat :=
  match w with
  | [] => t
  | ch :: w' => term_tp k w' (cops_scan_data_tp (scan_in_record k t NUL))
  end.

End ScanRecord.

(** A name buffer of declared size [size] after the data characters [w]
    written from position [t] on. *)
Fixpoint name_feed (size : nat) (w : list ascii) (t : nat) (buf : list ascii)
    : list ascii :=
  match w with
  | [] => buf
  | ch :: w' =>
      if (t <? size - 1)%nat
      then name_feed size w' (tp_incr t) (name_put buf t ch)
      else name_feed size w' t buf
  end.

(** ** Vocabulary of the statements on memories *)

Section MemoryStatements.
Context {hdr : gsm_hdr}.

(** The device memory table as the modem's lists are read against it: a
    literal is not empty and holds neither NUL nor a quote, no identifier
    is the unknown one, and no literal is a prefix of one further down the
    table (the first match of the scan is then the only one). *)
Definition mem_map_distinct : Prop :=
  Forall (fun e => mem_str e <> [] /\ plain_text (mem_str e)
                   /\ mem_id e <> GSM_MEM_UNKNOWN) gsm_dev_mem_map
  /\ forall (i j : nat) (e1 e2 : gsm_dev_mem_map_t),
       (i < j)%nat ->
       gsm_dev_mem_map !! i = Some e1 -> gsm_dev_mem_map !! j = Some e2 ->
       is_prefix (mem_str e1) (mem_str e2) = false.

(** A memory as the modem names it, between quotes and behind an optional
    comma. *)
Definition mem_token (comma : bool) (e : gsm_dev_mem_map_t) (rest : cstr)
    : cstr :=
  opt_char comma "," ++ QUOTE :: mem_str e ++ QUOTE :: rest.

(** A bracketed list of at least one memory. *)
Fixpoint mem_list_tail (es : list gsm_dev_mem_map_t) (tail : cstr) : cstr :=
  match es with
  | [] => tail
  | e :: es' => mem_token true e (mem_list_tail es' tail)
  end.

Definition mem_list_text (e : gsm_dev_mem_map_t)
    (es : list gsm_dev_mem_map_t) (tail : cstr) : cstr :=
  "("%char :: mem_token false e (mem_list_tail es (")"%char :: tail)).

(** The bits of the memories [es] added to [mask], in the order of the
    list. *)
Definition mem_mask (mask : Z) (es : list gsm_dev_mem_map_t) : Z :=
  fold_left (fun m e => Z.lor m (mem_bit (mem_id e))) es mask.

(** The line that lists the memories of the three SMS pools. *)
Definition cpms_list_line (kw : bool) (e1 e2 e3 : gsm_dev_mem_map_t)
    (es1 es2 es3 : list gsm_dev_mem_map_t) (tail : cstr) : cstr :=
  (if kw then lit "+CPMS: " else [])
  ++ mem_list_text e1 es1
       (","%char :: mem_list_text e2 es2
          (","%char :: mem_list_text e3 es3 tail)).

(** One pool of the line that reports the memories in use: the memory,
    the used and the total number of entries. *)
Definition pool_text (comma : bool) (e : gsm_dev_mem_map_t) (u t : Z)
    (rest : cstr) : cstr :=
  mem_token comma e (","%char :: print_dec u ++ ","%char :: print_dec t ++ rest).

Definition cpms_get_line (kw : bool) (e1 e2 e3 : gsm_dev_mem_map_t)
    (u1 t1 u2 t2 u3 t3 : Z) (tail : cstr) : cstr :=
  (if kw then lit "+CPMS: " else [])
  ++ pool_text false e1 u1 t1
       (pool_text true e2 u2 t2 (pool_text true e3 u3 t3 (CR :: tail))).

(** The line that answers the selection of memories: used and total of
    the three pools. *)
Definition cpms_set_line (kw : bool) (u1 t1 u2 t2 u3 t3 : Z) (tail : cstr)
    : cstr :=
  (if kw then lit "+CPMS: " else [])
  ++ print_dec u1 ++ ","%char :: print_dec t1 ++ ","%char :: print_dec u2
  ++ ","%char :: print_dec t2 ++ ","%char :: print_dec u3
  ++ ","%char :: print_dec t3 ++ CR :: tail.

(** A counter a [uint32_t] holds that is written in digits the
    [int32_t] scanner reads back (see [gsmi_parse_number]). *)
Definition counter (n : Z) : Prop := 0 <= n < 2 ^ 32.

End MemoryStatements.

(** Three memories of the sample table. *)
Definition sample_SM : gsm_dev_mem_map_t := {| mem_id := 0; mem_str := lit "SM" |}.
Definition sample_ME : gsm_dev_mem_map_t := {| mem_id := 1; mem_str := lit "ME" |}.
Definition sample_MT : gsm_dev_mem_map_t := {| mem_id := 2; mem_str := lit "MT" |}.

Definition blank_pool : gsm_sms_mem_t :=
  {| mem_available := 0; current := 0; used := 0; total := 0 |}.

(** ** A single SMS entry, and the vocabulary of the statements on entries *)

Section EntryStatements.
Context {hdr : gsm_hdr}.

(** [gsmi_parse_cmgr]: [e] is the entry [gsm.msg->msg.sms_read.entry]
    points to (the source reads through [gsm.msg] without a test).
    Returns the value and the entry. *)
Definition gsmi_parse_cmgr (str : cstr) (e : gsm_sms_entry_t)
    : Z * gsm_sms_entry_t :=
  let str := skip_keyword str in
  let '(_, str, status) := gsmi_parse_sms_status str (sms_status e) in
  let '(str, number) :=
    parse_string_into str (sms_number e) sizeof_sms_number true in
  let '(str, name) :=
    parse_string_into str (sms_name e) sizeof_sms_name true in
  let '(_, str, dt) := gsmi_parse_datetime str (sms_datetime e) in
  (1, {| sms_mem := sms_mem e; sms_pos := sms_pos e; sms_datetime := dt;
         sms_status := status; sms_number := number; sms_name := name |}).

(** The lines of a phonebook listing handed to [gsmi_parse_cpbr] one
    after the other, with the values the calls return. *)
Fixpoint cpbr_lines (ls : list cstr) (g : gsm_t) : list Z * gsm_t :=
  match ls with
  | [] => ([], g)
  | l :: ls' =>
      let '(r, g) := gsmi_parse_cpbr l g in
      let '(rs, g) := cpbr_lines ls' g in
      (r :: rs, g)
  end.

(** A position or a type as the modem writes it: a number the [int32_t]
    scanner reads back and [size_t] holds. *)
Definition position (n : Z) : Prop := 0 <= n < 2 ^ 31 /\ n < 2 ^ size_t_bits.

(** The body of a phonebook line: position, a quoted text, the type of
    the number, a quoted text. *)
Definition pb_line_text (pos : Z) (a : cstr) (ty : Z) (b : cstr)
    (tail : cstr) : cstr :=
  print_dec pos ++ ","%char
    :: quoted_field false a "," (print_dec ty ++ ","%char
         :: quoted_field false b CR tail).

(** The text members of a phonebook entry have their declared sizes. *)
Definition pb_entry_sized (e : gsm_pb_entry_t) : Prop :=
  (1 <= sizeof_pb_name <= length (pb_name e))%nat
  /\ (1 <= sizeof_pb_number <= length (pb_number e))%nat.

Definition sms_entry_sized (e : gsm_sms_entry_t) : Prop :=
  (1 <= sizeof_sms_number <= length (sms_number e))%nat
  /\ (1 <= sizeof_sms_name <= length (sms_name e))%nat.

(** The fields of an SMS entry after its position: status, number, name,
    date and time. *)
Definition sms_fields_text (st number name : cstr) (dd mm yy hh mi ss : Z)
    (tail : cstr) : cstr :=
  quoted_field false st ","
    (quoted_field false number ","
       (quoted_field false name ","
          (datetime_text false true dd mm yy hh mi ss tail))).

(** The status an entry holds after the token [st] was read into it. *)
Definition status_after (st : cstr) (old : gsm_sms_status_t)
    : gsm_sms_status_t :=
  match sms_status_of_token (take 10 st) with
  | Some s => s
  | None => old
  end.

(** What the fields of an SMS line leave in an entry. *)
Definition sms_fields_stored (st number name : cstr) (dd mm yy hh mi ss : Z)
    (e e' : gsm_sms_entry_t) : Prop :=
  sms_status e' = status_after st (sms_status e)
  /\ c_str (sms_number e') = take (sizeof_sms_number - 1) number
  /\ c_str (sms_name e') = take (sizeof_sms_name - 1) name
  /\ sms_datetime e'
     = {| date := dd; month := mm; year := 2000 + yy;
          day := day (sms_datetime e);
          hours := hh; minutes := mi; seconds := ss |}.

End EntryStatements.

(** The response keyword in front of a line body, when there is one:
    seven characters from the plus sign to the space after the colon. *)
Definition response_keyword (kw : cstr) : Prop :=
  kw = [] \/ (length kw = 7%nat /\ deref kw = "+"%char).

Section EntryFields.
Context {hdr : gsm_hdr}.

(** What a phonebook line leaves in an entry: the second field goes to
    the member [name] and the fourth to the member [number]. *)
Definition pb_fields_stored (pos : Z) (a : cstr) (ty : Z) (b : cstr)
    (e' : gsm_pb_entry_t) : Prop :=
  pb_pos e' = pos
  /\ c_str (pb_name e') = take (sizeof_pb_name - 1) a
  /\ pb_type e' = to_enum ty
  /\ c_str (pb_number e') = take (sizeof_pb_number - 1) b.

End EntryFields.

(** ** Vocabulary of the statements on the current operator *)

Section OperatorStatements.
Context {hdr : gsm_hdr}.

(** The enumerator of a name format, long or short. *)
Definition name_format (lg : bool) : Z :=
  if lg then GSM_OPERATOR_FORMAT_LONG_NAME else GSM_OPERATOR_FORMAT_SHORT_NAME.

(** What the parser needs of it: a value an [int32_t] holds and the
    conversion leaves alone, and a case label of its own. *)
Definition format_name_ok (lg : bool) : Prop :=
  0 <= name_format lg < 2 ^ 31
  /\ to_enum (name_format lg) = name_format lg
  /\ (lg = false ->
      GSM_OPERATOR_FORMAT_SHORT_NAME <> GSM_OPERATOR_FORMAT_LONG_NAME).

(** A current-operator line in a name format: mode, format, quoted name. *)
Definition cops_name_line (kw : cstr) (lg : bool) (md : Z) (name tail : cstr)
    : cstr :=
  kw ++ print_dec md ++ ","%char :: print_dec (name_format lg)
     ++ ","%char :: quoted_field false name CR tail.

(** The member of [data] a name format selects, and its declared size. *)
Definition data_name (lg : bool) (o : gsm_operator_curr_t) : list ascii :=
  if lg then data_long_name o else data_short_name o.

Definition sizeof_data_name (lg : bool) : nat :=
  if lg then sizeof_curr_long_name else sizeof_curr_short_name.

(** The user variable of an active current-operator query, if any. *)
Definition user_curr (g : gsm_t) : option gsm_operator_curr_t :=
  match msg g with
  | Some m =>
      if bool_decide (cmd_def m = GSM_CMD_COPS_GET) then cops_get_curr m
      else None
  | None => None
  end.

End OperatorStatements.

(** A network registration line: the status, behind the index of the
    request format when the line answers a query. *)
Definition creg_line (kw : cstr) (skip_first : bool) (n st : Z) (tail : cstr)
    : cstr :=
  kw ++ (if skip_first then print_dec n ++ ","%char :: print_dec st ++ CR :: tail
         else print_dec st ++ CR :: tail).

(** * Properties *)

(** ** Fixed-width arithmetic *)

Lemma int32_small (z : Z) : - 2 ^ 31 <= z < 2 ^ 31 -> int32 z = z.
Proof.
  intros H. unfold int32, wrap_signed.
  rewrite Z.mod_small; lia.
Qed.

Lemma int32_step (a d : Z) : int32 (int32 a * 10 + d) = int32 (a * 10 + d).
Proof.
  unfold int32, wrap_signed.
  f_equal.
  replace (((a + 2 ^ (32 - 1)) mod 2 ^ 32 - 2 ^ (32 - 1)) * 10 + d + 2 ^ (32 - 1))
    with ((a + 2 ^ (32 - 1)) mod 2 ^ 32 * 10 + (d + 2 ^ (32 - 1) - 10 * 2 ^ (32 - 1)))
    by lia.
  rewrite Z.add_mod by lia.
  rewrite Z.mul_mod_idemp_l by lia.
  rewrite <- Z.add_mod by lia.
  f_equal. lia.
Qed.

Lemma GSM_U32_int32 (z : Z) : GSM_U32 (int32 z) = GSM_U32 z.
Proof.
  unfold GSM_U32, int32, wrap_signed.
  rewrite Zminus_mod_idemp_l.
  f_equal. lia.
Qed.

(** ** Characters and cursors *)

Lemma skip_char_hit (c : ascii) (p : cstr) : skip_char c (c :: p) = p.
Proof. unfold skip_char. simpl. now rewrite Ascii.eqb_refl. Qed.

Lemma skip_char_miss (c : ascii) (p : cstr) :
  (deref p =? c)%char = false -> skip_char c p = p.
Proof. unfold skip_char. now intros ->. Qed.

Lemma skip_char_length (c : ascii) (p : cstr) :
  (length (skip_char c p) <= length p)%nat.
Proof.
  unfold skip_char.
  destruct p as [|a p]; simpl;
    [destruct (NUL =? c)%char | destruct (a =? c)%char]; simpl; lia.
Qed.

Lemma digit_range (c : ascii) : is_digit c -> 0 <= GSM_CHARTONUM c <= 9.
Proof.
  unfold is_digit, GSM_CHARISNUM, GSM_CHARTONUM.
  intros H. apply andb_true_iff in H as [H1 H2].
  apply Z.leb_le in H1, H2. lia.
Qed.

Lemma digit_not_lead (c : ascii) : is_digit c -> is_lead_char c = false.
Proof.
  unfold is_digit, GSM_CHARISNUM, is_lead_char. intros H.
  apply andb_true_iff in H as [H1 H2].
  repeat match goal with
  | |- (_ || _) = false => apply orb_false_iff; split
  end;
  apply Ascii.eqb_neq; intros ->; vm_compute in H1, H2; congruence.
Qed.

Lemma digit_char_is_digit (d : Z) : 0 <= d <= 9 -> is_digit (digit_char d).
Proof.
  intros H.
  assert (E : d = 0 \/ d = 1 \/ d = 2 \/ d = 3 \/ d = 4 \/ d = 5 \/ d = 6
              \/ d = 7 \/ d = 8 \/ d = 9) by lia.
  repeat (destruct E as [-> | E]); try subst d; reflexivity.
Qed.

Lemma digit_char_value (d : Z) :
  0 <= d <= 9 -> GSM_CHARTONUM (digit_char d) = d.
Proof.
  intros H.
  assert (E : d = 0 \/ d = 1 \/ d = 2 \/ d = 3 \/ d = 4 \/ d = 5 \/ d = 6
              \/ d = 7 \/ d = 8 \/ d = 9) by lia.
  repeat (destruct E as [-> | E]); try subst d; reflexivity.
Qed.

(** ** [gsmi_parse_number] *)

Lemma number_loop_stop (rest : cstr) (v : Z) :
  GSM_CHARISNUM (deref rest) = false -> number_loop rest v = (v, rest).
Proof. destruct rest as [|c rest]; simpl; [easy | now intros ->]. Qed.

(** The loop computes the value of the digit run modulo the width of
    [int32_t]. *)
Lemma number_loop_digits (ds rest : cstr) (v : Z) :
  Forall is_digit ds ->
  GSM_CHARISNUM (deref rest) = false ->
  number_loop (ds ++ rest) (int32 v) = (int32 (dec_acc v ds), rest).
Proof.
  intros Hds Hrest. revert v.
  induction Hds as [|c ds Hc _ IH]; intros v; simpl.
  - now apply number_loop_stop.
  - rewrite Hc, int32_step. apply IH.
Qed.

Lemma dec_acc_le (ds : cstr) (v : Z) :
  Forall is_digit ds -> 0 <= v -> v <= dec_acc v ds.
Proof.
  intros Hds. revert v.
  induction Hds as [|c ds Hc _ IH]; intros v Hv; simpl; [lia|].
  apply digit_range in Hc.
  specialize (IH (v * 10 + GSM_CHARTONUM c)). lia.
Qed.

Lemma dec_value_nonneg (ds : cstr) : Forall is_digit ds -> 0 <= dec_value ds.
Proof. intros H. now apply dec_acc_le. Qed.

Lemma skip_lead_lead (q1 c q2 s k p : bool) (body : cstr) :
  (deref body =? QUOTE)%char = false ->
  (deref body =? ",")%char = false ->
  (deref body =? "/")%char = false ->
  (deref body =? ":")%char = false ->
  (deref body =? "+")%char = false ->
  skip_lead (lead q1 c q2 s k p ++ body) = body.
Proof.
  intros H1 H2 H3 H4 H5.
  unfold skip_lead, lead, skip_char.
  destruct q1, c, q2, s, k, p; simpl;
    rewrite ?H1, ?H2, ?H3, ?H4, ?H5; simpl;
    rewrite ?H1, ?H2, ?H3, ?H4, ?H5; reflexivity.
Qed.

Lemma is_lead_char_false (c : ascii) :
  is_lead_char c = false ->
  (c =? QUOTE)%char = false /\ (c =? ",")%char = false
  /\ (c =? "/")%char = false /\ (c =? ":")%char = false
  /\ (c =? "+")%char = false /\ (c =? "-")%char = false.
Proof.
  unfold is_lead_char. intros H.
  repeat (apply orb_false_iff in H as [H ?]). auto 10.
Qed.

Lemma shape_head_not_lead (ds rest : cstr) :
  number_shape false ds rest -> is_lead_char (deref (ds ++ rest)) = false.
Proof.
  intros (Hds & _ & Hrest).
  destruct Hds as [|c ds Hc _]; simpl.
  - now apply Hrest.
  - now apply digit_not_lead.
Qed.

(** What the scanner returns on an input of the shape above, with the
    wrap-around of the accumulator in place. *)
Lemma gsmi_parse_number_wrap (q1 c q2 s k p minus : bool) (ds rest : cstr) :
  number_shape minus ds rest ->
  gsmi_parse_number (number_input q1 c q2 s k p minus ds rest)
  = ((if minus then int32 (- int32 (dec_value ds)) else int32 (dec_value ds)),
     skip_char "," rest).
Proof.
  intros Hshape.
  pose proof Hshape as (Hds & Hrest & _).
  unfold gsmi_parse_number, number_input.
  change (skip_char "+" (skip_char ":" (skip_char "/" (skip_char QUOTE
            (skip_char "," (skip_char QUOTE ?x))))))
    with (skip_lead x).
  destruct minus.
  - change (opt_char true "-" ++ ds ++ rest) with ("-"%char :: ds ++ rest).
    rewrite skip_lead_lead by reflexivity. simpl.
    change 0 with (int32 0) at 1.
    now rewrite number_loop_digits.
  - change (opt_char false "-" ++ ds ++ rest) with (ds ++ rest).
    apply shape_head_not_lead, is_lead_char_false in Hshape
      as (E1 & E2 & E3 & E4 & E5 & E6).
    rewrite skip_lead_lead by assumption. rewrite E6.
    change 0 with (int32 0) at 1.
    now rewrite number_loop_digits.
Qed.

(** C7, as amended: on an input made of the leading characters the
    scanner steps over, an optional minus sign, a run of decimal digits
    and a remainder, [gsmi_parse_number] returns the signed decimal value
    of the run (0 for an empty run) whenever that value fits [int32_t],
    stops at the first character that is not a digit and steps over at
    most one comma after the run; on ["-123,rest"] it returns -123 with
    the cursor at ["rest"]; and on a plain run of digits the cursor ends
    right after the last digit. *)
Theorem gsmi_parse_number_exact (q1 c q2 s k p minus : bool) (ds rest : cstr) :
  number_shape minus ds rest ->
  dec_value ds < 2 ^ 31 ->
  gsmi_parse_number (number_input q1 c q2 s k p minus ds rest)
  = ((if minus then - dec_value ds else dec_value ds), skip_char "," rest)
  /\ gsmi_parse_number (lit "-123,rest") = (-123, lit "rest")
  /\ gsmi_parse_number ds = (dec_value ds, []).
Proof.
  intros Hshape Hfit.
  pose proof Hshape as (Hds & _ & _).
  pose proof (dec_value_nonneg ds Hds) as Hpos.
  split; [|split].
  - rewrite gsmi_parse_number_wrap by assumption.
    rewrite (int32_small (dec_value ds)) by lia.
    destruct minus; [rewrite int32_small by lia|]; reflexivity.
  - reflexivity.
  - assert (Hplain : number_shape false ds []).
    { split; [assumption | split; [reflexivity | intros _ _; reflexivity]]. }
    pose proof (gsmi_parse_number_wrap false false false false false false
                  false ds [] Hplain) as E.
    unfold number_input in E. simpl in E. rewrite app_nil_r in E.
    rewrite E. f_equal. apply int32_small. lia.
Qed.

Lemma gsmi_parse_number_exact_witness :
  gsmi_parse_number (lit ",-42;x") = (-42, lit ";x")
  /\ gsmi_parse_number (lit "-123,rest") = (-123, lit "rest")
  /\ gsmi_parse_number (lit "42") = (42, []).
Proof.
  apply (gsmi_parse_number_exact false true false false false false true
           (lit "42") (lit ";x")).
  - split; [repeat constructor | split; [reflexivity | discriminate]].
  - vm_compute. reflexivity.
Defined.

(** C7, as the spec words it, fails on a run of digits whose value does
    not fit [int32_t]: the result of the scanner is a 32-bit value. *)
Lemma gsmi_parse_number_exact_counterexample :
  ~ parse_number_exact_on false false false false false false false
      (lit "2147483648") [].
Proof.
  unfold parse_number_exact_on. intros H.
  assert (Hshape : number_shape false (lit "2147483648") []).
  { split; [repeat constructor | split; [reflexivity | discriminate]]. }
  specialize (H Hshape). vm_compute in H. discriminate H.
Qed.

(** ** [gsmi_parse_string] *)

Lemma gsmi_parse_string_ret (src : cstr) (dst : option (list ascii))
    (dst_len : nat) (trim : bool) :
  fst (fst (gsmi_parse_string src dst dst_len trim)) = 1.
Proof.
  unfold gsmi_parse_string.
  now destruct (string_loop _ _ _ _ _) as [[p d] i].
Qed.

(** C8, as amended: on the quoted field ["abc"] followed by [,next],
    [gsmi_parse_string] with capacity 10 stores ["abc"] and leaves the
    cursor on the comma in front of [next] (the closing quote is stepped
    over, the comma is not); with capacity 2 and trimming it stores ["a"]
    and leaves the cursor on that same comma; with capacity 2 and no
    trimming it stores ["a"] and stops on the character it could not
    store; and it returns 1 in every case. *)
Theorem gsmi_parse_string_abc (d10 d2 : list ascii) :
  length d10 = 10%nat ->
  length d2 = 2%nat ->
  (exists d', gsmi_parse_string abc_field (Some d10) 10 true
              = (1, lit ",next", Some d') /\ c_str d' = lit "abc")
  /\ (exists d', gsmi_parse_string abc_field (Some d2) 2 true
                 = (1, lit ",next", Some d') /\ c_str d' = lit "a")
  /\ (exists d', gsmi_parse_string abc_field (Some d2) 2 false
                 = (1, lit "bc" ++ QUOTE :: lit ",next", Some d')
                 /\ c_str d' = lit "a")
  /\ (forall src dst dst_len trim,
        fst (fst (gsmi_parse_string src dst dst_len trim)) = 1).
Proof.
  intros H10 H2.
  do 11 (destruct d10 as [|? d10]; try discriminate H10).
  do 3 (destruct d2 as [|? d2]; try discriminate H2).
  repeat split; try (eexists; split; reflexivity).
  apply gsmi_parse_string_ret.
Qed.

Lemma gsmi_parse_string_abc_witness :
  parse_string_into abc_field (repeat "x"%char 10) 10 true
  = (lit ",next", lit "abc" ++ NUL :: repeat "x"%char 6).
Proof.
  destruct (gsmi_parse_string_abc (repeat "x"%char 10) (repeat "x"%char 2)
              eq_refl eq_refl) as [[d' [E _]] _].
  unfold parse_string_into. rewrite E.
  vm_compute in E. injection E as <-. reflexivity.
Defined.

(** C8, as the spec words it, fails: after the field the cursor is on the
    comma, not on [next]. *)
Lemma gsmi_parse_string_abc_counterexample :
  ~ cursor_at_next (repeat NUL 10).
Proof. unfold cursor_at_next. vm_compute. discriminate. Qed.

(** With a declared length of 0 the loop stores nothing. *)
Lemma string_loop_zero (p : cstr) (d : list ascii) (i : nat) (trim : bool) :
  snd (fst (string_loop p (Some d) 0 i trim)) = Some d
  /\ snd (string_loop p (Some d) 0 i trim) = i.
Proof.
  induction p as [|c p IH]; simpl; [easy|].
  destruct (c =? NUL)%char; [easy|].
  destruct (_ && _); [easy|].
  destruct trim; simpl; [apply IH | easy].
Qed.

(** C9, at the failing input: called with a destination that is not NULL
    and a declared length of 0, [gsmi_parse_string] still stores the
    terminating NUL at offset 0 of the destination; one byte is written
    into a buffer declared to hold none. *)
Theorem gsmi_parse_string_zero_capacity (src : cstr) (d : list ascii)
    (trim : bool) :
  snd (gsmi_parse_string src (Some d) 0 trim) = Some (<[0%nat := NUL]> d)
  /\ snd (gsmi_parse_string (lit "abc") (Some (lit "x")) 0 true)
     = Some [NUL].
Proof.
  split; [|reflexivity].
  unfold gsmi_parse_string. simpl.
  pose proof (string_loop_zero (skip_char QUOTE (skip_char "," src)) d 0 trim)
    as [E1 E2].
  destruct (string_loop _ _ _ _ _) as [[p d'] i]. simpl in *.
  now subst.
Qed.

(** The loop stores at offsets from [i] up to, and not including, the
    declared length only. *)
Lemma string_loop_frame (p : cstr) (d : list ascii) (n i : nat) (trim : bool) :
  exists p' d' i',
    string_loop p (Some d) n i trim = (p', Some d', i')
    /\ (i <= i')%nat /\ ((i <= n)%nat -> (i' <= n)%nat)
    /\ forall j : nat, (j < i)%nat \/ (n <= j)%nat -> d' !! j = d !! j.
Proof.
  revert d i. induction p as [|c p IH]; intros d i; simpl.
  - exists [], d, i. auto with lia.
  - destruct (c =? NUL)%char; [exists (c :: p), d, i; auto with lia|].
    destruct (_ && _); [exists p, d, i; auto with lia|].
    destruct (Nat.ltb_spec i n) as [Hlt | Hge].
    + destruct (IH (<[i := c]> d) (S i)) as (p' & d' & i' & E & H1 & H2 & H3).
      exists p', d', i'. repeat split; [assumption | lia | lia |].
      intros j Hj. rewrite H3 by lia.
      apply list_lookup_insert_ne. lia.
    + destruct trim; simpl; [apply IH|].
      exists (c :: p), d, i. auto with lia.
Qed.

(** With a declared length of at least 1, [gsmi_parse_string] leaves every
    byte at or beyond the declared length alone, terminating NUL
    included. *)
Lemma gsmi_parse_string_within_capacity (src : cstr) (d : list ascii)
    (dst_len : nat) (trim : bool) :
  (1 <= dst_len)%nat ->
  exists d', snd (gsmi_parse_string src (Some d) dst_len trim) = Some d'
    /\ forall j : nat, (dst_len <= j)%nat -> d' !! j = d !! j.
Proof.
  intros Hlen. unfold gsmi_parse_string.
  destruct (Nat.eqb_spec dst_len 0) as [-> | _]; [lia|].
  destruct (string_loop_frame (skip_char QUOTE (skip_char "," src)) d
              (dst_len - 1) 0 trim) as (p' & d' & i' & E & _ & H2 & H3).
  rewrite E. simpl. eexists; split; [reflexivity|].
  intros j Hj.
  rewrite list_lookup_insert_ne by lia.
  apply H3. lia.
Qed.

(** ** The operator scan *)

Section Scan.
Context {hdr : gsm_hdr}.

(** A stored name character never lands on the terminator slot or beyond
    it: there a byte keeps its value or becomes the NUL that follows the
    character. *)
Lemma name_put_frame (name : list ascii) (tp' size j : nat) (ch : ascii) :
  (tp' < size - 1)%nat -> (size - 1 <= j)%nat ->
  name_put name tp' ch !! j = name !! j
  \/ name_put name tp' ch !! j = Some NUL.
Proof.
  intros Htp Hj. unfold name_put.
  destruct (decide (tp_incr tp' = j)) as [<- | Hne].
  - destruct (decide (tp_incr tp' < length (<[tp' := ch]> name))%nat) as [Hin | Hout].
    + right. now apply list_lookup_insert_eq.
    + left. rewrite list_insert_ge by lia.
      apply list_lookup_insert_ne. lia.
  - left. rewrite list_lookup_insert_ne by assumption.
    apply list_lookup_insert_ne. lia.
Qed.

Lemma cops_scan_data_frame (ch : ascii) (u : cops_scan_state)
    (o : gsm_operator_t) (j : nat) :
  ((sizeof_long_name - 1 <= j)%nat ->
     long_name (cops_scan_data ch u o) !! j = long_name o !! j
     \/ long_name (cops_scan_data ch u o) !! j = Some NUL)
  /\ ((sizeof_short_name - 1 <= j)%nat ->
        short_name (cops_scan_data ch u o) !! j = short_name o !! j
        \/ short_name (cops_scan_data ch u o) !! j = Some NUL).
Proof.
  unfold cops_scan_data.
  destruct (tn u) as [|[|[|[|?]]]]; simpl; auto.
  - destruct (Nat.ltb_spec (tp u) (sizeof_long_name - 1)); simpl; auto.
    split; auto. intros Hj. now apply name_put_frame with sizeof_long_name.
  - destruct (Nat.ltb_spec (tp u) (sizeof_short_name - 1)); simpl; auto.
    split; auto. intros Hj. now apply name_put_frame with sizeof_short_name.
Qed.

(** One call of the state machine changes the record array at most at the
    record under construction, and there by [cops_scan_data]. *)
Lemma gsmi_parse_cops_scan_ops (ch : ascii) (reset : bool)
    (u : cops_scan_state) (sc : cops_scan_t) :
  let sc' := snd (gsmi_parse_cops_scan ch reset u sc) in
  ops sc' = ops sc
  \/ exists u0, ops sc' = alter (cops_scan_data ch u0) (opsi sc) (ops sc).
Proof.
  unfold gsmi_parse_cops_scan.
  repeat (case_match; simpl in *; simplify_eq); eauto.
Qed.

(** The second half of C9: the state machine never puts a long-name or
    short-name character on the reserved terminator slot or beyond. *)
Lemma gsmi_parse_cops_scan_terminator_slot (ch : ascii) (reset : bool)
    (u : cops_scan_state) (sc : cops_scan_t) (r j : nat)
    (o o' : gsm_operator_t) :
  ops sc !! r = Some o ->
  ops (snd (gsmi_parse_cops_scan ch reset u sc)) !! r = Some o' ->
  ((sizeof_long_name - 1 <= j)%nat ->
     long_name o' !! j = long_name o !! j \/ long_name o' !! j = Some NUL)
  /\ ((sizeof_short_name - 1 <= j)%nat ->
        short_name o' !! j = short_name o !! j
        \/ short_name o' !! j = Some NUL).
Proof.
  intros Ho Ho'.
  destruct (gsmi_parse_cops_scan_ops ch reset u sc) as [E | [u0 E]];
    rewrite E in Ho'.
  - assert (o' = o) as -> by congruence. auto.
  - destruct (decide (opsi sc = r)) as [<- | Hne].
    + rewrite list_lookup_alter_eq, Ho in Ho'. simpl in Ho'.
      injection Ho' as <-. apply cops_scan_data_frame.
    + rewrite list_lookup_alter_ne in Ho' by assumption.
      assert (o' = o) as -> by congruence. auto.
Qed.

End Scan.

Section ScanFeed.
Context {hdr : gsm_hdr}.

Lemma gsmi_parse_cops_scan_ignored (ch : ascii) (u : cops_scan_state)
    (sc : cops_scan_t) :
  scan_ignoring u sc ->
  exists u', gsmi_parse_cops_scan ch false u sc = (1, u', sc)
             /\ scan_ignoring u' sc.
Proof.
  intros Hlatch. unfold gsmi_parse_cops_scan. simpl.
  destruct ((ch_prev u =? NUL)%char && (ch =? " ")%char); [eauto|].
  destruct ((ch_prev u =? NUL)%char && (ch =? ",")%char).
  - simpl. eexists; split; [reflexivity | now left].
  - destruct Hlatch as [Hccd | Hfull].
    + rewrite Hccd. simpl. eexists; split; [reflexivity | now left].
    + apply Nat.leb_le in Hfull as Hb. rewrite Hb, orb_true_r.
      eexists; split; [reflexivity | now right].
Qed.

(** C3: once the two-commas latch is set or the record count has reached
    the capacity of the record array, every character fed without the
    reset flag is consumed (the call returns 1) and leaves the record
    array, the record count and the published count as they were, however
    many characters follow; a reset call clears the latch. *)
Theorem gsmi_parse_cops_scan_latched (s : list ascii) (ch : ascii)
    (u : cops_scan_state) (sc : cops_scan_t) :
  scan_ignoring u sc ->
  snd (cops_scan_feed s u sc) = sc
  /\ scan_ignoring (fst (cops_scan_feed s u sc)) sc
  /\ fst (fst (gsmi_parse_cops_scan ch false u sc)) = 1
  /\ gsmi_parse_cops_scan ch true u sc = (1, cops_scan_reset, sc).
Proof.
  intros Hlatch.
  assert (Hfeed : snd (cops_scan_feed s u sc) = sc
                  /\ scan_ignoring (fst (cops_scan_feed s u sc)) sc).
  { revert u Hlatch.
    induction s as [|c s IH]; intros u Hlatch; cbn [cops_scan_feed].
    - auto.
    - destruct (gsmi_parse_cops_scan_ignored c u sc Hlatch) as (u' & -> & H').
      now apply IH. }
  destruct Hfeed as [H1 H2]. repeat split; try assumption.
  destruct (gsmi_parse_cops_scan_ignored ch u sc Hlatch) as (u' & -> & _).
  reflexivity.
Qed.

(** C2, as amended: after a reset, with a record count of 0 and room for
    at least one record, the characters [(] and [)] commit one record:
    the count becomes 1 and is published through the observer pointer,
    the record array is not written to, and the two-commas latch stays
    clear. *)
Theorem gsmi_parse_cops_scan_empty_brackets (u : cops_scan_state)
    (sc : cops_scan_t) :
  opsi sc = 0%nat ->
  (1 <= opsl sc)%nat ->
  let '(u', sc') := feed_after_reset (lit "()") u sc in
  opsi sc' = 1%nat
  /\ opf sc' = match opf sc with Some _ => Some 1%nat | None => None end
  /\ ops sc' = ops sc
  /\ ccd u' = false /\ bo u' = false.
Proof.
  intros Hi Hl.
  unfold feed_after_reset, gsmi_parse_cops_scan, cops_scan_feed. simpl.
  unfold gsmi_parse_cops_scan. simpl.
  rewrite Hi.
  destruct (Nat.leb_spec (opsl sc) 0) as [Hle | _]; [lia|].
  simpl. rewrite Hi.
  destruct (Nat.leb_spec (opsl sc) 0) as [Hle | _]; [lia|].
  simpl. rewrite Hi. auto.
Qed.

End ScanFeed.

(** The two-operator list of the spec, fed after a reset. *)
Example gsmi_parse_cops_scan_two_operators :
  let '(u, sc) :=
    feed_after_reset (hdr := sample_hdr)
      (lit "(1," ++ QUOTE :: lit "Long Name" ++ QUOTE :: lit ","
       ++ QUOTE :: lit "Short" ++ QUOTE :: lit ",26201),(2,"
       ++ QUOTE :: lit "Other" ++ QUOTE :: lit ","
       ++ QUOTE :: lit "O" ++ QUOTE :: lit ",26202)")
      cops_scan_reset (blank_scan 2) in
  opsi sc = 2%nat /\ opf sc = Some 2%nat
  /\ map (fun o => (stat o, c_str (long_name o), c_str (short_name o), num o))
       (ops sc)
     = [ (1, lit "Long Name", lit "Short", 26201);
         (2, lit "Other", lit "O", 26202) ].
Proof. vm_compute. auto. Qed.

(** A leading comma latches the empty list. *)
Example gsmi_parse_cops_scan_leading_comma :
  let '(u, sc) :=
    feed_after_reset (hdr := sample_hdr) (lit ",,(0,1,2)") cops_scan_reset
      (blank_scan 2) in
  ccd u = true /\ sc = blank_scan 2.
Proof. vm_compute. auto. Qed.

Lemma gsmi_parse_cops_scan_latched_witness :
  snd (cops_scan_feed (hdr := sample_hdr) (lit "(1,x)") (set_ccd true cops_scan_reset)
         (blank_scan 2)) = blank_scan 2.
Proof.
  apply (gsmi_parse_cops_scan_latched (hdr := sample_hdr) (lit "(1,x)") " "
           (set_ccd true cops_scan_reset) (blank_scan 2)).
  left. reflexivity.
Defined.

Lemma gsmi_parse_cops_scan_empty_brackets_witness :
  opsi (snd (feed_after_reset (hdr := sample_hdr) (lit "()") cops_scan_reset
               (blank_scan 1))) = 1%nat.
Proof.
  pose proof (gsmi_parse_cops_scan_empty_brackets (hdr := sample_hdr)
                cops_scan_reset (blank_scan 1) eq_refl (le_n 1)) as H.
  destruct (feed_after_reset _ _ _) as [u' sc']. apply H.
Defined.

(** C2, as the spec words it, fails: [()] leaves a record count of 1 and
    no latch. *)
Lemma gsmi_parse_cops_scan_empty_brackets_counterexample :
  ~ empty_brackets_latch (hdr := sample_hdr) cops_scan_reset (blank_scan 1).
Proof. unfold empty_brackets_latch. vm_compute. intros [H _]. discriminate H. Qed.

(** ** [gsmi_parse_creg] *)

Section Creg.
Context {hdr : gsm_hdr}.

(** C4, as amended: [gsmi_parse_creg] stores the status code of the line
    (the field after the index when the caller asks for the index to be
    skipped), issues the current-operator query exactly when that status is
    connected or connected-roaming, and returns 1 whatever the outcome of
    that query: a failed enqueue is not a hard error and does not reach the
    return value either; the call gives the same result as with a
    successful one. *)
Theorem gsmi_parse_creg_follow_up (str : cstr) (skip_first : bool)
    (res : gsmr_t) (g : gsm_t) :
  let '(ret, g', calls) := gsmi_parse_creg str skip_first res g in
  ret = 1
  /\ network_status g' = to_enum (creg_status_field str skip_first)
  /\ calls = (if attached (network_status g')
              then [call_gsm_operator_get] else [])
  /\ gsmi_parse_creg str skip_first gsmERR g
     = gsmi_parse_creg str skip_first gsmOK g.
Proof.
  unfold gsmi_parse_creg, creg_status_field, attached.
  destruct (gsmi_parse_number _) as [n str'] eqn:E. cbn.
  destruct ((to_enum n =? _) || _) eqn:Ha; destruct res; cbn;
    rewrite ?Ha; auto.
Qed.

End Creg.

Example gsmi_parse_creg_skip_first :
  network_status
    (snd (fst (gsmi_parse_creg (hdr := sample_hdr)
                 (lit "+CREG: 0,5" ++ [CR; LF]) true gsmOK blank_gsm))) = 5.
Proof. reflexivity. Qed.

(** C4, as the spec words it, fails: on a connected status with a query
    that cannot be enqueued the call returns 1. *)
Lemma gsmi_parse_creg_follow_up_counterexample :
  ~ creg_failure_reported (hdr := sample_hdr) (lit "+CREG: 1" ++ [CR; LF])
      false blank_gsm.
Proof.
  unfold creg_failure_reported. vm_compute.
  intros H. specialize (H (or_introl eq_refl)). discriminate H.
Qed.

(** ** [gsmi_parse_cpin] *)

(** Comparing the first [length t] characters with a phrase that holds no
    NUL is the prefix test. *)
Lemma strncmp_eq_prefix (t s : cstr) :
  Forall (fun c => c <> NUL) t ->
  strncmp_eq s t (length t) = is_prefix t s.
Proof.
  intros Ht. revert s. induction Ht as [|c t Hc _ IH]; intros s; simpl.
  - reflexivity.
  - destruct s as [|d s]; simpl.
    + destruct (Ascii.eqb_spec NUL c) as [<- | _]; [now destruct Hc | reflexivity].
    + rewrite (Ascii.eqb_sym c d).
      destruct (Ascii.eqb_spec d c) as [-> | _]; simpl; [|reflexivity].
      destruct (Ascii.eqb_spec c NUL) as [-> | _]; [now destruct Hc | apply IH].
Qed.

Lemma phrase_cmp (t : cstr) (n : nat) (s : cstr) :
  length t = n ->
  Forall (fun c => c <> NUL) t ->
  strncmp_eq s t n = is_prefix t s.
Proof. intros <-. apply strncmp_eq_prefix. Qed.

(** A comparison over more characters than the phrase has still needs the
    phrase in front. *)
Lemma strncmp_eq_longer (t s : cstr) (n : nat) :
  strncmp_eq s t n = true ->
  (length t <= n)%nat ->
  Forall (fun c => c <> NUL) t ->
  is_prefix t s = true.
Proof.
  intros E Hlen Ht. revert s n E Hlen.
  induction Ht as [|c t Hc _ IH]; intros s n E Hlen; simpl in *; [reflexivity|].
  destruct n as [|n]; [lia|]. simpl in E.
  destruct s as [|d s]; simpl in E.
  - destruct (Ascii.eqb_spec NUL c) as [<- | _]; [now destruct Hc | discriminate E].
  - destruct (Ascii.eqb_spec d c) as [-> | _]; [|discriminate E].
    rewrite Ascii.eqb_refl. simpl.
    destruct (Ascii.eqb_spec c NUL) as [-> | _]; [now destruct Hc|].
    apply (IH s n); [assumption | lia].
Qed.

(** The request for the SIM information goes out exactly when the state
    the call leaves is ready. *)
Lemma gsmi_parse_cpin_fetch (str : cstr) (send_evt : bool) (g : gsm_t) :
  let '(ret, g', calls) := gsmi_parse_cpin str send_evt g in
  ret = 1
  /\ (In call_gsmi_get_sim_info calls <-> sim_state g' = GSM_SIM_STATE_READY).
Proof.
  unfold gsmi_parse_cpin.
  match goal with
  | |- context [if strncmp_eq ?a ?b ?n then ?x else ?y] =>
      generalize (if strncmp_eq a b n then x else y)
  end.
  intros g1.
  destruct send_evt; case_bool_decide as Hr; cbn [app In sim_state set_cb_cpin_state];
    (split; [reflexivity|]); intuition congruence.
Qed.

(** Off the not-inserted phrase the call agrees with the spec's matcher. *)
Lemma gsmi_parse_cpin_by_phrases (str : cstr) (send_evt : bool) (g : gsm_t) :
  is_prefix (lit "NOT INSERTED") (skip_keyword str) = false ->
  sim_state (snd (fst (gsmi_parse_cpin str send_evt g)))
  = cpin_by_phrases (skip_keyword str).
Proof.
  intros Hni. unfold gsmi_parse_cpin, cpin_by_phrases.
  set (body := skip_keyword str) in *.
  rewrite (phrase_cmp (lit "READY") 5 body eq_refl) by (repeat constructor; discriminate).
  rewrite (phrase_cmp (lit "NOT READY") 9 body eq_refl) by (repeat constructor; discriminate).
  rewrite (phrase_cmp (lit "SIM PIN") 7 body eq_refl) by (repeat constructor; discriminate).
  rewrite (phrase_cmp (lit "PIN PUK") 7 body eq_refl) by (repeat constructor; discriminate).
  rewrite Hni.
  destruct (is_prefix (lit "READY") body); [now destruct send_evt|].
  destruct (is_prefix (lit "NOT READY") body); [now destruct send_evt|].
  assert (Hno : strncmp_eq body (lit "NOT INSERTED") 14 = false).
  { destruct (strncmp_eq body (lit "NOT INSERTED") 14) eqn:E; [|reflexivity].
    apply strncmp_eq_longer in E;
      [congruence | simpl; lia | repeat constructor; discriminate]. }
  rewrite Hno.
  destruct (is_prefix (lit "SIM PIN") body); [now destruct send_evt|].
  destruct (is_prefix (lit "PIN PUK") body); now destruct send_evt.
Qed.

(** C6, at the failing input: on the line [+CPIN: NOT INSERTED] followed
    by CR LF the body begins with the not-inserted phrase, and the call
    leaves the SIM state at not-ready: the comparison runs over 14
    characters of a 12 character phrase and so takes in the terminator. *)
Theorem gsmi_parse_cpin_not_inserted (send_evt : bool) (g : gsm_t) :
  cpin_by_phrases (skip_keyword cpin_not_inserted_line)
  = GSM_SIM_STATE_NOT_INSERTED
  /\ sim_state (snd (fst (gsmi_parse_cpin cpin_not_inserted_line send_evt g)))
     = GSM_SIM_STATE_NOT_READY.
Proof. split; [reflexivity | now destruct send_evt]. Qed.

(** ** Decimal text *)

Lemma print_dec_aux_spec (fuel : nat) (n : Z) (acc : cstr) :
  0 <= n < Z.of_nat fuel ->
  exists ds, print_dec_aux fuel n acc = ds ++ acc
    /\ ds <> [] /\ Forall is_digit ds
    /\ forall v, dec_acc v ds = v * 10 ^ Z.of_nat (length ds) + n.
Proof.
  revert n acc. induction fuel as [|fuel IH]; intros n acc Hn; [lia|].
  simpl.
  pose proof (Z.mod_pos_bound n 10 ltac:(lia)) as Hd.
  pose proof (Z.div_mod n 10 ltac:(lia)) as Hdm.
  destruct (Z.eqb_spec (n / 10) 0) as [E | E].
  - exists [digit_char (n mod 10)]. repeat split.
    + discriminate.
    + repeat constructor. apply digit_char_is_digit. lia.
    + intros v. simpl. rewrite digit_char_value by lia. lia.
  - assert (Hq : 0 <= n / 10 < Z.of_nat fuel).
    { pose proof (Z.div_pos n 10). lia. }
    destruct (IH (n / 10) (digit_char (n mod 10) :: acc) Hq)
      as (ds & -> & Hne & Hds & Hval).
    exists (ds ++ [digit_char (n mod 10)]). repeat split.
    + now rewrite <- app_assoc.
    + now destruct ds.
    + apply Forall_app. split; [assumption|].
      repeat constructor. apply digit_char_is_digit. lia.
    + intros v. rewrite length_app, Nat2Z.inj_add. simpl length.
      rewrite Z.pow_add_r by lia.
      assert (Happ : forall w l1 l2, dec_acc w (l1 ++ l2) = dec_acc (dec_acc w l1) l2).
      { intros w l1. revert w. induction l1; intros; simpl; auto. }
      rewrite Happ, Hval. simpl. rewrite digit_char_value by lia.
      change (10 ^ Z.of_nat 1) with 10. lia.
Qed.

(** The printed number is a run of digits, not empty, whose value is the
    number. *)
Lemma print_dec_spec (n : Z) :
  0 <= n ->
  print_dec n <> [] /\ Forall is_digit (print_dec n)
  /\ dec_value (print_dec n) = n.
Proof.
  intros Hn. unfold print_dec.
  destruct (print_dec_aux_spec (S (Z.to_nat n)) n []) as (ds & -> & Hne & Hds & Hval);
    [lia|].
  rewrite app_nil_r. repeat split; try assumption.
  unfold dec_value. rewrite Hval. lia.
Qed.

Lemma digit_head (ds rest : cstr) :
  ds <> [] -> Forall is_digit ds -> is_digit (deref (ds ++ rest)).
Proof. intros Hne Hds. destruct Hds; [congruence | assumption]. Qed.

Lemma digit_not_CR (c : ascii) : is_digit c -> (c =? CR)%char = false.
Proof.
  intros H. apply Ascii.eqb_neq. intros ->. discriminate H.
Qed.

(** A printed number followed by text that does not go on with a digit is
    read back, modulo the width of [int32_t], and one comma after it is
    stepped over. *)
Lemma gsmi_parse_number_print (q : bool) (n : Z) (rest : cstr) :
  0 <= n ->
  GSM_CHARISNUM (deref rest) = false ->
  gsmi_parse_number (opt_char q QUOTE ++ print_dec n ++ rest)
  = (int32 n, skip_char "," rest).
Proof.
  intros Hn Hrest.
  destruct (print_dec_spec n Hn) as (Hne & Hds & Hval).
  pose proof (gsmi_parse_number_wrap q false false false false false false
                (print_dec n) rest) as E.
  unfold number_input, lead in E. simpl in E.
  rewrite app_nil_r in E.
  rewrite E, Hval; [reflexivity|].
  split; [assumption | split; [assumption | intros _ Hnil; congruence]].
Qed.

Lemma gsmi_parse_number_print_plain (n : Z) (rest : cstr) :
  0 <= n ->
  GSM_CHARISNUM (deref rest) = false ->
  gsmi_parse_number (print_dec n ++ rest) = (int32 n, skip_char "," rest).
Proof. apply (gsmi_parse_number_print false). Qed.

(** ** [gsmi_parse_cops] *)

Section Cops.
Context {hdr : gsm_hdr}.

Lemma skip_keyword_cops (kw : bool) (md : Z) (rest : cstr) :
  0 <= md ->
  skip_keyword ((if kw then lit "+COPS: " else []) ++ print_dec md ++ rest)
  = print_dec md ++ rest.
Proof.
  intros Hmd. destruct kw; [reflexivity|].
  destruct (print_dec_spec md Hmd) as (Hne & Hds & _).
  pose proof (digit_head _ rest Hne Hds) as Hd.
  apply digit_not_lead, is_lead_char_false in Hd as (_ & _ & _ & _ & E & _).
  unfold skip_keyword. simpl app. now rewrite E.
Qed.

(** C5: for every numeric operator code (a value of the 32-bit payload
    slot), parsing the current-operator line that carries the numeric
    format and that code leaves [gsm.network.curr_operator] with the
    numeric format tag and exactly that code in [data.num]. *)
Theorem gsmi_parse_cops_numeric_roundtrip (kw quoted : bool) (md code : Z)
    (g : gsm_t) :
  format_number_ok ->
  0 <= md ->
  0 <= code < 2 ^ 32 ->
  let g' := snd (gsmi_parse_cops (cops_line kw quoted md code) g) in
  data_num (curr_operator g') = code
  /\ format (curr_operator g') = GSM_OPERATOR_FORMAT_NUMBER.
Proof.
  intros (Hrange & Henum & Hlong & Hshort) Hmd Hcode.
  destruct (print_dec_spec _ (proj1 Hrange)) as (Hne & Hds & _).
  destruct (print_dec_spec code (proj1 Hcode)) as (Hnec & Hdsc & _).
  assert (Hpayload :
    forall o, format o = GSM_OPERATOR_FORMAT_NUMBER ->
      cops_payload (opt_char quoted QUOTE ++ print_dec code
                    ++ opt_char quoted QUOTE ++ [CR; LF]) o
      = set_data_num code o).
  { intros o Ho. unfold cops_payload. rewrite Ho.
    destruct (Z.eqb_spec GSM_OPERATOR_FORMAT_NUMBER GSM_OPERATOR_FORMAT_LONG_NAME);
      [contradiction|].
    destruct (Z.eqb_spec GSM_OPERATOR_FORMAT_NUMBER GSM_OPERATOR_FORMAT_SHORT_NAME);
      [contradiction|].
    rewrite Z.eqb_refl.
    rewrite gsmi_parse_number_print by (lia || now destruct quoted).
    simpl fst. rewrite GSM_U32_int32. unfold GSM_U32.
    now rewrite Z.mod_small by lia. }
  unfold gsmi_parse_cops, cops_line.
  rewrite skip_keyword_cops by assumption.
  rewrite (gsmi_parse_number_print_plain md) by (assumption || reflexivity).
  rewrite skip_char_hit.
  rewrite (digit_not_CR _ (digit_head _ _ Hne Hds)). simpl negb.
  rewrite (gsmi_parse_number_print_plain GSM_OPERATOR_FORMAT_NUMBER)
    by (lia || reflexivity).
  rewrite skip_char_hit.
  rewrite (int32_small GSM_OPERATOR_FORMAT_NUMBER) by lia.
  rewrite Henum.
  assert (Hcr : (deref (opt_char quoted QUOTE ++ print_dec code
                        ++ opt_char quoted QUOTE ++ [CR; LF]) =? CR)%char
                = false).
  { destruct quoted; [reflexivity|].
    apply digit_not_CR. exact (digit_head (print_dec code) _ Hnec Hdsc). }
  rewrite Hcr. simpl negb. cbv iota.
  rewrite Hpayload by reflexivity.
  destruct (msg g) as [m|] eqn:Em; simpl; rewrite ?Em; [|auto].
  case_bool_decide; [|auto].
  destruct (cops_get_curr m); auto.
Qed.

End Cops.

Lemma gsmi_parse_cops_numeric_roundtrip_witness :
  data_num (curr_operator (snd (gsmi_parse_cops (hdr := sample_hdr)
     (lit "+COPS: 0,2," ++ QUOTE :: lit "26201" ++ [QUOTE; CR; LF])
     blank_gsm))) = 26201.
Proof.
  apply (gsmi_parse_cops_numeric_roundtrip (hdr := sample_hdr) true true 0
           26201 blank_gsm).
  - repeat split; (reflexivity || discriminate).
  - lia.
  - lia.
Defined.

(** ** List entries: [gsmi_parse_cpbr], [gsmi_parse_cpbf], [gsmi_parse_cmgl] *)

Section Entries.
Context {hdr : gsm_hdr}.

Lemma one_entry_written_alter {A : Type} (f : A -> A) (i : nat) (l : list A) :
  one_entry_written f i l (alter f i l).
Proof.
  repeat split.
  - apply length_alter.
  - apply list_lookup_alter_eq.
  - intros j Hj. apply list_lookup_alter_ne. congruence.
Qed.

Lemma pb_store_stored (str : cstr) (l : pb_list_t) :
  pb_line_stored str l (pb_store str l).
Proof.
  unfold pb_line_stored, pb_store. simpl.
  repeat split; try apply one_entry_written_alter.
Qed.

(** The guard of a list parser, read off the hypothesis that the parser
    declines or accepts. *)
Ltac guard_declines H :=
  apply andb_false_iff in H; destruct H as [H | H];
  [ now rewrite H
  | apply Nat.ltb_ge, Nat.leb_le in H; now rewrite H, orb_true_r ].

Ltac guard_accepts H :=
  let H1 := fresh in
  let H2 := fresh in
  apply andb_true_iff in H as [H1 H2];
  apply Nat.ltb_lt, Nat.leb_gt in H2; rewrite H1, H2; simpl.

(** C1, as amended: each of [gsmi_parse_cpbr], [gsmi_parse_cpbf] and
    [gsmi_parse_cmgl] returns 0 and leaves everything, entries and write
    cursor included, as it was when no message of its kind is active or
    the write cursor has reached the declared number of entries.
    Otherwise it returns 1 and writes exactly one entry, the one at the
    write cursor; [gsmi_parse_cpbr] and [gsmi_parse_cpbf] then move the
    cursor on by one and publish it, while [gsmi_parse_cmgl] leaves the
    cursor where it is. *)
Theorem list_entry_parsers (str : cstr) (g : gsm_t) :
  (cpbr_accepts g = false -> gsmi_parse_cpbr str g = (0, g))
  /\ (cpbf_accepts g = false -> gsmi_parse_cpbf str g = (0, g))
  /\ (cmgl_accepts g = false -> gsmi_parse_cmgl str g = (0, g))
  /\ (cpbr_accepts g = true ->
      exists m l', msg g = Some m
        /\ gsmi_parse_cpbr str g = (1, set_msg (Some (set_pb_list l' m)) g)
        /\ pb_line_stored str (pb_list m) l')
  /\ (cpbf_accepts g = true ->
      exists m l', msg g = Some m
        /\ gsmi_parse_cpbf str g = (1, set_msg (Some (set_pb_search l' m)) g)
        /\ pb_line_stored str (pb_search m) l')
  /\ (cmgl_accepts g = true ->
      exists m l', msg g = Some m
        /\ gsmi_parse_cmgl str g = (1, set_msg (Some (set_sms_list l' m)) g)
        /\ sms_line_stored str (sl_ei (sms_list m)) (sms_list m) l').
Proof.
  unfold cpbr_accepts, cpbf_accepts, cmgl_accepts,
    gsmi_parse_cpbr, gsmi_parse_cpbf, gsmi_parse_cmgl.
  destruct (msg g) as [m|]; [|repeat split; intros; (reflexivity || discriminate)].
  repeat split; intros H.
  - guard_declines H.
  - guard_declines H.
  - guard_declines H.
  - guard_accepts H.
    exists m, (pb_store str (pb_list m)).
    repeat split; apply pb_store_stored.
  - guard_accepts H.
    exists m, (pb_store str (pb_search m)).
    repeat split; apply pb_store_stored.
  - guard_accepts H.
    eexists m, _. split; [reflexivity|]. split; [reflexivity|].
    repeat split. all: apply one_entry_written_alter.
Qed.

End Entries.

Lemma list_entry_parsers_witness :
  gsmi_parse_cpbr (hdr := sample_hdr) cpbr_line blank_gsm = (0, blank_gsm)
  /\ fst (gsmi_parse_cpbr (hdr := sample_hdr) cpbr_line
            (gsm_with_cmd GSM_CMD_CPBR 2)) = 1
  /\ fst (gsmi_parse_cmgl (hdr := sample_hdr) cmgl_line
            (gsm_with_cmd GSM_CMD_CMGL 2)) = 1.
Proof.
  split; [|split].
  - apply (list_entry_parsers (hdr := sample_hdr) cpbr_line blank_gsm).
    reflexivity.
  - destruct (list_entry_parsers (hdr := sample_hdr) cpbr_line
                (gsm_with_cmd GSM_CMD_CPBR 2)) as (_ & _ & _ & H & _).
    destruct (H eq_refl) as (m & l' & _ & E & _).
    rewrite E. reflexivity.
  - destruct (list_entry_parsers (hdr := sample_hdr) cmgl_line
                (gsm_with_cmd GSM_CMD_CMGL 2)) as (_ & _ & _ & _ & _ & H).
    destruct (H eq_refl) as (m & l' & _ & E & _).
    rewrite E. reflexivity.
Defined.

Example gsmi_parse_cpbr_stores :
  pb_list <$> msg (snd (gsmi_parse_cpbr (hdr := sample_hdr) cpbr_line
                          (gsm_with_cmd GSM_CMD_CPBR 2)))
  = Some {| entries :=
              [ {| pb_pos := 1;
                   pb_name := lit "Home" ++ repeat NUL 16;
                   pb_type := 129;
                   pb_number := lit "+38640123456" ++ repeat NUL 14 |};
                blank_pb_entry ];
            etr := 2; ei := 1; er := Some 1%nat |}.
Proof. vm_compute. reflexivity. Qed.

Example gsmi_parse_cmgl_stores :
  sms_list <$> msg (snd (gsmi_parse_cmgl (hdr := sample_hdr) cmgl_line
                           (gsm_with_cmd GSM_CMD_CMGL 2)))
  = Some {| sl_mem := 0;
            sl_entries :=
              [ {| sms_mem := 0; sms_pos := 3;
                   sms_datetime :=
                     {| date := 18; month := 3; year := 2021; day := 0;
                        hours := 10; minutes := 15; seconds := 30 |};
                   sms_status := GSM_SMS_STATUS_READ;
                   sms_number := lit "+38640123456" ++ repeat NUL 14;
                   sms_name := repeat NUL 20 |};
                blank_sms_entry ];
            sl_etr := 2; sl_ei := 0; sl_er := Some 0%nat |}.
Proof. vm_compute. reflexivity. Qed.

(** C1, as the spec words it, fails for [gsmi_parse_cmgl]: an accepted
    line leaves the write cursor where it was. *)
Lemma list_entry_parsers_counterexample :
  ~ cmgl_advances (hdr := sample_hdr) cmgl_line (gsm_with_cmd GSM_CMD_CMGL 2).
Proof.
  intros H.
  destruct (H eq_refl) as (m & m' & Em & Em' & _ & _ & Hei & _).
  vm_compute in Em, Em'.
  injection Em as <-. injection Em' as <-.
  discriminate Hei.
Qed.

(** ** [gsmi_parse_memory], [gsmi_parse_memories_string], [gsmi_parse_cpms] *)

Lemma string_loop_skip_length (p : cstr) (n i : nat) (trim : bool) :
  (length (fst (fst (string_loop p None n i trim))) <= length p)%nat.
Proof.
  induction p as [|c p IH]; simpl; [lia|].
  repeat case_match; simpl; lia.
Qed.

(** On a character that is not the terminator the skipping loop moves. *)
Lemma string_loop_skip_progress (c : ascii) (p : cstr) (n i : nat)
    (trim : bool) :
  c <> NUL ->
  (length (fst (fst (string_loop (c :: p) None n i trim))) <= length p)%nat.
Proof.
  intros Hc. simpl.
  destruct (Ascii.eqb_spec c NUL); [contradiction|].
  destruct (_ && _); simpl; [lia | apply string_loop_skip_length].
Qed.

Lemma parse_string_skip_cursor (src : cstr) (n : nat) (trim : bool) :
  snd (fst (gsmi_parse_string src None n trim))
  = fst (fst (string_loop (skip_char QUOTE (skip_char "," src)) None
                (if (n =? 0)%nat then n else (n - 1)%nat) 0 trim)).
Proof.
  unfold gsmi_parse_string.
  now destruct (string_loop _ _ _ _ _) as [[p d] i].
Qed.

Lemma parse_string_skip_length (src : cstr) (n : nat) (trim : bool) :
  (length (snd (fst (gsmi_parse_string src None n trim))) <= length src)%nat.
Proof.
  rewrite parse_string_skip_cursor.
  pose proof (string_loop_skip_length (skip_char QUOTE (skip_char "," src))
                (if (n =? 0)%nat then n else (n - 1)%nat) 0 trim).
  pose proof (skip_char_length QUOTE (skip_char "," src)).
  pose proof (skip_char_length "," src). lia.
Qed.

Lemma parse_string_skip_progress (c : ascii) (p : cstr) (n : nat)
    (trim : bool) :
  c <> NUL ->
  (length (snd (fst (gsmi_parse_string (c :: p) None n trim))) <= length p)%nat.
Proof.
  intros Hc. rewrite parse_string_skip_cursor.
  unfold skip_char at 2. simpl deref.
  destruct (c =? ",")%char; simpl next.
  - pose proof (string_loop_skip_length (skip_char QUOTE p)
                  (if (n =? 0)%nat then n else (n - 1)%nat) 0 trim).
    pose proof (skip_char_length QUOTE p). lia.
  - unfold skip_char. simpl deref.
    destruct (c =? QUOTE)%char; simpl next.
    + apply string_loop_skip_length.
    + now apply string_loop_skip_progress.
Qed.

Section Memories.
Context {hdr : gsm_hdr}.

Lemma mem_scan_cases (s : cstr) (map : list gsm_dev_mem_map_t) (mem0 : Z) :
  mem_scan s map mem0 = (mem0, s)
  \/ exists e, In e map
       /\ mem_scan s map mem0 = (mem_id e, advance (strlen (mem_str e)) s).
Proof.
  induction map as [|e map IH]; simpl; [now left|].
  destruct (strncmp_eq s (mem_str e) (strlen (mem_str e))).
  - right. exists e. auto.
  - destruct IH as [IH | (e' & Hin & IH)]; [now left|].
    right. exists e'. auto.
Qed.

Lemma mem_scan_nil (map : list gsm_dev_mem_map_t) (mem0 : Z) :
  Forall (fun e => strlen (mem_str e) <> 0%nat) map ->
  mem_scan [] map mem0 = (mem0, []).
Proof.
  induction 1 as [|e map He _ IH]; simpl; [reflexivity|].
  destruct (mem_str e) as [|c t]; simpl in *; [congruence|].
  destruct (c =? NUL)%char eqn:Ec; [congruence|].
  simpl. rewrite Ascii.eqb_sym, Ec. apply IH.
Qed.

Lemma advance_length (n : nat) (c : ascii) (p : cstr) :
  n <> 0%nat -> (length (advance n (c :: p)) <= length p)%nat.
Proof.
  intros Hn. unfold advance. rewrite length_drop. simpl. lia.
Qed.

Lemma gsmi_parse_memory_after_skip (src : cstr) :
  gsmi_parse_memory src
  = memory_after_skip (skip_char QUOTE (skip_char "," src)).
Proof. reflexivity. Qed.

Lemma memory_after_skip_length (s : cstr) :
  (length (snd (memory_after_skip s)) <= length s)%nat.
Proof.
  unfold memory_after_skip.
  destruct (mem_scan_cases s gsm_dev_mem_map GSM_MEM_UNKNOWN)
    as [-> | (e & _ & ->)].
  - rewrite Z.eqb_refl. simpl.
    pose proof (skip_char_length QUOTE
                  (snd (fst (gsmi_parse_string s None 0 true)))).
    pose proof (parse_string_skip_length s 0 true). lia.
  - assert (H3 : (length (advance (strlen (mem_str e)) s) <= length s)%nat).
    { unfold advance. rewrite length_drop. lia. }
    destruct (mem_id e =? GSM_MEM_UNKNOWN); simpl.
    + pose proof (skip_char_length QUOTE
                    (snd (fst (gsmi_parse_string
                                 (advance (strlen (mem_str e)) s) None 0 true)))).
      pose proof (parse_string_skip_length
                    (advance (strlen (mem_str e)) s) 0 true). lia.
    + pose proof (skip_char_length QUOTE (advance (strlen (mem_str e)) s)).
      lia.
Qed.

Lemma memory_after_skip_progress (c : ascii) (p : cstr) :
  mem_map_ok -> c <> NUL ->
  (length (snd (memory_after_skip (c :: p))) <= length p)%nat.
Proof.
  intros [Hmap _] Hc. unfold memory_after_skip.
  destruct (mem_scan_cases (c :: p) gsm_dev_mem_map GSM_MEM_UNKNOWN)
    as [-> | (e & Hin & ->)].
  - rewrite Z.eqb_refl. simpl.
    pose proof (skip_char_length QUOTE
                  (snd (fst (gsmi_parse_string (c :: p) None 0 true)))).
    pose proof (parse_string_skip_progress c p 0 true Hc). lia.
  - apply (proj1 (List.Forall_forall _ _) Hmap) in Hin as [Hlen _].
    pose proof (advance_length _ c p Hlen) as H3.
    destruct (mem_id e =? GSM_MEM_UNKNOWN); simpl.
    + pose proof (skip_char_length QUOTE
                    (snd (fst (gsmi_parse_string
                                 (advance (strlen (mem_str e)) (c :: p))
                                 None 0 true)))).
      pose proof (parse_string_skip_length
                    (advance (strlen (mem_str e)) (c :: p)) 0 true). lia.
    + pose proof (skip_char_length QUOTE
                    (advance (strlen (mem_str e)) (c :: p))).
      lia.
Qed.

Lemma gsmi_parse_memory_length (src : cstr) :
  (length (snd (gsmi_parse_memory src)) <= length src)%nat.
Proof.
  rewrite gsmi_parse_memory_after_skip.
  pose proof (memory_after_skip_length (skip_char QUOTE (skip_char "," src))).
  pose proof (skip_char_length QUOTE (skip_char "," src)).
  pose proof (skip_char_length "," src). lia.
Qed.

(** With the table as required, a call on a character that is not the
    terminator leaves a shorter input. *)
Lemma gsmi_parse_memory_progress (c : ascii) (p : cstr) :
  mem_map_ok -> c <> NUL ->
  (length (snd (gsmi_parse_memory (c :: p))) <= length p)%nat.
Proof.
  intros Hok Hc. rewrite gsmi_parse_memory_after_skip.
  unfold skip_char at 2. simpl deref.
  destruct (c =? ",")%char; simpl next.
  - pose proof (memory_after_skip_length (skip_char QUOTE p)).
    pose proof (skip_char_length QUOTE p). lia.
  - unfold skip_char. simpl deref.
    destruct (c =? QUOTE)%char; simpl next.
    + apply memory_after_skip_length.
    + now apply memory_after_skip_progress.
Qed.

(** The identifier a call returns is the unknown one or one of the table. *)
Lemma gsmi_parse_memory_id (src : cstr) :
  fst (gsmi_parse_memory src) = GSM_MEM_UNKNOWN
  \/ exists e, In e gsm_dev_mem_map /\ fst (gsmi_parse_memory src) = mem_id e.
Proof.
  rewrite gsmi_parse_memory_after_skip. unfold memory_after_skip.
  destruct (mem_scan_cases (skip_char QUOTE (skip_char "," src))
              gsm_dev_mem_map GSM_MEM_UNKNOWN) as [-> | (e & Hin & ->)].
  - now left.
  - right. now exists e.
Qed.

Lemma gsmi_parse_memory_nil :
  mem_map_ok -> gsmi_parse_memory [] = (GSM_MEM_UNKNOWN, []).
Proof.
  intros [Hmap _]. rewrite gsmi_parse_memory_after_skip.
  unfold memory_after_skip.
  change (skip_char QUOTE (skip_char "," [])) with (@nil ascii).
  rewrite mem_scan_nil.
  - now rewrite Z.eqb_refl.
  - eapply Forall_impl; [exact Hmap|]. now intros e [H _].
Qed.

Lemma mem_bit_set (mem : Z) :
  0 <= mem < 32 -> Z.testbit (mem_bit mem) mem = true.
Proof.
  intros Hm. unfold mem_bit, GSM_U32.
  rewrite (Z.mod_small mem) by lia.
  rewrite Z.shiftl_1_l.
  rewrite Z.mod_small.
  - apply Z.pow2_bits_true. lia.
  - split; [apply Z.pow_nonneg; lia|].
    apply Z.pow_lt_mono_r; lia.
Qed.

Lemma some_bit_set_lor (mask mem : Z) :
  0 <= mem < 32 -> some_bit_set (Z.lor mask (mem_bit mem)).
Proof.
  intros Hm. exists mem. split; [assumption|].
  rewrite Z.lor_spec, mem_bit_set by assumption. apply orb_true_r.
Qed.

Lemma gsmi_parse_memory_bit (src : cstr) (mask : Z) :
  mem_map_ok ->
  some_bit_set (Z.lor mask (mem_bit (fst (gsmi_parse_memory src)))).
Proof.
  intros [Hmap Hunk].
  destruct (gsmi_parse_memory_id src) as [-> | (e & Hin & ->)].
  - now apply some_bit_set_lor.
  - apply (proj1 (List.Forall_forall _ _) Hmap) in Hin as [_ Hid].
    now apply some_bit_set_lor.
Qed.

(** The loop comes to an end within the fuel it is given, with some bit of
    the mask set. *)
Lemma memories_loop_returns (fuel : nat) (str : cstr) (mask : Z) :
  mem_map_ok ->
  (length str < fuel)%nat
  \/ ((length str <= fuel)%nat /\ deref str <> NUL) ->
  exists str' mask',
    memories_loop fuel str mask = Some (str', mask') /\ some_bit_set mask'.
Proof.
  intros Hok. revert str mask.
  induction fuel as [|fuel IH]; intros str mask Hfuel.
  - destruct Hfuel as [Hlt | [Hle Hne]]; [lia|].
    destruct str; [now destruct Hne | simpl in Hle; lia].
  - simpl.
    pose proof (gsmi_parse_memory_length str) as Hlen.
    pose proof (gsmi_parse_memory_bit str mask Hok) as Hbit.
    assert (Hnext : (length (snd (gsmi_parse_memory str)) <= fuel)%nat).
    { destruct Hfuel as [Hlt | [Hle Hne]]; [lia|].
      destruct str as [|c p]; [now destruct Hne|].
      pose proof (gsmi_parse_memory_progress c p Hok Hne). simpl in Hle. lia. }
    destruct (gsmi_parse_memory str) as [mem str1]. simpl in *.
    destruct (Ascii.eqb_spec (deref str1) NUL) as [Hnul | Hnn]; simpl.
    + eauto.
    + destruct (deref str1 =? ")")%char; simpl; [eauto|].
      apply IH. right. auto.
Qed.

End Memories.

Section Cpms.
Context {hdr : gsm_hdr}.

Lemma gsmi_parse_memories_string_some (src : cstr) :
  mem_map_ok ->
  exists p mask,
    gsmi_parse_memories_string src = Some (1, p, mask) /\ some_bit_set mask.
Proof.
  intros Hok. unfold gsmi_parse_memories_string.
  destruct (memories_loop_returns
              (S (length (skip_char "(" (skip_char "," src))))
              (skip_char "(" (skip_char "," src)) 0 Hok)
    as (str' & mask' & -> & Hbit); [left; lia|].
  eauto.
Qed.

(** The loop of the capability shape never leaves through its
    [return 0]. *)
Lemma cpms_opt_loop_completes (idx : list nat) (str : cstr) (g : gsm_t) :
  mem_map_ok -> exists g', cpms_opt_loop idx str g = Some (true, g').
Proof.
  intros Hok. revert str g.
  induction idx as [|i idx IH]; intros str g; simpl; [eauto|].
  destruct (gsmi_parse_memories_string_some str Hok) as (p & mask & -> & _).
  simpl. apply IH.
Qed.

(** C10: with a device memory table whose literals are not empty and
    whose identifiers, the unknown one included, are bit numbers below 32,
    [gsmi_parse_memories_string] returns 1 on every input with at least
    one bit of the mask set (on the empty input it is the bit of the
    unknown memory, from the one pass the do-while loop always makes);
    hence the loop of the capability shape of [gsmi_parse_cpms] never takes
    its [return 0], and [gsmi_parse_cpms] returns 1 for every input and
    every option value. *)
Theorem gsmi_parse_cpms_returns (src str : cstr) (opt : Z) (g : gsm_t)
    (idx : list nat) :
  mem_map_ok ->
  (exists p mask,
     gsmi_parse_memories_string src = Some (1, p, mask) /\ some_bit_set mask)
  /\ gsmi_parse_memories_string [] = Some (1, [], mem_bit GSM_MEM_UNKNOWN)
  /\ (exists g', cpms_opt_loop idx str g = Some (true, g'))
  /\ (exists g', gsmi_parse_cpms str opt g = Some (1, g')).
Proof.
  intros Hok. repeat split.
  - now apply gsmi_parse_memories_string_some.
  - unfold gsmi_parse_memories_string.
    change (skip_char "(" (skip_char "," [])) with (@nil ascii).
    simpl. now rewrite gsmi_parse_memory_nil.
  - now apply cpms_opt_loop_completes.
  - unfold gsmi_parse_cpms.
    destruct (opt =? 0).
    + destruct (cpms_opt_loop_completes [0; 1; 2]%nat (skip_keyword str) g Hok)
        as (g' & ->).
      eauto.
    + destruct (opt =? 1); [eauto|].
      destruct (opt =? 2); eauto.
Qed.

End Cpms.

Lemma gsmi_parse_cpms_returns_witness :
  exists g', gsmi_parse_cpms (hdr := sample_hdr) cpms_opt_line 0
               gsm_three_pools = Some (1, g').
Proof.
  apply (gsmi_parse_cpms_returns (hdr := sample_hdr) [] cpms_opt_line 0
           gsm_three_pools []).
  split; [|simpl; lia].
  repeat constructor; simpl; (discriminate || lia).
Defined.

Example gsmi_parse_cpms_masks :
  (fun r => map mem_available (sms_mems (snd r)))
    <$> gsmi_parse_cpms (hdr := sample_hdr) cpms_opt_line 0 gsm_three_pools
  = Some [3; 1; 2 ^ 31].
Proof. vm_compute. reflexivity. Qed.

(** * Further properties *)

(** ** Cursors only move forward *)

Lemma next_suffix (p : cstr) : next p `suffix_of` p.
Proof. destruct p; simpl; [reflexivity | now apply suffix_cons_r]. Qed.

Lemma skip_char_suffix (c : ascii) (p : cstr) : skip_char c p `suffix_of` p.
Proof. unfold skip_char. destruct (_ =? _)%char; [apply next_suffix | reflexivity]. Qed.

Lemma number_loop_suffix (p : cstr) (v : Z) :
  snd (number_loop p v) `suffix_of` p.
Proof.
  revert v. induction p as [|c p IH]; intros v; simpl; [reflexivity|].
  destruct (GSM_CHARISNUM c); simpl; [|reflexivity].
  now apply suffix_cons_r.
Qed.

Lemma hexnumber_loop_suffix (p : cstr) (v : Z) :
  snd (hexnumber_loop p v) `suffix_of` p.
Proof.
  revert v. induction p as [|c p IH]; intros v; simpl; [reflexivity|].
  destruct (GSM_CHARISHEXNUM c); simpl; [|reflexivity].
  now apply suffix_cons_r.
Qed.

Lemma string_loop_suffix (p : cstr) (dst : option (list ascii)) (n i : nat)
    (trim : bool) :
  fst (fst (string_loop p dst n i trim)) `suffix_of` p.
Proof.
  revert dst i. induction p as [|c p IH]; intros dst i; simpl; [reflexivity|].
  destruct (c =? NUL)%char; [reflexivity|].
  destruct (_ && _); simpl; [now apply suffix_cons_r|].
  destruct dst as [d|]; [|now apply suffix_cons_r].
  destruct (i <? n)%nat; [now apply suffix_cons_r|].
  destruct trim; simpl; [now apply suffix_cons_r | reflexivity].
Qed.

(** Chains of skips and loops: each step is a suffix of the one before. *)
Ltac suffix_chain :=
  repeat first
    [ reflexivity
    | assumption
    | match goal with
      | |- skip_char _ ?p `suffix_of` _ =>
          transitivity p; [apply skip_char_suffix|]
      | |- next ?p `suffix_of` _ =>
          transitivity p; [apply next_suffix|]
      | |- snd (number_loop ?p _) `suffix_of` _ =>
          transitivity p; [apply number_loop_suffix|]
      | |- snd (hexnumber_loop ?p _) `suffix_of` _ =>
          transitivity p; [apply hexnumber_loop_suffix|]
      | |- fst (fst (string_loop ?p _ _ _ _)) `suffix_of` _ =>
          transitivity p; [apply string_loop_suffix|]
      end ].

Lemma gsmi_parse_number_suffix (str : cstr) :
  snd (gsmi_parse_number str) `suffix_of` str.
Proof.
  unfold gsmi_parse_number.
  set (p6 := skip_char "+" _).
  assert (H6 : p6 `suffix_of` str) by (subst p6; suffix_chain).
  destruct (deref p6 =? "-")%char.
  - pose proof (number_loop_suffix (next p6) 0) as H.
    destruct (number_loop (next p6) 0) as [v p]. simpl in *.
    transitivity p6; [|assumption].
    transitivity p; [apply skip_char_suffix|].
    transitivity (next p6); [assumption | apply next_suffix].
  - pose proof (number_loop_suffix p6 0) as H.
    destruct (number_loop p6 0) as [v p]. simpl in *.
    transitivity p; [apply skip_char_suffix|]. now transitivity p6.
Qed.

Lemma gsmi_parse_hexnumber_suffix (str : cstr) :
  snd (gsmi_parse_hexnumber str) `suffix_of` str.
Proof.
  unfold gsmi_parse_hexnumber.
  set (p3 := skip_char QUOTE _).
  assert (H3 : p3 `suffix_of` str) by (subst p3; suffix_chain).
  pose proof (hexnumber_loop_suffix p3 0) as H.
  destruct (hexnumber_loop p3 0) as [v p]. simpl in *.
  transitivity p; [apply skip_char_suffix|]. now transitivity p3.
Qed.

Lemma gsmi_parse_string_suffix (src : cstr) (dst : option (list ascii))
    (dst_len : nat) (trim : bool) :
  snd (fst (gsmi_parse_string src dst dst_len trim)) `suffix_of` src.
Proof.
  unfold gsmi_parse_string.
  set (n := if (dst_len =? 0)%nat then _ else _).
  pose proof (string_loop_suffix (skip_char QUOTE (skip_char "," src)) dst n 0 trim) as H.
  destruct (string_loop _ _ _ _ _) as [[p d] i]. simpl in *.
  transitivity (skip_char QUOTE (skip_char "," src)); [assumption|].
  suffix_chain.
Qed.

Lemma gsmi_check_and_trim_suffix (src : cstr) :
  gsmi_check_and_trim src `suffix_of` src.
Proof.
  unfold gsmi_check_and_trim.
  destruct (_ && _); [apply gsmi_parse_string_suffix | reflexivity].
Qed.

(** X1: the token scanners never move the cursor backwards: whatever the
    input (and, for [gsmi_parse_string], whatever the destination, its
    declared length and the trim flag), the cursor that
    [gsmi_parse_number], [gsmi_parse_hexnumber], [gsmi_parse_string] and
    [gsmi_check_and_trim] leave is a suffix of the cursor they were given. *)
Theorem token_scanners_forward (src : cstr) (dst : option (list ascii))
    (dst_len : nat) (trim : bool) :
  snd (gsmi_parse_number src) `suffix_of` src
  /\ snd (gsmi_parse_hexnumber src) `suffix_of` src
  /\ snd (fst (gsmi_parse_string src dst dst_len trim)) `suffix_of` src
  /\ gsmi_check_and_trim src `suffix_of` src.
Proof.
  repeat split.
  - apply gsmi_parse_number_suffix.
  - apply gsmi_parse_hexnumber_suffix.
  - apply gsmi_parse_string_suffix.
  - apply gsmi_check_and_trim_suffix.
Qed.

(** ** What [gsmi_parse_string] stores *)

Lemma c_str_app_nul (w t : list ascii) :
  Forall (fun c => c <> NUL) w -> c_str (w ++ NUL :: t) = w.
Proof.
  induction 1 as [|c w Hc _ IH]; simpl; [reflexivity|].
  destruct (Ascii.eqb_spec c NUL); [contradiction | now rewrite IH].
Qed.

Lemma c_str_length_le (d : list ascii) (k : nat) :
  d !! k = Some NUL -> (length (c_str d) <= k)%nat.
Proof.
  revert k. induction d as [|c d IH]; intros k Hk; [discriminate|].
  simpl. destruct (Ascii.eqb_spec c NUL) as [-> | Hc]; simpl; [lia|].
  destruct k as [|k]; simpl in Hk; [congruence|].
  apply IH in Hk. lia.
Qed.

Lemma string_loop_dst_length (p : cstr) (d : list ascii) (n i : nat)
    (trim : bool) :
  exists d', snd (fst (string_loop p (Some d) n i trim)) = Some d'
             /\ length d' = length d.
Proof.
  revert d i. induction p as [|c p IH]; intros d i; simpl; [eauto|].
  destruct (c =? NUL)%char; [eauto|].
  destruct (_ && _); [eauto|].
  destruct (i <? n)%nat.
  - destruct (IH (<[i := c]> d) (S i)) as (d' & -> & Hlen).
    exists d'. now rewrite Hlen, length_insert.
  - destruct trim; simpl; [apply IH | eauto].
Qed.

(** X2: with a declared length of at least 1 that the destination really
    has, [gsmi_parse_string] always leaves a NUL-terminated string of at
    most [dst_len - 1] characters in the destination, whatever the input
    and the trim flag, keeps the size of the destination and leaves every
    byte from offset [dst_len] on as it was. *)
Theorem gsmi_parse_string_terminated (src : cstr) (d : list ascii)
    (dst_len : nat) (trim : bool) :
  (1 <= dst_len <= length d)%nat ->
  exists d',
    snd (gsmi_parse_string src (Some d) dst_len trim) = Some d'
    /\ (length (c_str d') <= dst_len - 1)%nat
    /\ length d' = length d
    /\ forall j : nat, (dst_len <= j)%nat -> d' !! j = d !! j.
Proof.
  intros [Hlo Hhi]. unfold gsmi_parse_string.
  destruct (Nat.eqb_spec dst_len 0) as [-> | _]; [lia|].
  set (p0 := skip_char QUOTE (skip_char "," src)).
  destruct (string_loop_frame p0 d (dst_len - 1) 0 trim)
    as (p' & d1 & i' & E & _ & Hi & Hframe).
  destruct (string_loop_dst_length p0 d (dst_len - 1) 0 trim) as (d2 & E2 & Hlen).
  rewrite E in E2 |- *. simpl in E2. injection E2 as <-. simpl.
  specialize (Hi ltac:(lia)).
  eexists. split; [reflexivity|]. repeat split.
  - enough (length (c_str (<[i' := NUL]> d1)) <= i')%nat by lia.
    apply c_str_length_le, list_lookup_insert_eq. lia.
  - now rewrite length_insert.
  - intros j Hj. rewrite list_lookup_insert_ne by lia. apply Hframe. lia.
Qed.

Lemma gsmi_parse_string_terminated_witness :
  exists d',
    snd (gsmi_parse_string (lit "abcdefgh") (Some (repeat "x"%char 6)) 4 true)
    = Some d'
    /\ (length (c_str d') <= 3)%nat.
Proof.
  destruct (gsmi_parse_string_terminated (lit "abcdefgh") (repeat "x"%char 6)
              4 true) as (d' & E & H & _).
  - simpl. lia.
  - exists d'. split; assumption.
Defined.

Lemma plain_text_no_nul (body : cstr) :
  plain_text body -> Forall (fun c => c <> NUL) body.
Proof. unfold plain_text. apply List.Forall_impl. now intros c [H _]. Qed.

Lemma take_S_insert (d : list ascii) (i : nat) (c : ascii) :
  (i < length d)%nat -> take (S i) (<[i := c]> d) = take i d ++ [c].
Proof.
  revert i. induction d as [|a d IH]; intros i Hi; simpl in Hi; [lia|].
  destruct i as [|i]; simpl; [now rewrite take_0|].
  f_equal. apply IH. lia.
Qed.

Lemma string_loop_field (body : cstr) (delim : ascii) (rest : cstr)
    (d : list ascii) (n i : nat) (trim : bool) :
  plain_text body ->
  is_field_end delim = true ->
  (i <= n <= length d)%nat ->
  string_loop (body ++ QUOTE :: delim :: rest) (Some d) n i trim
  = ((if trim || (length body <=? n - i)%nat then delim :: rest
      else drop (n - i) body ++ QUOTE :: delim :: rest),
     Some (take i d ++ take (n - i) body
           ++ drop (i + length (take (n - i) body)) d),
     (i + length (take (n - i) body))%nat).
Proof.
  intros Hbody Hdelim. revert d i.
  induction Hbody as [|c body [Hc Hq] _ IH]; intros d i Hi.
  - simpl. rewrite Hdelim. simpl.
    rewrite take_nil, orb_true_r. simpl.
    now rewrite Nat.add_0_r, take_drop.
  - cbn [app string_loop].
    apply Ascii.eqb_neq in Hc, Hq. rewrite Hc, Hq. simpl andb. cbv iota.
    destruct (Nat.ltb_spec i n) as [Hlt | Hge].
    + rewrite IH by (rewrite length_insert; lia).
      replace (n - i)%nat with (S (n - S i)) by lia.
      cbn [take drop length].
      replace (length body <=? n - S i)%nat
        with (S (length body) <=? S (n - S i))%nat by reflexivity.
      rewrite take_S_insert by lia.
      rewrite drop_insert_lt by lia.
      rewrite <- app_assoc. simpl.
      repeat f_equal; lia.
    + assert (n = i) as -> by lia. rewrite Nat.sub_diag in *.
      destruct trim; simpl.
      * rewrite IH by lia. rewrite Nat.sub_diag, take_0. reflexivity.
      * now rewrite Nat.add_0_r, take_drop.
Qed.

Lemma overwrite_c_str (w d : list ascii) :
  Forall (fun c => c <> NUL) w ->
  (length w < length d)%nat ->
  c_str (<[length w := NUL]> (take 0 d ++ w ++ drop (0 + length w) d)) = w.
Proof.
  intros Hw Hlen. rewrite take_0. simpl.
  replace (length w) with (length w + 0)%nat at 1 by lia.
  rewrite insert_app_r.
  destruct (drop (length w) d) as [|a t] eqn:E.
  - apply (f_equal length) in E. rewrite length_drop in E. simpl in E. lia.
  - simpl. now apply c_str_app_nul.
Qed.

Lemma gsmi_parse_string_quoted (comma trim : bool) (body : cstr)
    (delim : ascii) (rest : cstr) (d : list ascii) (dst_len : nat) :
  plain_text body ->
  is_field_end delim = true ->
  (1 <= dst_len <= length d)%nat ->
  exists d',
    gsmi_parse_string (quoted_field comma body delim rest) (Some d) dst_len trim
    = (1,
       (if trim || (length body <? dst_len)%nat then delim :: rest
        else drop (dst_len - 1) body ++ QUOTE :: delim :: rest),
       Some d')
    /\ c_str d' = take (dst_len - 1) body
    /\ length d' = length d.
Proof.
  intros Hbody Hdelim [Hlo Hhi].
  unfold gsmi_parse_string, quoted_field.
  assert (Hskip : skip_char QUOTE (skip_char ","
                    (opt_char comma "," ++ QUOTE :: body ++ QUOTE :: delim :: rest))
                  = body ++ QUOTE :: delim :: rest).
  { destruct comma; reflexivity. }
  rewrite Hskip.
  destruct (Nat.eqb_spec dst_len 0) as [-> | _]; [lia|].
  rewrite string_loop_field by (assumption || lia).
  rewrite Nat.sub_0_r. simpl plus.
  replace (length body <=? dst_len - 1)%nat with (length body <? dst_len)%nat
    by (destruct (Nat.ltb_spec (length body) dst_len),
                 (Nat.leb_spec (length body) (dst_len - 1)); (reflexivity || lia)).
  assert (Hw : (length (take (dst_len - 1) body) < length d)%nat)
    by (rewrite length_take; lia).
  eexists. split; [reflexivity|]. split.
  - apply overwrite_c_str; [|assumption].
    apply plain_text_no_nul in Hbody.
    apply Forall_take. exact Hbody.
  - rewrite length_insert, take_0. simpl.
    rewrite length_app, length_drop. lia.
Qed.

(** X3: on a quoted field (an optional comma, the opening quote, a text
    with no quote in it, the closing quote and a delimiter), with a
    declared length of at least 1 that the destination really has,
    [gsmi_parse_string] returns 1 and stores the first [dst_len - 1]
    characters of the text, NUL-terminated; the cursor is left on the
    delimiter when the text fits or trimming is on, and on the first
    character that did not fit otherwise. *)
Theorem gsmi_parse_string_field (comma trim : bool) (body : cstr)
    (delim : ascii) (rest : cstr) (d : list ascii) (dst_len : nat) :
  plain_text body ->
  is_field_end delim = true ->
  (1 <= dst_len <= length d)%nat ->
  exists d',
    gsmi_parse_string (quoted_field comma body delim rest) (Some d) dst_len trim
    = (1,
       (if trim || (length body <? dst_len)%nat then delim :: rest
        else drop (dst_len - 1) body ++ QUOTE :: delim :: rest),
       Some d')
    /\ c_str d' = take (dst_len - 1) body
    /\ length d' = length d.
Proof. apply gsmi_parse_string_quoted. Qed.

Lemma gsmi_parse_string_field_witness :
  exists d',
    gsmi_parse_string (quoted_field true (lit "Home") "," (lit "129")) (Some (repeat "x"%char 8)) 4 true
    = (1, lit ",129", Some d')
    /\ c_str d' = lit "Hom".
Proof.
  destruct (gsmi_parse_string_field true true (lit "Home") "," (lit "129")
              (repeat "x"%char 8) 4) as (d' & E & Hs & _).
  - repeat constructor; discriminate.
  - reflexivity.
  - simpl. lia.
  - exists d'. split; assumption.
Defined.

Lemma string_loop_trim_cursor (p : cstr) (d : list ascii) (n i m k : nat) :
  fst (fst (string_loop p (Some d) n i true))
  = fst (fst (string_loop p None m k true)).
Proof.
  revert d i. induction p as [|c p IH]; intros d i; simpl; [reflexivity|].
  destruct (c =? NUL)%char; [reflexivity|].
  destruct (_ && _); [reflexivity|].
  destruct (i <? n)%nat; simpl; apply IH.
Qed.

(** X4: with trimming on, where [gsmi_parse_string] leaves the cursor does
    not depend on the destination or its declared length: it is where the
    call with a NULL destination, which only skips the field, leaves it. *)
Theorem gsmi_parse_string_trim_cursor (src : cstr) (d : list ascii)
    (dst_len : nat) :
  snd (fst (gsmi_parse_string src (Some d) dst_len true))
  = snd (fst (gsmi_parse_string src None 0 true)).
Proof.
  unfold gsmi_parse_string.
  pose proof (string_loop_trim_cursor (skip_char QUOTE (skip_char "," src)) d
                (if (dst_len =? 0)%nat then dst_len else (dst_len - 1)%nat)
                0 0 0) as H.
  simpl (if (0 =? 0)%nat then _ else _).
  destruct (string_loop _ (Some d) _ _ _) as [[p1 d1] i1].
  destruct (string_loop _ None _ _ _) as [[p2 d2] i2].
  exact H.
Qed.

(** ** Hexadecimal numbers, addresses, date and time *)

Lemma int32_step16 (a d : Z) : int32 (int32 a * 16 + d) = int32 (a * 16 + d).
Proof.
  unfold int32, wrap_signed.
  f_equal.
  replace (((a + 2 ^ (32 - 1)) mod 2 ^ 32 - 2 ^ (32 - 1)) * 16 + d + 2 ^ (32 - 1))
    with ((a + 2 ^ (32 - 1)) mod 2 ^ 32 * 16 + (d + 2 ^ (32 - 1) - 16 * 2 ^ (32 - 1)))
    by lia.
  rewrite Z.add_mod by lia.
  rewrite Z.mul_mod_idemp_l by lia.
  rewrite <- Z.add_mod by lia.
  f_equal. lia.
Qed.

Lemma hex_digit_range (c : ascii) :
  is_hex_digit c -> 0 <= GSM_CHARHEXTONUM c <= 15.
Proof.
  unfold is_hex_digit, GSM_CHARISHEXNUM, GSM_CHARHEXTONUM. intros H.
  destruct (_ && _) eqn:E1.
  - apply andb_true_iff in E1 as [H1 H2]. apply Z.leb_le in H1, H2. lia.
  - destruct (_ && _) eqn:E2 in H |- *.
    + apply andb_true_iff in E2 as [H1 H2]. apply Z.leb_le in H1, H2. lia.
    + simpl in H. rewrite H.
      apply andb_true_iff in H as [H1 H2]. apply Z.leb_le in H1, H2. lia.
Qed.

Lemma hex_digit_not_skipped (c : ascii) :
  is_hex_digit c -> (c =? QUOTE)%char = false /\ (c =? ",")%char = false.
Proof.
  intros H. split; apply Ascii.eqb_neq; intros ->; discriminate H.
Qed.

Lemma hexnumber_loop_digits (hs rest : cstr) (v : Z) :
  Forall is_hex_digit hs ->
  GSM_CHARISHEXNUM (deref rest) = false ->
  hexnumber_loop (hs ++ rest) (int32 v) = (int32 (hex_acc v hs), rest).
Proof.
  intros Hhs Hrest. revert v.
  induction Hhs as [|c hs Hc _ IH]; intros v; simpl.
  - destruct rest as [|c rest]; simpl in *; [reflexivity | now rewrite Hrest].
  - rewrite Hc, int32_step16. apply IH.
Qed.

Lemma hex_acc_le (hs : cstr) (v : Z) :
  Forall is_hex_digit hs -> 0 <= v -> v <= hex_acc v hs.
Proof.
  intros Hhs. revert v.
  induction Hhs as [|c hs Hc _ IH]; intros v Hv; simpl; [lia|].
  apply hex_digit_range in Hc.
  specialize (IH (v * 16 + GSM_CHARHEXTONUM c)). lia.
Qed.

(** The scanner on a run of hex digits, with the wrap-around of the
    accumulator in place. *)
Lemma gsmi_parse_hexnumber_wrap (q1 c q2 : bool) (hs rest : cstr) :
  Forall is_hex_digit hs ->
  hs <> [] ->
  GSM_CHARISHEXNUM (deref rest) = false ->
  gsmi_parse_hexnumber
    (opt_char q1 QUOTE ++ opt_char c "," ++ opt_char q2 QUOTE ++ hs ++ rest)
  = (GSM_U32 (hex_value hs), skip_char "," rest).
Proof.
  intros Hhs Hne Hrest. unfold gsmi_parse_hexnumber.
  assert (Hskip : skip_char QUOTE (skip_char "," (skip_char QUOTE
                    (opt_char q1 QUOTE ++ opt_char c "," ++ opt_char q2 QUOTE
                     ++ hs ++ rest)))
                  = hs ++ rest).
  { assert (Hb : (deref (hs ++ rest) =? QUOTE)%char = false
                  /\ (deref (hs ++ rest) =? ",")%char = false).
    { destruct Hhs as [|h hs Hh _]; [congruence|].
      now apply hex_digit_not_skipped. }
    destruct Hb as [E1 E2]. revert E1 E2.
    generalize (hs ++ rest). intros body E1 E2.
    unfold skip_char.
    destruct q1, c, q2; simpl; rewrite ?E1, ?E2; simpl; rewrite ?E1, ?E2;
      reflexivity. }
  rewrite Hskip.
  change 0 with (int32 0) at 1.
  rewrite hexnumber_loop_digits by assumption.
  now rewrite GSM_U32_int32.
Qed.

(** X5: on an optional quote, comma and quote followed by a run of hex
    digits (either case) and a remainder that does not go on with a hex
    digit, [gsmi_parse_hexnumber] returns the value of the run in base 16
    when it is below 2^31, and leaves the cursor on the remainder, one
    comma stepped over. *)
Theorem gsmi_parse_hexnumber_exact (q1 c q2 : bool) (hs rest : cstr) :
  Forall is_hex_digit hs ->
  hs <> [] ->
  GSM_CHARISHEXNUM (deref rest) = false ->
  hex_value hs < 2 ^ 31 ->
  gsmi_parse_hexnumber
    (opt_char q1 QUOTE ++ opt_char c "," ++ opt_char q2 QUOTE ++ hs ++ rest)
  = (hex_value hs, skip_char "," rest).
Proof.
  intros Hhs Hne Hrest Hfit.
  rewrite gsmi_parse_hexnumber_wrap by assumption.
  f_equal. unfold GSM_U32. apply Z.mod_small.
  pose proof (hex_acc_le hs 0 Hhs ltac:(lia)). unfold hex_value in *. lia.
Qed.

Lemma gsmi_parse_hexnumber_exact_witness :
  gsmi_parse_hexnumber (QUOTE :: lit "1aF,next") = (431, lit "next").
Proof.
  apply (gsmi_parse_hexnumber_exact true false false (lit "1aF") (lit ",next")).
  - repeat constructor.
  - discriminate.
  - reflexivity.
  - vm_compute. reflexivity.
Defined.

Lemma GSM_U8_small (z : Z) : octet z -> GSM_U8 (int32 z) = z.
Proof.
  intros [H1 H2]. rewrite int32_small by lia.
  unfold GSM_U8. apply Z.mod_small. lia.
Qed.

Lemma digit_not_quote (c : ascii) : is_digit c -> (c =? QUOTE)%char = false.
Proof.
  intros H. apply digit_not_lead, is_lead_char_false in H. tauto.
Qed.

Lemma skip_quote_print_dec (q : bool) (n : Z) (rest : cstr) :
  0 <= n ->
  skip_char QUOTE (opt_char q QUOTE ++ print_dec n ++ rest)
  = print_dec n ++ rest.
Proof.
  intros Hn. destruct q; [apply skip_char_hit|].
  destruct (print_dec_spec n Hn) as (Hne & Hds & _).
  apply skip_char_miss, digit_not_quote. now apply digit_head.
Qed.

Lemma ip_separator_step (s : ascii) (p : cstr) :
  ip_separator s ->
  GSM_CHARISNUM (deref (s :: p)) = false
  /\ next (skip_char "," (s :: p)) = p.
Proof.
  intros [Hd Hc]. split; [exact Hd|].
  rewrite skip_char_miss; [reflexivity|].
  now apply Ascii.eqb_neq.
Qed.

(** X6: [gsmi_parse_ip] reads back a printed address: on four decimal
    numbers from 0 to 255, each two of them one character apart that is
    neither a digit nor a comma (the separator is stepped over without
    being looked at), behind an optional quote, it returns 1 with the four
    numbers in [ip->ip] and leaves the cursor after them, one comma and
    then one quote stepped over. *)
Theorem gsmi_parse_ip_roundtrip (q : bool) (a b c d : Z) (s1 s2 s3 : ascii)
    (tail : cstr) :
  octet a -> octet b -> octet c -> octet d ->
  ip_separator s1 -> ip_separator s2 -> ip_separator s3 ->
  GSM_CHARISNUM (deref tail) = false ->
  gsmi_parse_ip (ip_text q a b c d s1 s2 s3 tail)
  = (1, skip_char QUOTE (skip_char "," tail), [a; b; c; d]).
Proof.
  intros Ha Hb Hc Hd H1 H2 H3 Htail.
  unfold gsmi_parse_ip, ip_text.
  rewrite skip_quote_print_dec by apply Ha.
  destruct (ip_separator_step s1 (print_dec b ++ s2 :: print_dec c ++ s3
              :: print_dec d ++ tail) H1) as [D1 N1].
  destruct (ip_separator_step s2 (print_dec c ++ s3 :: print_dec d ++ tail) H2)
    as [D2 N2].
  destruct (ip_separator_step s3 (print_dec d ++ tail) H3) as [D3 N3].
  rewrite (gsmi_parse_number_print_plain a) by (apply Ha || exact D1).
  cbv beta iota zeta. rewrite N1.
  rewrite (gsmi_parse_number_print_plain b) by (apply Hb || exact D2).
  cbv beta iota zeta. rewrite N2.
  rewrite (gsmi_parse_number_print_plain c) by (apply Hc || exact D3).
  cbv beta iota zeta. rewrite N3.
  rewrite (gsmi_parse_number_print_plain d) by (apply Hd || exact Htail).
  cbv beta iota zeta.
  now rewrite !GSM_U8_small.
Qed.

Lemma gsmi_parse_ip_roundtrip_witness :
  gsmi_parse_ip (QUOTE :: lit "192.168.1.20" ++ QUOTE :: lit ",80")
  = (1, lit ",80", [192; 168; 1; 20]).
Proof.
  apply (gsmi_parse_ip_roundtrip true 192 168 1 20 "." "." "."
           (QUOTE :: lit ",80")).
  all: try (unfold octet; lia).
  all: try (split; [reflexivity | discriminate]).
  reflexivity.
Defined.

Lemma hex_char_spec (d : Z) :
  0 <= d <= 15 ->
  is_hex_digit (hex_char d) /\ GSM_CHARHEXTONUM (hex_char d) = d.
Proof.
  intros H.
  assert (E : d = 0 \/ d = 1 \/ d = 2 \/ d = 3 \/ d = 4 \/ d = 5 \/ d = 6
              \/ d = 7 \/ d = 8 \/ d = 9 \/ d = 10 \/ d = 11 \/ d = 12
              \/ d = 13 \/ d = 14 \/ d = 15) by lia.
  repeat (destruct E as [-> | E]); try subst d; split; reflexivity.
Qed.

Lemma print_hex_byte_spec (b : Z) :
  octet b ->
  Forall is_hex_digit (print_hex_byte b) /\ hex_value (print_hex_byte b) = b.
Proof.
  intros [H1 H2].
  pose proof (Z.mod_pos_bound b 16 ltac:(lia)) as Hm.
  pose proof (Z.div_mod b 16 ltac:(lia)) as Hdm.
  assert (Hq : 0 <= b / 16 <= 15).
  { split; [apply Z.div_pos; lia|].
    apply Z.lt_succ_r, Z.div_lt_upper_bound; lia. }
  destruct (hex_char_spec (b / 16) Hq) as [D1 V1].
  destruct (hex_char_spec (b mod 16) ltac:(lia)) as [D2 V2].
  split; [repeat constructor; assumption|].
  unfold hex_value, print_hex_byte. simpl. rewrite V1, V2. lia.
Qed.

(** A printed byte followed by text that does not go on with a hex digit
    is read back, and one comma after it is stepped over. *)
Lemma gsmi_parse_hexnumber_byte (b : Z) (rest : cstr) :
  octet b ->
  GSM_CHARISHEXNUM (deref rest) = false ->
  gsmi_parse_hexnumber (print_hex_byte b ++ rest) = (b, skip_char "," rest).
Proof.
  intros Hb Hrest.
  destruct (print_hex_byte_spec b Hb) as [Hds Hval].
  pose proof (gsmi_parse_hexnumber_wrap false false false (print_hex_byte b)
                rest Hds ltac:(discriminate) Hrest) as E.
  simpl opt_char in E. simpl app in E |- *. rewrite E, Hval.
  f_equal. unfold GSM_U32. apply Z.mod_small. destruct Hb. lia.
Qed.

Lemma mac_separator_step (s : ascii) (p : cstr) :
  mac_separator s ->
  GSM_CHARISHEXNUM (deref (s :: p)) = false
  /\ next (skip_char "," (s :: p)) = p.
Proof.
  intros [Hd Hc]. split; [exact Hd|].
  rewrite skip_char_miss; [reflexivity|].
  now apply Ascii.eqb_neq.
Qed.

Lemma GSM_U8_octet (z : Z) : octet z -> GSM_U8 z = z.
Proof. intros [H1 H2]. unfold GSM_U8. apply Z.mod_small. lia. Qed.

(** X7: [gsmi_parse_mac] reads back a printed address: on six bytes
    written as two hex digits each, each two of them one character apart
    that is neither a hex digit nor a comma, behind an optional quote, it
    returns 1 with the six bytes in [mac->mac] and leaves the cursor after
    them, with a comma, a quote and a comma stepped over where present. *)
Theorem gsmi_parse_mac_roundtrip (q : bool) (bs : list Z) (seps : list ascii)
    (tail : cstr) :
  length bs = 6%nat -> length seps = 5%nat ->
  Forall octet bs -> Forall mac_separator seps ->
  GSM_CHARISHEXNUM (deref tail) = false ->
  gsmi_parse_mac (opt_char q QUOTE ++ mac_bytes_text bs seps tail)
  = (1, skip_char "," (skip_char QUOTE (skip_char "," tail)), bs).
Proof.
  intros Hlb Hls Hbs Hseps Htail.
  do 7 (destruct bs as [|? bs]; try discriminate Hlb).
  do 6 (destruct seps as [|? seps]; try discriminate Hls).
  repeat match goal with
  | H : Forall _ (_ :: _) |- _ => apply Forall_cons in H as [? H]
  end.
  unfold gsmi_parse_mac. cbn [mac_bytes_text].
  assert (Hq : skip_char QUOTE (opt_char q QUOTE ++ print_hex_byte z ++ a
                 :: print_hex_byte z0 ++ a0 :: print_hex_byte z1 ++ a1
                 :: print_hex_byte z2 ++ a2 :: print_hex_byte z3 ++ a3
                 :: print_hex_byte z4 ++ tail)
               = print_hex_byte z ++ a :: print_hex_byte z0 ++ a0
                 :: print_hex_byte z1 ++ a1 :: print_hex_byte z2 ++ a2
                 :: print_hex_byte z3 ++ a3 :: print_hex_byte z4 ++ tail).
  { destruct q; [apply skip_char_hit|].
    apply skip_char_miss.
    destruct (print_hex_byte_spec z) as [Hd _]; [assumption|].
    apply Forall_cons in Hd as [Hd _].
    now apply hex_digit_not_skipped in Hd. }
  rewrite Hq.
  repeat match goal with
  | Hs : mac_separator ?s |- context [gsmi_parse_hexnumber (print_hex_byte ?b ++ ?s :: ?p)] =>
      let D := fresh in
      let N := fresh in
      destruct (mac_separator_step s p Hs) as [D N];
      rewrite (gsmi_parse_hexnumber_byte b (s :: p)) by assumption;
      cbv beta iota zeta; rewrite N; clear D N
  end.
  rewrite (gsmi_parse_hexnumber_byte z4 tail) by assumption.
  cbv beta iota zeta.
  now rewrite !GSM_U8_octet by assumption.
Qed.

Lemma gsmi_parse_mac_roundtrip_witness :
  gsmi_parse_mac (QUOTE :: lit "5C:CF:7F:00:1A:0B" ++ QUOTE :: lit ",x")
  = (1, lit "x", [92; 207; 127; 0; 26; 11]).
Proof.
  apply (gsmi_parse_mac_roundtrip true [92; 207; 127; 0; 26; 11]
           [":"; ":"; ":"; ":"; ":"]%char (QUOTE :: lit ",x")).
  - reflexivity.
  - reflexivity.
  - repeat constructor; (unfold octet; lia).
  - repeat constructor; (reflexivity || discriminate).
  - reflexivity.
Defined.

Lemma print_dec2_spec (n : Z) :
  two_digits n ->
  Forall is_digit (print_dec2 n) /\ dec_value (print_dec2 n) = n.
Proof.
  intros [H1 H2].
  pose proof (Z.mod_pos_bound n 10 ltac:(lia)) as Hm.
  pose proof (Z.div_mod n 10 ltac:(lia)) as Hdm.
  assert (Hq : 0 <= n / 10 <= 9).
  { split; [apply Z.div_pos; lia|].
    apply Z.lt_succ_r, Z.div_lt_upper_bound; lia. }
  split.
  - repeat constructor; apply digit_char_is_digit; lia.
  - unfold dec_value, print_dec2. simpl.
    rewrite !digit_char_value by lia. lia.
Qed.

(** A two-digit number behind the characters the scanner steps over. *)
Lemma gsmi_parse_number_two_digits (q1 c q2 s k p : bool) (n : Z)
    (rest : cstr) :
  two_digits n ->
  GSM_CHARISNUM (deref rest) = false ->
  gsmi_parse_number (lead q1 c q2 s k p ++ print_dec2 n ++ rest)
  = (n, skip_char "," rest).
Proof.
  intros Hn Hrest.
  destruct (print_dec2_spec n Hn) as [Hds Hval].
  pose proof (gsmi_parse_number_wrap q1 c q2 s k p false (print_dec2 n) rest)
    as E.
  unfold number_input in E. simpl opt_char in E.
  change ([] ++ print_dec2 n ++ rest) with (print_dec2 n ++ rest) in E.
  rewrite E, Hval.
  - f_equal. destruct Hn. apply int32_small. lia.
  - split; [assumption | split; [assumption | discriminate]].
Qed.

Lemma gsmi_parse_number_first_field (comma q : bool) (n : Z) (rest : cstr) :
  two_digits n ->
  GSM_CHARISNUM (deref rest) = false ->
  gsmi_parse_number (opt_char comma "," ++ opt_char q QUOTE
                     ++ print_dec2 n ++ rest)
  = (n, skip_char "," rest).
Proof.
  intros Hn Hrest.
  destruct comma, q.
  - exact (gsmi_parse_number_two_digits false true true false false false
             n rest Hn Hrest).
  - exact (gsmi_parse_number_two_digits false true false false false false
             n rest Hn Hrest).
  - exact (gsmi_parse_number_two_digits true false false false false false
             n rest Hn Hrest).
  - exact (gsmi_parse_number_two_digits false false false false false false
             n rest Hn Hrest).
Qed.

Lemma gsmi_parse_datetime_text (comma q : bool)
    (dd mm yy hh mi ss : Z) (tail : cstr) (dt : gsm_datetime_t) :
  two_digits dd -> two_digits mm -> two_digits yy ->
  two_digits hh -> two_digits mi -> two_digits ss ->
  GSM_CHARISNUM (deref tail) = false ->
  gsmi_parse_datetime (datetime_text comma q dd mm yy hh mi ss tail) dt
  = (1, gsmi_check_and_trim (skip_char "," tail),
     {| date := dd; month := mm; year := 2000 + yy; day := day dt;
        hours := hh; minutes := mi; seconds := ss |}).
Proof.
  intros Hdd Hmm Hyy Hhh Hmi Hss Htail.
  unfold gsmi_parse_datetime, datetime_text.
  rewrite (gsmi_parse_number_first_field comma q dd ("/"%char :: _) Hdd
             eq_refl).
  cbv beta iota zeta.
  rewrite (skip_char_miss "," ("/"%char :: _)) by reflexivity.
  rewrite (gsmi_parse_number_two_digits false false false true false false mm
             ("/"%char :: _) Hmm eq_refl : gsmi_parse_number ("/"%char
               :: print_dec2 mm ++ _) = _).
  cbv beta iota zeta.
  rewrite (skip_char_miss "," ("/"%char :: _)) by reflexivity.
  rewrite (gsmi_parse_number_two_digits false false false true false false yy
             (","%char :: _) Hyy eq_refl : gsmi_parse_number ("/"%char
               :: print_dec2 yy ++ _) = _).
  cbv beta iota zeta.
  rewrite skip_char_hit.
  rewrite (gsmi_parse_number_two_digits false false false false false false hh
             (":"%char :: _) Hhh eq_refl : gsmi_parse_number
               (print_dec2 hh ++ _) = _).
  cbv beta iota zeta.
  rewrite (skip_char_miss "," (":"%char :: _)) by reflexivity.
  rewrite (gsmi_parse_number_two_digits false false false false true false mi
             (":"%char :: _) Hmi eq_refl : gsmi_parse_number (":"%char
               :: print_dec2 mi ++ _) = _).
  cbv beta iota zeta.
  rewrite (skip_char_miss "," (":"%char :: _)) by reflexivity.
  rewrite (gsmi_parse_number_two_digits false false false false true false ss
             tail Hss Htail : gsmi_parse_number (":"%char
               :: print_dec2 ss ++ _) = _).
  cbv beta iota zeta.
  destruct Hdd, Hmm, Hyy, Hhh, Hmi, Hss.
  unfold GSM_U8, GSM_U16.
  rewrite !(Z.mod_small _ (2 ^ 8)) by lia.
  rewrite (Z.mod_small 2000 (2 ^ 16)) by lia.
  rewrite (Z.mod_small _ (2 ^ 16)) by lia.
  reflexivity.
Qed.

(** X8: [gsmi_parse_datetime] reads back a date and time written as six
    two-digit numbers [dd/mm/yy,hh:mm:ss], behind an optional comma and
    quote: it returns 1, stores the six numbers with the year counted
    from 2000, leaves the day of the week as it was, and hands what
    follows the seconds (one comma stepped over) to
    [gsmi_check_and_trim]. *)
Theorem gsmi_parse_datetime_roundtrip (comma q : bool)
    (dd mm yy hh mi ss : Z) (tail : cstr) (dt : gsm_datetime_t) :
  two_digits dd -> two_digits mm -> two_digits yy ->
  two_digits hh -> two_digits mi -> two_digits ss ->
  GSM_CHARISNUM (deref tail) = false ->
  gsmi_parse_datetime (datetime_text comma q dd mm yy hh mi ss tail) dt
  = (1, gsmi_check_and_trim (skip_char "," tail),
     {| date := dd; month := mm; year := 2000 + yy; day := day dt;
        hours := hh; minutes := mi; seconds := ss |}).
Proof. apply gsmi_parse_datetime_text. Qed.

Lemma gsmi_parse_datetime_roundtrip_witness :
  gsmi_parse_datetime
    (lit "," ++ QUOTE :: lit "18/03/21,10:15:30+04" ++ [QUOTE; CR; LF])
    blank_datetime
  = (1, [CR; LF],
     {| date := 18; month := 3; year := 2021; day := 0;
        hours := 10; minutes := 15; seconds := 30 |}).
Proof.
  apply (gsmi_parse_datetime_roundtrip true true 18 3 21 10 15 30
           (lit "+04" ++ [QUOTE; CR; LF]) blank_datetime).
  all: try (unfold two_digits; lia).
  reflexivity.
Defined.

(** ** The status token of an SMS entry *)

Lemma strcmp_eq_spec (d t : cstr) :
  Forall (fun c => c <> NUL) t ->
  strcmp_eq d t = bool_decide (c_str d = t).
Proof.
  intros Ht. revert t Ht.
  induction d as [|a d IH]; intros t Ht.
  - destruct Ht as [|c t Hc _]; cbn [strcmp_eq c_str deref].
    + now rewrite bool_decide_eq_true_2.
    + apply Ascii.eqb_neq in Hc. rewrite Hc.
      now rewrite bool_decide_eq_false_2.
  - destruct Ht as [|c t Hc Ht]; cbn [strcmp_eq c_str deref next].
    + destruct (Ascii.eqb_spec a NUL) as [-> | Ha].
      * now rewrite bool_decide_eq_true_2.
      * now rewrite bool_decide_eq_false_2.
    + destruct (Ascii.eqb_spec a c) as [-> | Hac].
      * destruct (Ascii.eqb_spec c NUL) as [-> | _]; [contradiction|].
        rewrite (IH t Ht).
        apply bool_decide_ext. split; [now intros -> | congruence].
      * rewrite bool_decide_eq_false_2; [reflexivity|].
        destruct (a =? NUL)%char; congruence.
Qed.

Lemma gsmi_parse_sms_status_quoted (comma : bool) (body : cstr)
    (delim : ascii) (rest : cstr) (stat : gsm_sms_status_t) :
  plain_text body ->
  is_field_end delim = true ->
  gsmi_parse_sms_status (quoted_field comma body delim rest) stat
  = match sms_status_of_token (take 10 body) with
    | Some s => (1, delim :: rest, s)
    | None => (0, delim :: rest, stat)
    end.
Proof.
  intros Hbody Hdelim.
  unfold gsmi_parse_sms_status, parse_string_into.
  destruct (gsmi_parse_string_quoted comma true body delim rest sms_status_buf
              11 Hbody Hdelim) as (d' & -> & Hstr & _); [simpl; lia|].
  simpl orb. cbv iota.
  rewrite !strcmp_eq_spec by (repeat constructor; discriminate).
  rewrite Hstr. change (11 - 1)%nat with 10%nat.
  unfold sms_status_of_token.
  repeat (case_bool_decide; case_decide; try contradiction; try reflexivity).
Qed.

(** X9: on a quoted token [gsmi_parse_sms_status] looks at its first ten
    characters only (its local buffer holds ten and the terminator): when
    they are one of the four status phrases it returns 1 with that status
    stored, otherwise it returns 0 and leaves the status it was given;
    either way the cursor is left on the delimiter after the token. *)
Theorem gsmi_parse_sms_status_token (comma : bool) (body : cstr)
    (delim : ascii) (rest : cstr) (stat : gsm_sms_status_t) :
  plain_text body ->
  is_field_end delim = true ->
  gsmi_parse_sms_status (quoted_field comma body delim rest) stat
  = match sms_status_of_token (take 10 body) with
    | Some s => (1, delim :: rest, s)
    | None => (0, delim :: rest, stat)
    end.
Proof. apply gsmi_parse_sms_status_quoted. Qed.

Lemma gsmi_parse_sms_status_token_witness :
  gsmi_parse_sms_status
    (quoted_field true (lit "REC UNREADABLE") "," (lit "x"))
    GSM_SMS_STATUS_ALL
  = (1, lit ",x", GSM_SMS_STATUS_UNREAD).
Proof.
  apply (gsmi_parse_sms_status_token true (lit "REC UNREADABLE") ","
           (lit "x") GSM_SMS_STATUS_ALL).
  - repeat constructor; discriminate.
  - reflexivity.
Defined.

(** ** The operator scan over a whole feed *)

Section ScanInvariants.
Context {hdr : gsm_hdr}.

(** The call left the message as it was. *)
Ltac scan_same :=
  simpl; split; [reflexivity | split; [reflexivity | split; left; auto]].

(** One call: the capacity is left alone, the count stays or goes up by
    one while below the capacity, the record array keeps its length and
    changes at most at the record under construction, and what is
    published is the count. *)
Lemma gsmi_parse_cops_scan_step (ch : ascii) (reset : bool)
    (u : cops_scan_state) (sc : cops_scan_t) :
  let sc' := snd (gsmi_parse_cops_scan ch reset u sc) in
  fst (fst (gsmi_parse_cops_scan ch reset u sc)) = 1
  /\ opsl sc' = opsl sc
  /\ (opsi sc' = opsi sc /\ opf sc' = opf sc
      \/ (opsi sc < opsl sc)%nat /\ opsi sc' = S (opsi sc)
         /\ opf sc' = publish (opf sc) (S (opsi sc)))
  /\ (ops sc' = ops sc
      \/ (opsi sc < opsl sc)%nat
         /\ exists f, ops sc' = alter f (opsi sc) (ops sc)).
Proof.
  unfold gsmi_parse_cops_scan. cbv zeta.
  destruct reset; [scan_same|].
  destruct ((ch_prev u =? NUL)%char && (ch =? " ")%char); [scan_same|].
  match goal with |- context [ccd ?v || _] => generalize v end.
  intros u1.
  destruct (ccd u1); [scan_same|].
  destruct (Nat.leb_spec (opsl sc) (opsi sc)) as [Hfull | Hroom]; [scan_same|].
  simpl orb. cbv iota.
  destruct (bo u1).
  - destruct (ch =? ")")%char.
    + simpl. split; [reflexivity|]. split; [reflexivity|].
      split; [right; repeat split; assumption | left; reflexivity].
    + destruct (ch =? ",")%char; [scan_same|].
      destruct (ch =? QUOTE)%char; [scan_same|].
      simpl. split; [reflexivity|]. split; [reflexivity|].
      split; [left; auto | right; split; [assumption | eexists; reflexivity]].
  - destruct (ch =? "(")%char; [scan_same|].
    destruct ((ch =? ",")%char && (ch_prev u1 =? ",")%char); scan_same.
Qed.

(** X10: however many characters are fed to the operator scan, and from
    whatever state, the capacity [opsl] is left alone, the record count
    never goes down and, once within the capacity, never goes beyond it,
    the record array keeps its length, no record already committed and no
    record at or beyond the capacity is written to, and an observer that
    showed the count before the feed shows the count after it. *)
Theorem cops_scan_feed_within_capacity (s : list ascii) (u : cops_scan_state)
    (sc : cops_scan_t) :
  let sc' := snd (cops_scan_feed s u sc) in
  opsl sc' = opsl sc
  /\ (opsi sc <= opsi sc')%nat
  /\ ((opsi sc <= opsl sc)%nat -> (opsi sc' <= opsl sc)%nat)
  /\ length (ops sc') = length (ops sc)
  /\ (forall r : nat, (r < opsi sc)%nat \/ (opsl sc <= r)%nat ->
        ops sc' !! r = ops sc !! r)
  /\ (opf sc = Some (opsi sc) -> opf sc' = Some (opsi sc')).
Proof.
  revert u sc. induction s as [|ch s IH]; intros u sc; cbn [cops_scan_feed].
  - simpl. auto 10.
  - pose proof (gsmi_parse_cops_scan_step ch false u sc) as Hstep.
    destruct (gsmi_parse_cops_scan ch false u sc) as [[r1 u1] sc1].
    simpl in Hstep. destruct Hstep as (_ & Hl & Hi & Ho).
    specialize (IH u1 sc1). simpl in IH.
    destruct IH as (IHl & IHi & IHc & IHlen & IHops & IHf).
    simpl.
    assert (Hi1 : (opsi sc <= opsi sc1)%nat /\
                  ((opsi sc <= opsl sc)%nat -> (opsi sc1 <= opsl sc)%nat))
      by (destruct Hi as [[-> _] | (? & -> & _)]; lia).
    destruct Hi1 as [Hm Hc1].
    assert (Hlen1 : length (ops sc1) = length (ops sc))
      by (destruct Ho as [-> | (_ & f & ->)];
          [reflexivity | apply length_alter]).
    split; [congruence|].
    split; [lia|].
    split; [intros H; rewrite <- Hl; apply IHc; rewrite Hl; auto|].
    split; [congruence|].
    split.
    + intros r Hr. rewrite IHops by (rewrite Hl; lia).
      destruct Ho as [-> | (Hroom & f & ->)]; [reflexivity|].
      apply list_lookup_alter_ne. lia.
    + intros Hf. apply IHf.
      destruct Hi as [[-> ->] | (_ & -> & ->)]; [assumption|].
      now rewrite Hf.
Qed.

(** X11: if every name buffer of the record array has NUL in its
    terminator slot, this is still so after any feed of the operator
    scan: the names stay NUL-terminated strings within their buffers. *)
Theorem cops_scan_feed_names_terminated (s : list ascii)
    (u : cops_scan_state) (sc : cops_scan_t) :
  names_terminated sc ->
  names_terminated (snd (cops_scan_feed s u sc)).
Proof.
  revert u sc. induction s as [|ch s IH]; intros u sc Hsc;
    cbn [cops_scan_feed]; [exact Hsc|].
  pose proof (gsmi_parse_cops_scan_step ch false u sc) as Hstep.
  pose proof (fun r j o o' => gsmi_parse_cops_scan_terminator_slot ch false
                                u sc r j o o') as Hslot.
  destruct (gsmi_parse_cops_scan ch false u sc) as [[r1 u1] sc1].
  simpl in Hstep, Hslot. destruct Hstep as (_ & _ & _ & Ho).
  apply IH. intros r o' Ho'.
  assert (Hold : exists o, ops sc !! r = Some o).
  { destruct Ho as [E | (_ & f & E)]; rewrite E in Ho'; [eauto|].
    apply lookup_lt_Some in Ho'. rewrite length_alter in Ho'.
    now apply lookup_lt_is_Some_2. }
  destruct Hold as [o Hr].
  destruct (Hsc r o Hr) as [Hl Hs].
  destruct (Hslot r (sizeof_long_name - 1)%nat o o' Hr Ho') as [HL _].
  destruct (Hslot r (sizeof_short_name - 1)%nat o o' Hr Ho') as [_ HS].
  specialize (HL (le_n _)). specialize (HS (le_n _)).
  split.
  - destruct HL as [-> | ->]; [assumption | reflexivity].
  - destruct HS as [-> | ->]; [assumption | reflexivity].
Qed.

End ScanInvariants.

Lemma cops_scan_feed_within_capacity_witness :
  (opsi (snd (cops_scan_feed (hdr := sample_hdr) (lit "(1),(2),(3),(4)")
                cops_scan_reset (blank_scan 2))) <= 2)%nat.
Proof.
  apply (cops_scan_feed_within_capacity (hdr := sample_hdr)
           (lit "(1),(2),(3),(4)") cops_scan_reset (blank_scan 2)).
  simpl. lia.
Defined.

Lemma cops_scan_feed_names_terminated_witness :
  names_terminated (hdr := sample_hdr)
    (snd (cops_scan_feed (hdr := sample_hdr)
            (lit "(2,A very long operator name indeed,short,1)")
            cops_scan_reset (blank_scan 2))).
Proof.
  apply (cops_scan_feed_names_terminated (hdr := sample_hdr)).
  intros r o Ho.
  destruct r as [|[|r]]; simpl in Ho; try discriminate;
    injection Ho as <-; split; reflexivity.
Defined.

(** ** The operator scan on one record *)

Section ScanRecordProofs.
Context {hdr : gsm_hdr}.

Lemma set_ops_same (sc : cops_scan_t) : set_ops (ops sc) sc = sc.
Proof. now destruct sc. Qed.

Lemma scan_step_open (c : ascii) (sc : cops_scan_t) :
  (opsi sc < opsl sc)%nat ->
  gsmi_parse_cops_scan "(" false (scan_idle c) sc
  = (1, scan_in_record 0 0 "(", sc).
Proof.
  intros Hroom. apply Nat.leb_gt in Hroom.
  unfold gsmi_parse_cops_scan, scan_idle. cbn.
  destruct (c =? NUL)%char; cbn; rewrite Hroom; reflexivity.
Qed.

Lemma scan_step_data (k t : nat) (c ch : ascii) (sc : cops_scan_t) :
  c <> NUL -> name_char ch -> (opsi sc < opsl sc)%nat ->
  gsmi_parse_cops_scan ch false (scan_in_record k t c) sc
  = (1, scan_in_record k (cops_scan_data_tp (scan_in_record k t NUL)) ch,
     set_ops (alter (cops_scan_data ch (scan_in_record k t NUL)) (opsi sc)
                (ops sc)) sc).
Proof.
  intros Hc (_ & H1 & H2 & H3) Hroom.
  apply Nat.leb_gt in Hroom. apply Ascii.eqb_neq in Hc, H1, H2, H3.
  unfold gsmi_parse_cops_scan, scan_in_record. cbn.
  rewrite Hc. cbn. rewrite Hroom, H1, H2, H3. reflexivity.
Qed.

Lemma scan_step_comma (k t : nat) (c : ascii) (sc : cops_scan_t) :
  c <> NUL -> (opsi sc < opsl sc)%nat ->
  gsmi_parse_cops_scan "," false (scan_in_record k t c) sc
  = (1, scan_in_record (S k mod 4) 0 ",", sc).
Proof.
  intros Hc Hroom.
  apply Nat.leb_gt in Hroom. apply Ascii.eqb_neq in Hc.
  unfold gsmi_parse_cops_scan, scan_in_record. cbn.
  rewrite Hc. cbn. rewrite Hroom. reflexivity.
Qed.

Lemma scan_step_quote (k t : nat) (c : ascii) (sc : cops_scan_t) :
  c <> NUL -> (opsi sc < opsl sc)%nat ->
  gsmi_parse_cops_scan QUOTE false (scan_in_record k t c) sc
  = (1, scan_in_record k t QUOTE, sc).
Proof.
  intros Hc Hroom.
  apply Nat.leb_gt in Hroom. apply Ascii.eqb_neq in Hc.
  unfold gsmi_parse_cops_scan, scan_in_record. cbn.
  rewrite Hc. cbn. rewrite Hroom. reflexivity.
Qed.

Lemma scan_step_close (k t : nat) (c : ascii) (sc : cops_scan_t) :
  c <> NUL -> (opsi sc < opsl sc)%nat ->
  gsmi_parse_cops_scan ")" false (scan_in_record k t c) sc
  = (1, scan_idle ")", commit_operator sc).
Proof.
  intros Hc Hroom.
  apply Nat.leb_gt in Hroom. apply Ascii.eqb_neq in Hc.
  unfold gsmi_parse_cops_scan, scan_in_record. cbn.
  rewrite Hc. cbn. rewrite Hroom. reflexivity.
Qed.

Lemma cops_scan_feed_app (a b : list ascii) (u : cops_scan_state)
    (sc : cops_scan_t) :
  cops_scan_feed (a ++ b) u sc
  = cops_scan_feed b (fst (cops_scan_feed a u sc)) (snd (cops_scan_feed a u sc)).
Proof.
  revert u sc. induction a as [|ch a IH]; intros u sc; [reflexivity|].
  cbn [app cops_scan_feed].
  destruct (gsmi_parse_cops_scan ch false u sc) as [[r u1] sc1]. apply IH.
Qed.

Lemma alter_as_insert {A : Type} (f : A -> A) (i : nat) (l : list A) (x : A) :
  l !! i = Some x -> alter f i l = <[i := f x]> l.
Proof.
  intros Hx. apply list_eq. intros j.
  destruct (decide (i = j)) as [<- | Hne].
  - rewrite list_lookup_alter_eq, Hx. simpl.
    symmetry. apply list_lookup_insert_eq. now apply lookup_lt_Some in Hx.
  - now rewrite list_lookup_alter_ne, list_lookup_insert_ne.
Qed.

(** The data characters of one term: the state machine stays in the term
    and rewrites the record under construction as [term_rec] says. *)
Lemma cops_scan_feed_term (k : nat) (w : list ascii) (t : nat) (c0 : ascii)
    (sc : cops_scan_t) (o : gsm_operator_t) :
  c0 <> NUL -> Forall name_char w ->
  (opsi sc < opsl sc)%nat -> ops sc !! opsi sc = Some o ->
  exists c1, c1 <> NUL
    /\ cops_scan_feed w (scan_in_record k t c0) sc
       = (scan_in_record k (term_tp k w t) c1,
          set_ops (<[opsi sc := term_rec k w t o]> (ops sc)) sc).
Proof.
  intros Hc Hw. revert t c0 sc o Hc.
  induction Hw as [|ch w Hch _ IH]; intros t c0 sc o Hc Hroom Ho.
  - exists c0. split; [assumption|]. cbn.
    now rewrite list_insert_id, set_ops_same.
  - cbn [cops_scan_feed term_tp term_rec].
    rewrite scan_step_data by assumption.
    set (f := cops_scan_data ch (scan_in_record k t NUL)).
    set (t1 := cops_scan_data_tp (scan_in_record k t NUL)).
    destruct (IH t1 ch (set_ops (alter f (opsi sc) (ops sc)) sc) (f o))
      as (c1 & Hc1 & E).
    + apply Hch.
    + exact Hroom.
    + cbn. now rewrite list_lookup_alter_eq, Ho.
    + exists c1. split; [assumption|]. rewrite E. cbn.
      now rewrite (alter_as_insert f _ _ o Ho), list_insert_insert_eq.
Qed.

Lemma set_stat_same (o : gsm_operator_t) : set_stat (stat o) o = o.
Proof. now destruct o. Qed.

Lemma set_num_same (o : gsm_operator_t) : set_num (num o) o = o.
Proof. now destruct o. Qed.

(** Term 0: the status is read as a decimal number. *)
Lemma term_rec_stat (ds : list ascii) (t : nat) (o : gsm_operator_t) :
  Forall is_digit ds -> 0 <= stat o -> stat_fits (dec_acc (stat o) ds) ->
  term_rec 0 ds t o = set_stat (dec_acc (stat o) ds) o
  /\ term_tp 0 ds t = t.
Proof.
  intros Hds. revert t o.
  induction Hds as [|ch ds Hch Hds IH]; intros t o Hpos Hfit.
  - cbn. now rewrite set_stat_same.
  - cbn [term_rec term_tp dec_acc].
    change (cops_scan_data_tp (scan_in_record 0 t NUL)) with t.
    change (cops_scan_data ch (scan_in_record 0 t NUL) o)
      with (set_stat (to_enum (GSM_SZ (10 * GSM_SZ (stat o)
                                      + (char_code ch - 48)))) o).
    pose proof (digit_range ch Hch) as Hd. unfold GSM_CHARTONUM in Hd.
    pose proof (dec_acc_le ds (stat o * 10 + GSM_CHARTONUM ch) Hds) as Hle.
    unfold GSM_CHARTONUM in Hle. specialize (Hle ltac:(lia)).
    destruct Hfit as [Hsz Henum]. cbn [dec_acc] in Hsz, Henum.
    unfold GSM_CHARTONUM in Hsz, Henum.
    assert (E : to_enum (GSM_SZ (10 * GSM_SZ (stat o) + (char_code ch - 48)))
                = stat o * 10 + (char_code ch - 48)).
    { unfold GSM_SZ. rewrite (Z.mod_small (stat o)) by lia.
      rewrite Z.mod_small by lia.
      rewrite Henum by lia. lia. }
    rewrite E.
    destruct (IH t (set_stat (stat o * 10 + (char_code ch - 48)) o))
      as [E1 E2].
    + cbn. lia.
    + cbn. unfold GSM_CHARTONUM. split; assumption.
    + split; [|exact E2]. rewrite E1. cbn. unfold GSM_CHARTONUM.
      now destruct o.
Qed.

(** Term 3: the numeric code is read as a decimal number into a
    [uint32_t]. *)
Lemma term_rec_num (ds : list ascii) (t : nat) (o : gsm_operator_t) (v : Z) :
  Forall is_digit ds -> num o = GSM_U32 v ->
  term_rec 3 ds t o = set_num (GSM_U32 (dec_acc v ds)) o
  /\ term_tp 3 ds t = t.
Proof.
  intros Hds. revert t o v.
  induction Hds as [|ch ds Hch Hds IH]; intros t o v Hv.
  - cbn. now rewrite <- Hv, set_num_same.
  - cbn [term_rec term_tp dec_acc].
    change (cops_scan_data_tp (scan_in_record 3 t NUL)) with t.
    change (cops_scan_data ch (scan_in_record 3 t NUL) o)
      with (set_num (GSM_U32 (10 * num o + (char_code ch - 48))) o).
    destruct (IH t (set_num (GSM_U32 (10 * num o + (char_code ch - 48))) o)
                (v * 10 + GSM_CHARTONUM ch)) as [E1 E2].
    + cbn. rewrite Hv. unfold GSM_U32, GSM_CHARTONUM.
      rewrite Z.add_mod by lia. rewrite Z.mul_mod_idemp_r by lia.
      rewrite <- Z.add_mod by lia. f_equal. lia.
    + split; [|exact E2]. rewrite E1. now destruct o.
Qed.
End ScanRecordProofs.

Lemma c_str_take (buf : list ascii) (t : nat) :
  buf !! t = Some NUL ->
  Forall (fun c => c <> NUL) (take t buf) ->
  c_str buf = take t buf.
Proof.
  revert t. induction buf as [|a buf IH]; intros t Ht Hpre; [discriminate|].
  destruct t as [|t]; simpl in *.
  - injection Ht as ->. reflexivity.
  - apply Forall_cons in Hpre as [Ha Hpre].
    destruct (Ascii.eqb_spec a NUL); [contradiction|].
    f_equal. now apply IH.
Qed.

(** The characters of a name land in its buffer up to the terminator
    slot; the rest is dropped. *)
Lemma name_feed_c_str (size : nat) (w : list ascii) (t : nat)
    (buf : list ascii) :
  Forall name_char w ->
  (size <= 256)%nat -> (size <= length buf)%nat -> (t <= size - 1)%nat ->
  buf !! t = Some NUL ->
  Forall (fun c => c <> NUL) (take t buf) ->
  c_str (name_feed size w t buf) = take t buf ++ take (size - 1 - t) w
  /\ length (name_feed size w t buf) = length buf.
Proof.
  intros Hw Hmax. revert t buf.
  induction Hw as [|ch w Hch _ IH]; intros t buf Hlen Ht Hnul Hpre.
  - cbn. rewrite take_nil, app_nil_r. split; [now apply c_str_take | reflexivity].
  - cbn [name_feed].
    destruct (Nat.ltb_spec t (size - 1)) as [Hlt | Hge].
    + assert (Hinc : tp_incr t = S t).
      { unfold tp_incr. apply Nat.mod_small. lia. }
      rewrite Hinc. unfold name_put. rewrite Hinc.
      destruct (IH (S t) (<[S t := NUL]> (<[t := ch]> buf))) as [E1 E2].
      * now rewrite !length_insert.
      * lia.
      * apply list_lookup_insert_eq. rewrite length_insert. lia.
      * rewrite take_insert_ge by lia. rewrite take_S_insert by lia.
        apply Forall_app. split; [assumption|].
        repeat constructor. apply Hch.
      * rewrite E1, E2, !length_insert. split; [|reflexivity].
        rewrite take_insert_ge by lia. rewrite take_S_insert by lia.
        replace (size - 1 - t)%nat with (S (size - 1 - S t)) by lia.
        cbn [take]. now rewrite <- app_assoc.
    + destruct (IH t buf) as [E1 E2]; try assumption.
      rewrite E1, E2. split; [|reflexivity].
      replace (size - 1 - t)%nat with 0%nat by lia.
      now rewrite !take_0.
Qed.

Section ScanRecordNames.
Context {hdr : gsm_hdr}.

Lemma set_long_name_same (o : gsm_operator_t) :
  set_long_name (long_name o) o = o.
Proof. now destruct o. Qed.

Lemma set_short_name_same (o : gsm_operator_t) :
  set_short_name (short_name o) o = o.
Proof. now destruct o. Qed.

(** Term 1 writes the long name, term 2 the short name. *)
Lemma term_rec_long (w : list ascii) (t : nat) (o : gsm_operator_t) :
  term_rec 1 w t o
  = set_long_name (name_feed sizeof_long_name w t (long_name o)) o.
Proof.
  revert t o. induction w as [|ch w IH]; intros t o.
  - cbn. now rewrite set_long_name_same.
  - cbn [term_rec name_feed].
    change (cops_scan_data_tp (scan_in_record 1 t NUL))
      with (if (t <? sizeof_long_name - 1)%nat then tp_incr t else t).
    change (cops_scan_data ch (scan_in_record 1 t NUL) o)
      with (if (t <? sizeof_long_name - 1)%nat
            then set_long_name (name_put (long_name o) t ch) o else o).
    destruct (t <? sizeof_long_name - 1)%nat; rewrite IH; now destruct o.
Qed.

Lemma term_rec_short (w : list ascii) (t : nat) (o : gsm_operator_t) :
  term_rec 2 w t o
  = set_short_name (name_feed sizeof_short_name w t (short_name o)) o.
Proof.
  revert t o. induction w as [|ch w IH]; intros t o.
  - cbn. now rewrite set_short_name_same.
  - cbn [term_rec name_feed].
    change (cops_scan_data_tp (scan_in_record 2 t NUL))
      with (if (t <? sizeof_short_name - 1)%nat then tp_incr t else t).
    change (cops_scan_data ch (scan_in_record 2 t NUL) o)
      with (if (t <? sizeof_short_name - 1)%nat
            then set_short_name (name_put (short_name o) t ch) o else o).
    destruct (t <? sizeof_short_name - 1)%nat; rewrite IH; now destruct o.
Qed.

End ScanRecordNames.

Section ScanRecordDecode.
Context {hdr : gsm_hdr}.

Lemma digit_name_char (c : ascii) : is_digit c -> name_char c.
Proof.
  intros H. repeat split; intros ->; discriminate H.
Qed.

Section OneRecord.
Variable sc : cops_scan_t.
Variable o0 : gsm_operator_t.
Hypothesis Hroom : (opsi sc < opsl sc)%nat.
Hypothesis Ho0 : ops sc !! opsi sc = Some o0.

(** The message with [o] as the record under construction. *)
Let sc_with (o : gsm_operator_t) : cops_scan_t :=
  set_ops (<[opsi sc := o]> (ops sc)) sc.

Lemma sc_with_lookup (o : gsm_operator_t) :
  ops (sc_with o) !! opsi (sc_with o) = Some o.
Proof.
  unfold sc_with. cbn. apply list_lookup_insert_eq.
  now apply lookup_lt_Some in Ho0.
Qed.

Lemma feed_open (c : ascii) (s : list ascii) (o : gsm_operator_t) :
  cops_scan_feed ("("%char :: s) (scan_idle c) (sc_with o)
  = cops_scan_feed s (scan_in_record 0 0 "(") (sc_with o).
Proof. cbn [cops_scan_feed]. now rewrite scan_step_open. Qed.

Lemma feed_comma (k t : nat) (c : ascii) (s : list ascii)
    (o : gsm_operator_t) :
  c <> NUL ->
  cops_scan_feed (","%char :: s) (scan_in_record k t c) (sc_with o)
  = cops_scan_feed s (scan_in_record (S k mod 4) 0 ",") (sc_with o).
Proof. intros Hc. cbn [cops_scan_feed]. now rewrite scan_step_comma. Qed.

Lemma feed_quote (k t : nat) (c : ascii) (s : list ascii)
    (o : gsm_operator_t) :
  c <> NUL ->
  cops_scan_feed (QUOTE :: s) (scan_in_record k t c) (sc_with o)
  = cops_scan_feed s (scan_in_record k t QUOTE) (sc_with o).
Proof. intros Hc. cbn [cops_scan_feed]. now rewrite scan_step_quote. Qed.

Lemma feed_opt_quote (q : bool) (k t : nat) (c : ascii) (s : list ascii)
    (o : gsm_operator_t) :
  c <> NUL ->
  exists c1, c1 <> NUL
    /\ cops_scan_feed (opt_char q QUOTE ++ s) (scan_in_record k t c) (sc_with o)
       = cops_scan_feed s (scan_in_record k t c1) (sc_with o).
Proof.
  intros Hc. destruct q.
  - exists QUOTE. split; [discriminate|]. now apply feed_quote.
  - exists c. split; [assumption | reflexivity].
Qed.

Lemma feed_close (k t : nat) (c : ascii) (o : gsm_operator_t) :
  c <> NUL ->
  cops_scan_feed [")"%char] (scan_in_record k t c) (sc_with o)
  = (scan_idle ")", commit_operator (sc_with o)).
Proof. intros Hc. cbn [cops_scan_feed]. now rewrite scan_step_close. Qed.

Lemma feed_term_then (k : nat) (w s : list ascii) (t : nat) (c0 : ascii)
    (o : gsm_operator_t) :
  c0 <> NUL -> Forall name_char w ->
  exists c1, c1 <> NUL
    /\ cops_scan_feed (w ++ s) (scan_in_record k t c0) (sc_with o)
       = cops_scan_feed s (scan_in_record k (term_tp k w t) c1)
           (sc_with (term_rec k w t o)).
Proof.
  intros Hc Hw.
  destruct (cops_scan_feed_term k w t c0 (sc_with o) o Hc Hw Hroom
              (sc_with_lookup o)) as (c1 & Hc1 & E).
  exists c1. split; [assumption|].
  rewrite cops_scan_feed_app, E. cbn [fst snd].
  f_equal. unfold sc_with. cbn. now rewrite list_insert_insert_eq.
Qed.

(** The whole text of one operator. *)
Lemma feed_operator_text (c : ascii) (st long short code : cstr) (qc : bool) :
  Forall is_digit st -> Forall name_char long -> Forall name_char short ->
  Forall is_digit code ->
  cops_scan_feed (operator_text st long short code qc) (scan_idle c) sc
  = (scan_idle ")",
     commit_operator
       (sc_with (term_rec 3 code 0 (term_rec 2 short 0
                   (term_rec 1 long 0 (term_rec 0 st 0 o0)))))).
Proof.
  intros Hst Hlong Hshort Hcode.
  assert (Hst' : Forall name_char st)
    by (eapply Forall_impl; [exact Hst | apply digit_name_char]).
  assert (Hcode' : Forall name_char code)
    by (eapply Forall_impl; [exact Hcode | apply digit_name_char]).
  assert (E0 : sc = sc_with o0).
  { unfold sc_with. now rewrite list_insert_id, set_ops_same. }
  rewrite E0 at 1. unfold operator_text.
  rewrite feed_open.
  destruct (feed_term_then 0 st (","%char :: QUOTE :: long ++ QUOTE
              :: ","%char :: QUOTE :: short ++ QUOTE :: ","%char
              :: opt_char qc QUOTE ++ code ++ opt_char qc QUOTE ++ [")"%char])
              0 "(" o0 ltac:(discriminate) Hst') as (c1 & Hc1 & ->).
  rewrite feed_comma by assumption.
  change (1 mod 4)%nat with 1%nat.
  rewrite feed_quote by discriminate.
  destruct (feed_term_then 1 long (QUOTE :: ","%char :: QUOTE :: short
              ++ QUOTE :: ","%char :: opt_char qc QUOTE ++ code
              ++ opt_char qc QUOTE ++ [")"%char])
              0 QUOTE (term_rec 0 st 0 o0) ltac:(discriminate) Hlong)
    as (c2 & Hc2 & ->).
  rewrite feed_quote by assumption.
  rewrite feed_comma by discriminate.
  change (2 mod 4)%nat with 2%nat.
  rewrite feed_quote by discriminate.
  destruct (feed_term_then 2 short (QUOTE :: ","%char :: opt_char qc QUOTE
              ++ code ++ opt_char qc QUOTE ++ [")"%char])
              0 QUOTE (term_rec 1 long 0 (term_rec 0 st 0 o0))
              ltac:(discriminate) Hshort) as (c3 & Hc3 & ->).
  rewrite feed_quote by assumption.
  rewrite feed_comma by discriminate.
  change (3 mod 4)%nat with 3%nat.
  destruct (feed_opt_quote qc 3 0 "," (code ++ opt_char qc QUOTE ++ [")"%char])
              (term_rec 2 short 0 (term_rec 1 long 0 (term_rec 0 st 0 o0)))
              ltac:(discriminate)) as (c4 & Hc4 & ->).
  destruct (feed_term_then 3 code (opt_char qc QUOTE ++ [")"%char]) 0 c4
              (term_rec 2 short 0 (term_rec 1 long 0 (term_rec 0 st 0 o0)))
              Hc4 Hcode') as (c5 & Hc5 & ->).
  destruct (feed_opt_quote qc 3 (term_tp 3 code 0) c5 [")"%char]
              (term_rec 3 code 0 (term_rec 2 short 0
                 (term_rec 1 long 0 (term_rec 0 st 0 o0)))) Hc5)
    as (c6 & Hc6 & ->).
  now apply feed_close.
Qed.

End OneRecord.
End ScanRecordDecode.

Section ScanRecordTheorem.
Context {hdr : gsm_hdr}.

(** X12: the operator scan decodes one operator: fed, between two records
    and with room in the record array, the text
    [(status,"long name","short name",code)] (the code quoted or not) for
    a record nothing was decoded into yet, it commits exactly that record:
    the count goes up by one and is published, the status and the code
    are the decimal values of their digits (the code modulo 2^32), and the
    names are the given ones cut to what their buffers hold before the
    terminator; the machine is back between two records. *)
Theorem cops_scan_feed_operator (c : ascii) (sc : cops_scan_t)
    (o : gsm_operator_t) (st long short code : cstr) (qc : bool) :
  scan_sizes_ok ->
  (opsi sc < opsl sc)%nat ->
  ops sc !! opsi sc = Some o ->
  fresh_operator o ->
  Forall is_digit st -> Forall name_char long -> Forall name_char short ->
  Forall is_digit code ->
  stat_fits (dec_value st) ->
  exists o',
    cops_scan_feed (operator_text st long short code qc) (scan_idle c) sc
    = (scan_idle ")",
       commit_operator (set_ops (<[opsi sc := o']> (ops sc)) sc))
    /\ stat o' = dec_value st
    /\ c_str (long_name o') = take (sizeof_long_name - 1) long
    /\ c_str (short_name o') = take (sizeof_short_name - 1) short
    /\ num o' = dec_value code mod 2 ^ 32.
Proof.
  intros [HsL HsS] Hroom Ho (Hstat & Hnum & HL0 & HS0 & HlenL & HlenS)
    Hst Hlong Hshort Hcode Hfit.
  exists (term_rec 3 code 0 (term_rec 2 short 0
            (term_rec 1 long 0 (term_rec 0 st 0 o)))).
  split.
  - exact (feed_operator_text sc o Hroom Ho c st long short code qc
             Hst Hlong Hshort Hcode).
  - destruct (term_rec_stat st 0 o Hst) as [E0 _].
    { rewrite Hstat. lia. }
    { rewrite Hstat. exact Hfit. }
    rewrite E0, Hstat. fold (dec_value st).
    rewrite term_rec_long, term_rec_short.
    destruct (term_rec_num code 0
                (set_short_name
                   (name_feed sizeof_short_name short 0
                      (short_name
                         (set_long_name
                            (name_feed sizeof_long_name long 0
                               (long_name (set_stat (dec_value st) o)))
                            (set_stat (dec_value st) o))))
                   (set_long_name
                      (name_feed sizeof_long_name long 0
                         (long_name (set_stat (dec_value st) o)))
                      (set_stat (dec_value st) o))) 0 Hcode) as [E3 _].
    { cbn. exact Hnum. }
    rewrite E3. cbn.
    destruct (name_feed_c_str sizeof_long_name long 0 (long_name o) Hlong HsL
                HlenL ltac:(lia) HL0 ltac:(constructor)) as [EL _].
    destruct (name_feed_c_str sizeof_short_name short 0 (short_name o) Hshort
                HsS HlenS ltac:(lia) HS0 ltac:(constructor)) as [ES _].
    rewrite EL, ES, !Nat.sub_0_r. cbn.
    repeat split; reflexivity.
Qed.

End ScanRecordTheorem.

Lemma cops_scan_feed_operator_witness :
  exists o',
    cops_scan_feed (hdr := sample_hdr)
      (operator_text (lit "2") (lit "Long Name") (lit "Short") (lit "26201")
         true)
      (scan_idle NUL) (blank_scan 2)
    = (scan_idle ")",
       commit_operator (set_ops (<[0%nat := o']> (ops (blank_scan 2)))
                          (blank_scan 2)))
    /\ num o' = 26201.
Proof.
  destruct (cops_scan_feed_operator (hdr := sample_hdr) NUL (blank_scan 2)
              blank_operator (lit "2") (lit "Long Name") (lit "Short")
              (lit "26201") true) as (o' & E & _ & _ & _ & Hn).
  - split; simpl; lia.
  - simpl. lia.
  - reflexivity.
  - repeat split; simpl; lia.
  - repeat constructor.
  - repeat constructor; discriminate.
  - repeat constructor; discriminate.
  - repeat constructor.
  - split; [vm_compute; reflexivity | intros w _; reflexivity].
  - exists o'. split; [exact E | exact Hn].
Defined.

(** ** Recognised memories *)

Lemma strlen_plain (t : cstr) :
  Forall (fun c => c <> NUL) t -> strlen t = length t.
Proof.
  induction 1 as [|c t Hc _ IH]; simpl; [reflexivity|].
  apply Ascii.eqb_neq in Hc. now rewrite Hc, IH.
Qed.

Lemma is_prefix_app (t x : cstr) : is_prefix t (t ++ x) = true.
Proof.
  induction t as [|c t IH]; simpl; [reflexivity|].
  now rewrite Ascii.eqb_refl.
Qed.

(** A literal with no quote in it that does not begin [t] does not begin
    [t] followed by a quote either. *)
Lemma is_prefix_quote (t' t rest : cstr) :
  Forall (fun c => c <> QUOTE) t' ->
  is_prefix t' t = false ->
  is_prefix t' (t ++ QUOTE :: rest) = false.
Proof.
  intros Hq. revert t. induction Hq as [|c t' Hc _ IH]; intros t E.
  - discriminate E.
  - destruct t as [|d t]; simpl in *.
    + apply Ascii.eqb_neq in Hc. now rewrite Hc.
    + destruct (c =? d)%char; simpl in *; [now apply IH | reflexivity].
Qed.

Lemma mem_scan_first (s : cstr) (map : list gsm_dev_mem_map_t) (mem0 : Z)
    (i : nat) (e : gsm_dev_mem_map_t) :
  map !! i = Some e ->
  (forall (j : nat) (e' : gsm_dev_mem_map_t),
     (j < i)%nat -> map !! j = Some e' ->
     strncmp_eq s (mem_str e') (strlen (mem_str e')) = false) ->
  strncmp_eq s (mem_str e) (strlen (mem_str e)) = true ->
  mem_scan s map mem0 = (mem_id e, advance (strlen (mem_str e)) s).
Proof.
  revert i. induction map as [|a map IH]; intros i Hi Hbefore Hhit.
  - discriminate Hi.
  - destruct i as [|i]; simpl in *.
    + injection Hi as ->. now rewrite Hhit.
    + rewrite (Hbefore 0%nat a) by (lia || reflexivity).
      apply (IH i Hi); [|assumption].
      intros j e' Hj He'. apply (Hbefore (S j) e'); [lia | exact He'].
Qed.

Section MemoryTokens.
Context {hdr : gsm_hdr}.

Lemma mem_scan_token (e : gsm_dev_mem_map_t) (rest : cstr) :
  mem_map_distinct -> In e gsm_dev_mem_map ->
  mem_scan (mem_str e ++ QUOTE :: rest) gsm_dev_mem_map GSM_MEM_UNKNOWN
  = (mem_id e, QUOTE :: rest).
Proof.
  intros [Hlit Hpre] Hin.
  pose proof (proj1 (List.Forall_forall _ _) Hlit) as Hall.
  destruct (Hall e Hin) as (_ & Hplain & _).
  apply list_elem_of_In, list_elem_of_lookup in Hin as [i Hi].
  rewrite (mem_scan_first _ _ _ i e Hi).
  - rewrite strlen_plain by (now apply plain_text_no_nul).
    unfold advance. now rewrite drop_app_length.
  - intros j e' Hj He'.
    assert (Hin' : In e' gsm_dev_mem_map).
    { apply list_elem_of_In, list_elem_of_lookup. eauto. }
    destruct (Hall e' Hin') as (_ & Hplain' & _).
    rewrite strlen_plain by (now apply plain_text_no_nul).
    rewrite strncmp_eq_prefix by (now apply plain_text_no_nul).
    apply is_prefix_quote.
    + eapply Forall_impl; [exact Hplain'|]. now intros c [_ H].
    + exact (Hpre j i e' e Hj He' Hi).
  - rewrite strlen_plain by (now apply plain_text_no_nul).
    rewrite strncmp_eq_prefix by (now apply plain_text_no_nul).
    apply is_prefix_app.
Qed.

Lemma gsmi_parse_memory_quoted (comma : bool) (e : gsm_dev_mem_map_t)
    (rest : cstr) :
  mem_map_distinct -> In e gsm_dev_mem_map ->
  gsmi_parse_memory (mem_token comma e rest) = (mem_id e, rest).
Proof.
  intros Hd Hin.
  pose proof (proj1 (List.Forall_forall _ _) (proj1 Hd) e Hin)
    as (_ & _ & Hid).
  unfold gsmi_parse_memory, mem_token.
  assert (Hskip : skip_char QUOTE (skip_char ","
                    (opt_char comma "," ++ QUOTE :: mem_str e ++ QUOTE :: rest))
                  = mem_str e ++ QUOTE :: rest).
  { destruct comma; reflexivity. }
  rewrite Hskip, mem_scan_token by assumption.
  apply Z.eqb_neq in Hid. rewrite Hid.
  now rewrite skip_char_hit.
Qed.

(** X13: with a device memory table whose literals are plain, distinct and
    prefix-free in table order, [gsmi_parse_memory] on a quoted memory of
    the table (behind an optional comma) returns the identifier of that
    memory and leaves the cursor right after the closing quote. *)
Theorem gsmi_parse_memory_token (comma : bool) (e : gsm_dev_mem_map_t)
    (rest : cstr) :
  mem_map_distinct -> In e gsm_dev_mem_map ->
  gsmi_parse_memory (mem_token comma e rest) = (mem_id e, rest).
Proof. apply gsmi_parse_memory_quoted. Qed.

End MemoryTokens.

Lemma sample_map_distinct : mem_map_distinct (hdr := sample_hdr).
Proof.
  split.
  - repeat constructor; simpl; discriminate.
  - intros i j e1 e2 Hij H1 H2.
    do 5 (destruct i as [|i]; [do 6 (destruct j as [|j];
            [first [lia | injection H1 as <-; injection H2 as <-; reflexivity
                   | discriminate H2]|]); discriminate H2|]).
    discriminate H1.
Qed.

Lemma gsmi_parse_memory_token_witness :
  gsmi_parse_memory (hdr := sample_hdr)
    (","%char :: QUOTE :: lit "ME" ++ QUOTE :: lit ",10,20")
  = (1, lit ",10,20").
Proof.
  apply (gsmi_parse_memory_token (hdr := sample_hdr) true
           {| mem_id := 1; mem_str := lit "ME" |} (lit ",10,20")).
  - exact sample_map_distinct.
  - simpl. auto.
Defined.

Lemma mem_bit_pow2 (mem : Z) : 0 <= mem < 32 -> mem_bit mem = 2 ^ mem.
Proof.
  intros Hm. unfold mem_bit, GSM_U32.
  rewrite (Z.mod_small mem) by lia.
  rewrite Z.shiftl_1_l. apply Z.mod_small.
  split; [apply Z.pow_nonneg; lia | apply Z.pow_lt_mono_r; lia].
Qed.

Section MemoryLists.
Context {hdr : gsm_hdr}.

Lemma mem_list_tail_length (es : list gsm_dev_mem_map_t) (tail : cstr) :
  (length es <= length (mem_list_tail es tail))%nat.
Proof.
  induction es as [|e es IH]; simpl; [lia|].
  rewrite length_app. simpl. lia.
Qed.

Lemma memories_loop_list (fuel : nat) (comma : bool) (e : gsm_dev_mem_map_t)
    (es : list gsm_dev_mem_map_t) (tail : cstr) (mask : Z) :
  mem_map_distinct ->
  Forall (fun x => In x gsm_dev_mem_map) (e :: es) ->
  (length es < fuel)%nat ->
  memories_loop fuel (mem_token comma e (mem_list_tail es (")"%char :: tail)))
    mask
  = Some (")"%char :: tail, mem_mask mask (e :: es)).
Proof.
  intros Hd. revert fuel comma e mask.
  induction es as [|e2 es IH]; intros fuel comma e mask Hin Hfuel;
    (destruct fuel as [|fuel]; [simpl in Hfuel; lia|]);
    inversion Hin as [|? ? He Hes]; subst;
    cbn [memories_loop mem_list_tail];
    rewrite gsmi_parse_memory_quoted by assumption.
  - reflexivity.
  - unfold mem_token at 1. cbn [opt_char app deref]. simpl negb. cbv iota.
    change (","%char :: QUOTE :: mem_str e2 ++ QUOTE
              :: mem_list_tail es (")"%char :: tail))
      with (mem_token true e2 (mem_list_tail es (")"%char :: tail))).
    rewrite IH; [reflexivity | assumption | simpl in Hfuel; lia].
Qed.

Lemma gsmi_parse_memories_string_text (comma : bool) (e : gsm_dev_mem_map_t)
    (es : list gsm_dev_mem_map_t) (tail : cstr) :
  mem_map_distinct ->
  Forall (fun x => In x gsm_dev_mem_map) (e :: es) ->
  gsmi_parse_memories_string (opt_char comma "," ++ mem_list_text e es tail)
  = Some (1, tail, mem_mask 0 (e :: es)).
Proof.
  intros Hd Hin. unfold gsmi_parse_memories_string.
  assert (Hskip : skip_char "(" (skip_char ","
                    (opt_char comma "," ++ mem_list_text e es tail))
                  = mem_token false e (mem_list_tail es (")"%char :: tail))).
  { destruct comma; reflexivity. }
  rewrite Hskip.
  rewrite (memories_loop_list _ false e es tail 0 Hd Hin).
  - now rewrite skip_char_hit.
  - pose proof (mem_list_tail_length es (")"%char :: tail)).
    unfold mem_token. simpl. rewrite length_app. simpl. lia.
Qed.

Lemma mem_mask_bits (es : list gsm_dev_mem_map_t) (mask k : Z) :
  Forall (fun e => 0 <= mem_id e < 32) es ->
  Z.testbit (mem_mask mask es) k = true
  <-> Z.testbit mask k = true \/ exists e, In e es /\ mem_id e = k.
Proof.
  intros Hes. revert mask.
  induction Hes as [|e es He _ IH]; intros mask; unfold mem_mask; simpl.
  - split; [now left | intros [H | (e & [] & _)]; exact H].
  - fold (mem_mask (Z.lor mask (mem_bit (mem_id e))) es).
    rewrite IH, Z.lor_spec, orb_true_iff, mem_bit_pow2 by assumption.
    rewrite Z.pow2_bits_eqb by lia. rewrite Z.eqb_eq.
    split.
    + intros [[H | H] | (e' & Hin & H)]; eauto.
    + intros [H | (e' & [<- | Hin] & H)]; eauto.
Qed.

(** X14: [gsmi_parse_memories_string] reads a bracketed list of quoted
    memories of the table (at least one, behind an optional comma): it
    returns 1 with the cursor after the closing bracket, and the mask has
    exactly the bits of the identifiers of the listed memories. *)
Theorem gsmi_parse_memories_string_list (comma : bool)
    (e : gsm_dev_mem_map_t) (es : list gsm_dev_mem_map_t) (tail : cstr) :
  mem_map_distinct -> mem_map_ok ->
  Forall (fun x => In x gsm_dev_mem_map) (e :: es) ->
  exists mask,
    gsmi_parse_memories_string (opt_char comma "," ++ mem_list_text e es tail)
    = Some (1, tail, mask)
    /\ forall k, Z.testbit mask k = true
                 <-> exists x, In x (e :: es) /\ mem_id x = k.
Proof.
  intros Hd [Hok _] Hin. exists (mem_mask 0 (e :: es)). split.
  - now apply gsmi_parse_memories_string_text.
  - intros k. rewrite mem_mask_bits.
    + rewrite Z.bits_0. split; [intros [H | H]; [discriminate H | exact H]|].
      now right.
    + apply List.Forall_forall. intros x Hx.
      apply (proj1 (List.Forall_forall _ _) Hin) in Hx.
      now apply (proj1 (List.Forall_forall _ _) Hok) in Hx.
Qed.

End MemoryLists.

Lemma sample_map_ok : mem_map_ok (hdr := sample_hdr).
Proof. split; [|simpl; lia]. repeat constructor; simpl; (discriminate || lia). Qed.

Lemma gsmi_parse_memories_string_list_witness :
  exists mask,
    gsmi_parse_memories_string (hdr := sample_hdr)
      ("("%char :: QUOTE :: lit "SM" ++ QUOTE :: ","%char :: QUOTE :: lit "MT"
       ++ QUOTE :: lit "),x")
    = Some (1, lit ",x", mask)
    /\ Z.testbit mask 2 = true.
Proof.
  destruct (gsmi_parse_memories_string_list (hdr := sample_hdr) false
              {| mem_id := 0; mem_str := lit "SM" |}
              [ {| mem_id := 2; mem_str := lit "MT" |} ] (lit ",x")
              sample_map_distinct sample_map_ok) as (mask & E & Hbits).
  - constructor; [simpl; auto|].
    constructor; [simpl; auto 10 | constructor].
  - exists mask. split; [exact E|].
    apply Hbits. eexists. split; [right; left; reflexivity | reflexivity].
Defined.

(** ** The lines on the SMS memory pools *)

(** A printed number behind an optional comma. *)
Lemma gsmi_parse_number_print_comma (comma : bool) (n : Z) (rest : cstr) :
  0 <= n ->
  GSM_CHARISNUM (deref rest) = false ->
  gsmi_parse_number (opt_char comma "," ++ print_dec n ++ rest)
  = (int32 n, skip_char "," rest).
Proof.
  intros Hn Hrest.
  destruct (print_dec_spec n Hn) as (Hne & Hds & Hval).
  pose proof (gsmi_parse_number_wrap false comma false false false false false
                (print_dec n) rest) as E.
  unfold number_input, lead in E. simpl in E.
  rewrite app_nil_r in E.
  rewrite E, Hval; [reflexivity|].
  split; [assumption | split; [assumption | intros _ Hnil; congruence]].
Qed.

Lemma gsmi_parse_number_after_comma (n : Z) (rest : cstr) :
  0 <= n ->
  GSM_CHARISNUM (deref rest) = false ->
  gsmi_parse_number (","%char :: print_dec n ++ rest)
  = (int32 n, skip_char "," rest).
Proof. apply (gsmi_parse_number_print_comma true). Qed.

Lemma counter_read (n : Z) : counter n -> GSM_U32 (int32 n) = n.
Proof.
  intros Hn. rewrite GSM_U32_int32. unfold GSM_U32. now apply Z.mod_small.
Qed.

Lemma digits_no_plus (n : Z) (rest : cstr) :
  0 <= n -> skip_keyword (print_dec n ++ rest) = print_dec n ++ rest.
Proof.
  intros Hn.
  destruct (print_dec_spec n Hn) as (Hne & Hds & _).
  pose proof (digit_head _ rest Hne Hds) as Hd.
  apply digit_not_lead, is_lead_char_false in Hd as (_ & _ & _ & _ & E & _).
  unfold skip_keyword. now rewrite E.
Qed.

Section Pools.
Context {hdr : gsm_hdr}.

(** X15: [gsmi_parse_cpms] with option 0 reads the line that lists the
    memories of the three SMS pools, three bracketed lists of memories of
    the table with a comma between them: it returns 1 and stores in each
    pool the mask of its list, leaving the other members of the pools. *)
Theorem gsmi_parse_cpms_list (kw : bool) (e1 e2 e3 : gsm_dev_mem_map_t)
    (es1 es2 es3 : list gsm_dev_mem_map_t) (tail : cstr) (g : gsm_t)
    (a b c : gsm_sms_mem_t) :
  mem_map_distinct ->
  Forall (fun x => In x gsm_dev_mem_map) ((e1 :: es1) ++ (e2 :: es2) ++ e3 :: es3) ->
  sms_mems g = [a; b; c] ->
  gsmi_parse_cpms (cpms_list_line kw e1 e2 e3 es1 es2 es3 tail) 0 g
  = Some (1, set_sms_mems
               [ set_mem_available (mem_mask 0 (e1 :: es1)) a;
                 set_mem_available (mem_mask 0 (e2 :: es2)) b;
                 set_mem_available (mem_mask 0 (e3 :: es3)) c ] g).
Proof.
  intros Hd Hin Hg.
  apply Forall_app in Hin as [H1 Hin]. apply Forall_app in Hin as [H2 H3].
  unfold gsmi_parse_cpms, cpms_list_line. rewrite Z.eqb_refl.
  assert (Hkw : forall x, skip_keyword ((if kw then lit "+CPMS: " else [])
                                        ++ mem_list_text e1 es1 x)
                          = mem_list_text e1 es1 x).
  { intros x. destruct kw; reflexivity. }
  rewrite Hkw. cbn [cpms_opt_loop].
  pose proof (fun x => gsmi_parse_memories_string_text false e1 es1 x Hd H1)
    as E1.
  pose proof (fun x => gsmi_parse_memories_string_text true e2 es2 x Hd H2)
    as E2.
  pose proof (fun x => gsmi_parse_memories_string_text true e3 es3 x Hd H3)
    as E3.
  cbn [opt_char app] in E1, E2, E3.
  rewrite E1. cbv beta iota. change (1 =? 0) with false. cbv iota.
  rewrite E2. cbv beta iota. change (1 =? 0) with false. cbv iota.
  rewrite E3. cbv beta iota. change (1 =? 0) with false. cbv iota.
  cbn [sms_mems set_sms_mems]. rewrite Hg. reflexivity.
Qed.

Lemma pool_read (comma : bool) (e : gsm_dev_mem_map_t) (u t : Z)
    (rest : cstr) :
  mem_map_distinct -> In e gsm_dev_mem_map -> counter u -> counter t ->
  GSM_CHARISNUM (deref rest) = false ->
  gsmi_parse_memory (pool_text comma e u t rest)
  = (mem_id e, ","%char :: print_dec u ++ ","%char :: print_dec t ++ rest)
  /\ gsmi_parse_number (","%char :: print_dec u ++ ","%char :: print_dec t ++ rest)
     = (int32 u, print_dec t ++ rest)
  /\ gsmi_parse_number (print_dec t ++ rest) = (int32 t, skip_char "," rest).
Proof.
  intros Hd Hin Hu Ht Hrest. split; [|split].
  - now apply gsmi_parse_memory_quoted.
  - rewrite (gsmi_parse_number_after_comma u) by (apply Hu || reflexivity).
    now rewrite skip_char_hit.
  - apply gsmi_parse_number_print_plain; [apply Ht | assumption].
Qed.

(** X16: [gsmi_parse_cpms] with option 1 reads the line that reports the
    memories in use, for each of the three pools a quoted memory of the
    table, the used and the total number of entries: it returns 1 and
    stores the identifier and the two counters in each pool, leaving the
    masks of the available memories. *)
Theorem gsmi_parse_cpms_get (kw : bool) (e1 e2 e3 : gsm_dev_mem_map_t)
    (u1 t1 u2 t2 u3 t3 : Z) (tail : cstr) (g : gsm_t)
    (a b c : gsm_sms_mem_t) :
  mem_map_distinct ->
  Forall (fun x => In x gsm_dev_mem_map) [e1; e2; e3] ->
  Forall counter [u1; t1; u2; t2; u3; t3] ->
  sms_mems g = [a; b; c] ->
  gsmi_parse_cpms (cpms_get_line kw e1 e2 e3 u1 t1 u2 t2 u3 t3 tail) 1 g
  = Some (1, set_sms_mems
               [ {| mem_available := mem_available a; current := mem_id e1;
                    used := u1; total := t1 |};
                 {| mem_available := mem_available b; current := mem_id e2;
                    used := u2; total := t2 |};
                 {| mem_available := mem_available c; current := mem_id e3;
                    used := u3; total := t3 |} ] g).
Proof.
  intros Hd Hin Hn Hg.
  inversion Hin as [|? ? He1 Hin2]; subst.
  inversion Hin2 as [|? ? He2 Hin3]; subst.
  inversion Hin3 as [|? ? He3 _]; subst.
  inversion Hn as [|? ? Hu1 Hn1]; subst. inversion Hn1 as [|? ? Ht1 Hn2]; subst.
  inversion Hn2 as [|? ? Hu2 Hn3]; subst. inversion Hn3 as [|? ? Ht2 Hn4]; subst.
  inversion Hn4 as [|? ? Hu3 Hn5]; subst. inversion Hn5 as [|? ? Ht3 _]; subst.
  unfold gsmi_parse_cpms, cpms_get_line.
  change (1 =? 0) with false. change (1 =? 1) with true. cbv iota.
  assert (Hkw : forall x, skip_keyword ((if kw then lit "+CPMS: " else [])
                                        ++ pool_text false e1 u1 t1 x)
                          = pool_text false e1 u1 t1 x).
  { intros x. destruct kw; reflexivity. }
  rewrite Hkw. cbn [cpms_get_loop].
  destruct (pool_read false e1 u1 t1
              (pool_text true e2 u2 t2 (pool_text true e3 u3 t3 (CR :: tail)))
              Hd He1 Hu1 Ht1 eq_refl) as (-> & -> & ->).
  change (skip_char "," (pool_text true e2 u2 t2 ?r))
    with (pool_text false e2 u2 t2 r).
  destruct (pool_read false e2 u2 t2 (pool_text true e3 u3 t3 (CR :: tail))
              Hd He2 Hu2 Ht2 eq_refl) as (-> & -> & ->).
  change (skip_char "," (pool_text true e3 u3 t3 ?r))
    with (pool_text false e3 u3 t3 r).
  destruct (pool_read false e3 u3 t3 (CR :: tail) Hd He3 Hu3 Ht3 eq_refl)
    as (-> & -> & ->).
  cbn [sms_mems set_sms_mems snd]. rewrite Hg.
  rewrite !counter_read by assumption.
  reflexivity.
Qed.

(** X17: [gsmi_parse_cpms] with option 2 reads the line that answers the
    selection of memories, the used and the total number of entries of
    the three pools: it returns 1 and stores the six counters, leaving
    the memory in use and the mask of each pool. *)
Theorem gsmi_parse_cpms_set (kw : bool) (u1 t1 u2 t2 u3 t3 : Z)
    (tail : cstr) (g : gsm_t) (a b c : gsm_sms_mem_t) :
  Forall counter [u1; t1; u2; t2; u3; t3] ->
  sms_mems g = [a; b; c] ->
  gsmi_parse_cpms (cpms_set_line kw u1 t1 u2 t2 u3 t3 tail) 2 g
  = Some (1, set_sms_mems
               [ {| mem_available := mem_available a; current := current a;
                    used := u1; total := t1 |};
                 {| mem_available := mem_available b; current := current b;
                    used := u2; total := t2 |};
                 {| mem_available := mem_available c; current := current c;
                    used := u3; total := t3 |} ] g).
Proof.
  intros Hn Hg.
  inversion Hn as [|? ? Hu1 Hn1]; subst. inversion Hn1 as [|? ? Ht1 Hn2]; subst.
  inversion Hn2 as [|? ? Hu2 Hn3]; subst. inversion Hn3 as [|? ? Ht2 Hn4]; subst.
  inversion Hn4 as [|? ? Hu3 Hn5]; subst. inversion Hn5 as [|? ? Ht3 _]; subst.
  unfold gsmi_parse_cpms, cpms_set_line.
  change (2 =? 0) with false. change (2 =? 1) with false.
  change (2 =? 2) with true. cbv iota.
  assert (Hkw : forall x, skip_keyword ((if kw then lit "+CPMS: " else [])
                                        ++ print_dec u1 ++ x)
                          = print_dec u1 ++ x).
  { intros x. destruct kw; [reflexivity|]. apply digits_no_plus, Hu1. }
  rewrite Hkw. cbn [cpms_set_loop].
  rewrite (gsmi_parse_number_print_plain u1) by (apply Hu1 || reflexivity).
  rewrite skip_char_hit.
  rewrite (gsmi_parse_number_print_plain t1) by (apply Ht1 || reflexivity).
  rewrite skip_char_hit.
  rewrite (gsmi_parse_number_print_plain u2) by (apply Hu2 || reflexivity).
  rewrite skip_char_hit.
  rewrite (gsmi_parse_number_print_plain t2) by (apply Ht2 || reflexivity).
  rewrite skip_char_hit.
  rewrite (gsmi_parse_number_print_plain u3) by (apply Hu3 || reflexivity).
  rewrite skip_char_hit.
  rewrite (gsmi_parse_number_print_plain t3) by (apply Ht3 || reflexivity).
  cbn [sms_mems set_sms_mems snd]. rewrite Hg.
  rewrite !counter_read by assumption.
  reflexivity.
Qed.

End Pools.


Lemma gsmi_parse_cpms_list_witness :
  gsmi_parse_cpms (hdr := sample_hdr)
    (cpms_list_line true sample_SM sample_SM sample_MT [sample_ME] [] []
       [CR; LF]) 0 gsm_three_pools
  = Some (1, set_sms_mems
               [ set_mem_available 3 blank_pool;
                 set_mem_available 1 blank_pool;
                 set_mem_available 4 blank_pool ] gsm_three_pools).
Proof.
  apply (gsmi_parse_cpms_list (hdr := sample_hdr) true sample_SM sample_SM
           sample_MT [sample_ME] [] [] [CR; LF] gsm_three_pools
           blank_pool blank_pool blank_pool sample_map_distinct).
  - repeat (constructor; [simpl; auto 10|]). constructor.
  - reflexivity.
Defined.

Lemma gsmi_parse_cpms_get_witness :
  gsmi_parse_cpms (hdr := sample_hdr)
    (cpms_get_line true sample_ME sample_SM sample_SM 10 20 2 25 3 25 [LF])
    1 gsm_three_pools
  = Some (1, set_sms_mems
               [ {| mem_available := 0; current := 1; used := 10; total := 20 |};
                 {| mem_available := 0; current := 0; used := 2; total := 25 |};
                 {| mem_available := 0; current := 0; used := 3; total := 25 |} ]
               gsm_three_pools).
Proof.
  apply (gsmi_parse_cpms_get (hdr := sample_hdr) true sample_ME sample_SM
           sample_SM 10 20 2 25 3 25 [LF] gsm_three_pools
           blank_pool blank_pool blank_pool sample_map_distinct).
  - repeat (constructor; [simpl; auto 10|]). constructor.
  - repeat (constructor; [unfold counter; lia|]). constructor.
  - reflexivity.
Defined.

Lemma gsmi_parse_cpms_set_witness :
  gsmi_parse_cpms (hdr := sample_hdr)
    (cpms_set_line true 10 20 2 25 3 25 [LF]) 2 gsm_three_pools
  = Some (1, set_sms_mems
               [ {| mem_available := 0; current := 0; used := 10; total := 20 |};
                 {| mem_available := 0; current := 0; used := 2; total := 25 |};
                 {| mem_available := 0; current := 0; used := 3; total := 25 |} ]
               gsm_three_pools).
Proof.
  apply (gsmi_parse_cpms_set (hdr := sample_hdr) true 10 20 2 25 3 25 [LF]
           gsm_three_pools blank_pool blank_pool blank_pool).
  - repeat (constructor; [unfold counter; lia|]). constructor.
  - reflexivity.
Defined.

(** ** Lines that fill an entry *)

Lemma skip_keyword_digits (kw : cstr) (n : Z) (rest : cstr) :
  response_keyword kw -> 0 <= n ->
  skip_keyword (kw ++ print_dec n ++ rest) = print_dec n ++ rest.
Proof.
  intros [-> | [Hlen Hplus]] Hn.
  - now apply digits_no_plus.
  - unfold skip_keyword.
    destruct kw as [|c kw]; [discriminate Hlen|].
    simpl in Hplus. subst c. simpl deref. rewrite Ascii.eqb_refl.
    unfold advance. rewrite <- Hlen. apply drop_app_length.
Qed.

Lemma skip_keyword_quote (kw : cstr) (rest : cstr) :
  response_keyword kw ->
  skip_keyword (kw ++ QUOTE :: rest) = QUOTE :: rest.
Proof.
  intros [-> | [Hlen Hplus]].
  - reflexivity.
  - unfold skip_keyword.
    destruct kw as [|c kw]; [discriminate Hlen|].
    simpl in Hplus. subst c. simpl deref. rewrite Ascii.eqb_refl.
    unfold advance. rewrite <- Hlen. apply drop_app_length.
Qed.

Lemma parse_string_into_quoted (comma : bool) (body : cstr) (delim : ascii)
    (rest : cstr) (d : list ascii) (dst_len : nat) :
  plain_text body ->
  is_field_end delim = true ->
  (1 <= dst_len <= length d)%nat ->
  exists d',
    parse_string_into (quoted_field comma body delim rest) d dst_len true
    = (delim :: rest, d')
    /\ c_str d' = take (dst_len - 1) body
    /\ length d' = length d.
Proof.
  intros Hbody Hdelim Hlen. unfold parse_string_into.
  destruct (gsmi_parse_string_quoted comma true body delim rest d dst_len
              Hbody Hdelim Hlen) as (d' & -> & Hstr & Hl).
  exists d'. auto.
Qed.

Section EntryLines.
Context {hdr : gsm_hdr}.

Lemma position_read (n : Z) : position n -> GSM_SZ (int32 n) = n.
Proof.
  intros [H1 H2]. rewrite int32_small by lia.
  unfold GSM_SZ. apply Z.mod_small. lia.
Qed.

Lemma cpbr_entry_line (pos : Z) (a : cstr) (ty : Z) (b tail : cstr)
    (e : gsm_pb_entry_t) :
  pb_entry_sized e -> position pos -> 0 <= ty < 2 ^ 31 ->
  plain_text a -> plain_text b ->
  pb_fields_stored pos a ty b (cpbr_entry (pb_line_text pos a ty b tail) e).
Proof.
  intros [Hname Hnumber] Hpos Hty Ha Hb.
  unfold cpbr_entry, pb_line_text.
  rewrite gsmi_parse_number_print_plain by (apply Hpos || reflexivity).
  rewrite skip_char_hit.
  destruct (parse_string_into_quoted false a "," (print_dec ty ++ ","%char
              :: quoted_field false b CR tail) (pb_name e) sizeof_pb_name
              Ha eq_refl Hname) as (d1 & -> & Hs1 & _).
  rewrite gsmi_parse_number_after_comma by (apply Hty || reflexivity).
  rewrite skip_char_hit.
  destruct (parse_string_into_quoted false b CR tail (pb_number e)
              sizeof_pb_number Hb eq_refl Hnumber) as (d2 & -> & Hs2 & _).
  unfold pb_fields_stored. cbn.
  rewrite position_read by assumption.
  rewrite int32_small by lia.
  auto.
Qed.

(** X18: an accepted phonebook line is decoded into the entry at the
    write cursor: [gsmi_parse_cpbr] and [gsmi_parse_cpbf], on a line that
    carries a position, a quoted text, a type and a second quoted text,
    return 1 and leave in that entry the position, the type, and the two
    texts cut to what their buffers hold before the terminator, the first
    text in the member [name] and the second in the member [number]. *)
Theorem phonebook_line_decoded (kw : cstr) (pos : Z) (a : cstr) (ty : Z)
    (b tail : cstr) (g : gsm_t) (m : gsm_msg_t) :
  response_keyword kw ->
  position pos -> 0 <= ty < 2 ^ 31 -> plain_text a -> plain_text b ->
  msg g = Some m ->
  (forall e, cpbr_accepts g = true ->
     entries (pb_list m) !! ei (pb_list m) = Some e -> pb_entry_sized e ->
     exists m' e',
       gsmi_parse_cpbr (kw ++ pb_line_text pos a ty b tail) g
       = (1, set_msg (Some m') g)
       /\ entries (pb_list m') !! ei (pb_list m) = Some e'
       /\ pb_fields_stored pos a ty b e')
  /\ (forall e, cpbf_accepts g = true ->
        entries (pb_search m) !! ei (pb_search m) = Some e ->
        pb_entry_sized e ->
        exists m' e',
          gsmi_parse_cpbf (kw ++ pb_line_text pos a ty b tail) g
          = (1, set_msg (Some m') g)
          /\ entries (pb_search m') !! ei (pb_search m) = Some e'
          /\ pb_fields_stored pos a ty b e').
Proof.
  intros Hkw Hpos Hty Ha Hb Hm.
  assert (Hskip : skip_keyword (kw ++ pb_line_text pos a ty b tail)
                  = pb_line_text pos a ty b tail).
  { unfold pb_line_text. apply skip_keyword_digits; [assumption | apply Hpos]. }
  split; intros e Hacc He Hsized.
  - unfold cpbr_accepts in Hacc. rewrite Hm in Hacc.
    apply andb_true_iff in Hacc as [Hcmd Hroom].
    apply Nat.ltb_lt in Hroom.
    unfold gsmi_parse_cpbr. rewrite Hm, Hcmd. simpl negb.
    destruct (Nat.leb_spec (etr (pb_list m)) (ei (pb_list m))) as [|_]; [lia|].
    simpl orb. cbv iota.
    eexists. eexists. split; [reflexivity|]. split.
    + cbn [pb_list set_pb_list pb_store entries].
      rewrite list_lookup_alter_eq, He. reflexivity.
    + rewrite Hskip. now apply cpbr_entry_line.
  - unfold cpbf_accepts in Hacc. rewrite Hm in Hacc.
    apply andb_true_iff in Hacc as [Hcmd Hroom].
    apply Nat.ltb_lt in Hroom.
    unfold gsmi_parse_cpbf. rewrite Hm, Hcmd. simpl negb.
    destruct (Nat.leb_spec (etr (pb_search m)) (ei (pb_search m))) as [|_]; [lia|].
    simpl orb. cbv iota.
    eexists. eexists. split; [reflexivity|]. split.
    + cbn [pb_search set_pb_search pb_store entries].
      rewrite list_lookup_alter_eq, He. reflexivity.
    + rewrite Hskip. now apply cpbr_entry_line.
Qed.

End EntryLines.

Lemma phonebook_line_decoded_witness :
  exists m' e',
    gsmi_parse_cpbr (hdr := sample_hdr)
      (lit "+CPBR: " ++ pb_line_text 1 (lit "Home") 129 (lit "+38640123456")
                          [LF])
      (gsm_with_cmd GSM_CMD_CPBR 2)
    = (1, set_msg (Some m') (gsm_with_cmd GSM_CMD_CPBR 2))
    /\ entries (pb_list m') !! 0%nat = Some e'
    /\ pb_pos e' = 1 /\ c_str (pb_name e') = lit "Home".
Proof.
  destruct (phonebook_line_decoded (hdr := sample_hdr) (lit "+CPBR: ") 1
              (lit "Home") 129 (lit "+38640123456") [LF]
              (gsm_with_cmd GSM_CMD_CPBR 2)
              {| cmd_def := GSM_CMD_CPBR; cops_get_curr := None;
                 cops_scan := blank_scan 2; sms_list := blank_sms_list 2;
                 pb_list := blank_pb_list 2; pb_search := blank_pb_list 2 |})
    as [Hcpbr _].
  - right. split; reflexivity.
  - split; simpl; lia.
  - lia.
  - repeat constructor; discriminate.
  - repeat constructor; discriminate.
  - reflexivity.
  - destruct (Hcpbr blank_pb_entry) as (m' & e' & E & He & Hpos & Hname & _).
    + reflexivity.
    + reflexivity.
    + split; simpl; lia.
    + exists m', e'. repeat split; assumption.
Defined.

Section Capacity.
Context {hdr : gsm_hdr}.

Lemma gsmi_parse_cpbr_cases (str : cstr) (g : gsm_t) (m : gsm_msg_t) :
  msg g = Some m -> cmd_def m = GSM_CMD_CPBR ->
  ((etr (pb_list m) <= ei (pb_list m))%nat
   /\ gsmi_parse_cpbr str g = (0, g))
  \/ ((ei (pb_list m) < etr (pb_list m))%nat
      /\ gsmi_parse_cpbr str g
         = (1, set_msg (Some (set_pb_list (pb_store str (pb_list m)) m)) g)).
Proof.
  intros Hm Hcmd. unfold gsmi_parse_cpbr. rewrite Hm, Hcmd.
  rewrite bool_decide_eq_true_2 by reflexivity. simpl negb. simpl orb.
  destruct (Nat.leb_spec (etr (pb_list m)) (ei (pb_list m))); [left | right];
    (split; [lia | reflexivity]).
Qed.

(** X19: however many lines of a listing [gsmi_parse_cpbr] is handed while
    a request of its kind is active, it accepts as many as the entry array
    still has room for, and declines the rest: the write cursor stops at
    the declared number of entries, the array keeps its length, and no
    entry outside the accepted range is written. *)
Theorem cpbr_lines_capacity (ls : list cstr) (g : gsm_t) (m : gsm_msg_t) :
  msg g = Some m -> cmd_def m = GSM_CMD_CPBR ->
  let room := (etr (pb_list m) - ei (pb_list m))%nat in
  let k := Nat.min (length ls) room in
  exists m',
    msg (snd (cpbr_lines ls g)) = Some m'
    /\ fst (cpbr_lines ls g) = repeat 1 k ++ repeat 0 (length ls - k)
    /\ ei (pb_list m') = (ei (pb_list m) + k)%nat
    /\ etr (pb_list m') = etr (pb_list m)
    /\ length (entries (pb_list m')) = length (entries (pb_list m))
    /\ forall j : nat,
         (j < ei (pb_list m) \/ ei (pb_list m) + k <= j)%nat ->
         entries (pb_list m') !! j = entries (pb_list m) !! j.
Proof.
  revert g m. induction ls as [|l ls IH]; intros g m Hm Hcmd; cbv zeta.
  - exists m. simpl. rewrite Nat.add_0_r. repeat split; auto.
  - cbn [cpbr_lines length].
    destruct (gsmi_parse_cpbr_cases l g m Hm Hcmd) as [[Hfull ->] | [Hroom ->]].
    + destruct (IH g m Hm Hcmd) as (m' & Em & Er & Hei & Hetr & Hlen & Hfr).
      destruct (cpbr_lines ls g) as [rs g'] eqn:E. simpl in *.
      exists m'.
      replace (etr (pb_list m) - ei (pb_list m))%nat with 0%nat in * by lia.
      rewrite Nat.min_0_r in *. simpl in *.
      rewrite Nat.sub_0_r in Er. rewrite Er.
      split; [exact Em|]. split; [reflexivity|]. split; [exact Hei|].
      split; [exact Hetr|]. split; [exact Hlen | exact Hfr].
    + set (m1 := set_pb_list (pb_store l (pb_list m)) m).
      destruct (IH (set_msg (Some m1) g) m1 eq_refl Hcmd)
        as (m' & Em & Er & Hei & Hetr & Hlen & Hfr).
      destruct (cpbr_lines ls (set_msg (Some m1) g)) as [rs g'] eqn:E.
      cbn [fst snd] in *.
      cbn [m1 pb_list set_pb_list pb_store ei etr entries] in Er, Hei, Hetr,
        Hlen, Hfr.
      exists m'. split; [exact Em|].
      replace (Nat.min (S (length ls))
                 (etr (pb_list m) - ei (pb_list m)))
        with (S (Nat.min (length ls)
                   (etr (pb_list m) - S (ei (pb_list m))))) by lia.
      split; [|split; [|split; [|split]]].
      * rewrite Er. reflexivity.
      * lia.
      * exact Hetr.
      * now rewrite Hlen, length_alter.
      * intros j Hj. rewrite Hfr by lia.
        apply list_lookup_alter_ne. lia.
Qed.

End Capacity.

Lemma cpbr_lines_capacity_witness :
  exists m',
    msg (snd (cpbr_lines (hdr := sample_hdr) [cpbr_line; cpbr_line; cpbr_line]
                (gsm_with_cmd GSM_CMD_CPBR 2))) = Some m'
    /\ fst (cpbr_lines (hdr := sample_hdr) [cpbr_line; cpbr_line; cpbr_line]
              (gsm_with_cmd GSM_CMD_CPBR 2)) = [1; 1; 0]
    /\ ei (pb_list m') = 2%nat.
Proof.
  destruct (cpbr_lines_capacity (hdr := sample_hdr)
              [cpbr_line; cpbr_line; cpbr_line] (gsm_with_cmd GSM_CMD_CPBR 2)
              {| cmd_def := GSM_CMD_CPBR; cops_get_curr := None;
                 cops_scan := blank_scan 2; sms_list := blank_sms_list 2;
                 pb_list := blank_pb_list 2; pb_search := blank_pb_list 2 |}
              eq_refl eq_refl) as (m' & Em & Er & Hei & _).
  exists m'. split; [exact Em|]. split; [exact Er | exact Hei].
Defined.

Section SmsLines.
Context {hdr : gsm_hdr}.

(** The four scanner calls that [gsmi_parse_cmgl] and [gsmi_parse_cmgr]
    share, on the fields of an SMS line. *)
Lemma sms_fields_read (st number name : cstr) (dd mm yy hh mi ss : Z)
    (tail : cstr) (e : gsm_sms_entry_t) :
  sms_entry_sized e ->
  plain_text st -> plain_text number -> plain_text name ->
  Forall two_digits [dd; mm; yy; hh; mi; ss] ->
  GSM_CHARISNUM (deref tail) = false ->
  exists (r : Z) (d1 d2 : list ascii),
    gsmi_parse_sms_status
      (sms_fields_text st number name dd mm yy hh mi ss tail) (sms_status e)
    = (r, ","%char :: quoted_field false number ","
            (quoted_field false name ","
               (datetime_text false true dd mm yy hh mi ss tail)),
       status_after st (sms_status e))
    /\ parse_string_into
         (","%char :: quoted_field false number ","
            (quoted_field false name ","
               (datetime_text false true dd mm yy hh mi ss tail)))
         (sms_number e) sizeof_sms_number true
       = (","%char :: quoted_field false name ","
            (datetime_text false true dd mm yy hh mi ss tail), d1)
    /\ c_str d1 = take (sizeof_sms_number - 1) number
    /\ parse_string_into
         (","%char :: quoted_field false name ","
            (datetime_text false true dd mm yy hh mi ss tail))
         (sms_name e) sizeof_sms_name true
       = (","%char :: datetime_text false true dd mm yy hh mi ss tail, d2)
    /\ c_str d2 = take (sizeof_sms_name - 1) name
    /\ gsmi_parse_datetime
         (","%char :: datetime_text false true dd mm yy hh mi ss tail)
         (sms_datetime e)
       = (1, gsmi_check_and_trim (skip_char "," tail),
          {| date := dd; month := mm; year := 2000 + yy;
             day := day (sms_datetime e);
             hours := hh; minutes := mi; seconds := ss |}).
Proof.
  intros [Hnumber Hname] Hst Hnum Hnam Hdt Htail.
  inversion Hdt as [|? ? Hdd H1]; subst. inversion H1 as [|? ? Hmm H2]; subst.
  inversion H2 as [|? ? Hyy H3]; subst. inversion H3 as [|? ? Hhh H4]; subst.
  inversion H4 as [|? ? Hmi H5]; subst. inversion H5 as [|? ? Hss _]; subst.
  destruct (parse_string_into_quoted true number ","
              (quoted_field false name ","
                 (datetime_text false true dd mm yy hh mi ss tail))
              (sms_number e) sizeof_sms_number Hnum eq_refl Hnumber)
    as (d1 & E1 & Hs1 & _).
  destruct (parse_string_into_quoted true name ","
              (datetime_text false true dd mm yy hh mi ss tail)
              (sms_name e) sizeof_sms_name Hnam eq_refl Hname)
    as (d2 & E2 & Hs2 & _).
  exists (match sms_status_of_token (take 10 st) with Some _ => 1 | None => 0 end),
    d1, d2.
  split; [|split; [exact E1 | split; [exact Hs1 | split; [exact E2 |
           split; [exact Hs2|]]]]].
  - unfold sms_fields_text. rewrite gsmi_parse_sms_status_quoted by auto.
    unfold status_after. now destruct (sms_status_of_token (take 10 st)).
  - exact (gsmi_parse_datetime_text true true dd mm yy hh mi ss tail
             (sms_datetime e) Hdd Hmm Hyy Hhh Hmi Hss Htail).
Qed.

Lemma cmgl_entry_line (pos : Z) (st number name : cstr)
    (dd mm yy hh mi ss : Z) (tail : cstr) (mem : Z) (e : gsm_sms_entry_t) :
  sms_entry_sized e -> position pos ->
  plain_text st -> plain_text number -> plain_text name ->
  Forall two_digits [dd; mm; yy; hh; mi; ss] ->
  GSM_CHARISNUM (deref tail) = false ->
  let e' := cmgl_entry (print_dec pos ++ ","%char
                        :: sms_fields_text st number name dd mm yy hh mi ss tail)
              mem e in
  sms_mem e' = mem /\ sms_pos e' = pos
  /\ sms_fields_stored st number name dd mm yy hh mi ss e e'.
Proof.
  intros Hsized Hpos Hst Hnum Hnam Hdt Htail.
  destruct (sms_fields_read st number name dd mm yy hh mi ss tail e Hsized
              Hst Hnum Hnam Hdt Htail)
    as (r & d1 & d2 & E0 & E1 & Hs1 & E2 & Hs2 & E3).
  cbv zeta. unfold cmgl_entry.
  rewrite gsmi_parse_number_print_plain by (apply Hpos || reflexivity).
  rewrite skip_char_hit, E0, E1, E2, E3.
  unfold sms_fields_stored. cbn.
  rewrite position_read by assumption.
  repeat split; (assumption || reflexivity).
Qed.

(** X20: an accepted SMS list line is decoded into the entry at the write
    cursor: on a line that carries a position, a quoted status, number and
    name, and a quoted date and time, [gsmi_parse_cmgl] returns 1 and
    leaves in that entry the memory of the request, the position, the
    status the first ten characters of the token stand for (the old one
    when they stand for none), the two texts cut to what their buffers
    hold, and the date and time with the year counted from 2000. *)
Theorem gsmi_parse_cmgl_line (kw : cstr) (pos : Z) (st number name : cstr)
    (dd mm yy hh mi ss : Z) (tail : cstr) (g : gsm_t) (m : gsm_msg_t)
    (e : gsm_sms_entry_t) :
  response_keyword kw -> position pos ->
  plain_text st -> plain_text number -> plain_text name ->
  Forall two_digits [dd; mm; yy; hh; mi; ss] ->
  GSM_CHARISNUM (deref tail) = false ->
  msg g = Some m -> cmgl_accepts g = true ->
  sl_entries (sms_list m) !! sl_ei (sms_list m) = Some e ->
  sms_entry_sized e ->
  exists m' e',
    gsmi_parse_cmgl
      (kw ++ print_dec pos ++ ","%char
          :: sms_fields_text st number name dd mm yy hh mi ss tail) g
    = (1, set_msg (Some m') g)
    /\ sl_entries (sms_list m') !! sl_ei (sms_list m) = Some e'
    /\ sms_mem e' = sl_mem (sms_list m) /\ sms_pos e' = pos
    /\ sms_fields_stored st number name dd mm yy hh mi ss e e'.
Proof.
  intros Hkw Hpos Hst Hnum Hnam Hdt Htail Hm Hacc He Hsized.
  unfold cmgl_accepts in Hacc. rewrite Hm in Hacc.
  apply andb_true_iff in Hacc as [Hcmd Hroom].
  apply Nat.ltb_lt in Hroom.
  unfold gsmi_parse_cmgl. rewrite Hm, Hcmd. simpl negb.
  destruct (Nat.leb_spec (sl_etr (sms_list m)) (sl_ei (sms_list m))) as [|_];
    [lia|].
  simpl orb. cbv iota.
  rewrite skip_keyword_digits by (assumption || apply Hpos).
  eexists. eexists. split; [reflexivity|]. split.
  - cbn [sms_list set_sms_list sl_entries].
    rewrite list_lookup_alter_eq, He. reflexivity.
  - now apply cmgl_entry_line.
Qed.

(** X21: [gsmi_parse_cmgr] decodes the line of a single SMS, a quoted
    status, number and name, and a quoted date and time, into the entry
    of the request: it returns 1, leaves the memory and the position of
    the entry as they were, and stores the status, the two texts and the
    date and time as [gsmi_parse_cmgl] does. *)
Theorem gsmi_parse_cmgr_line (kw : cstr) (st number name : cstr)
    (dd mm yy hh mi ss : Z) (tail : cstr) (e : gsm_sms_entry_t) :
  response_keyword kw ->
  plain_text st -> plain_text number -> plain_text name ->
  Forall two_digits [dd; mm; yy; hh; mi; ss] ->
  GSM_CHARISNUM (deref tail) = false ->
  sms_entry_sized e ->
  exists e',
    gsmi_parse_cmgr
      (kw ++ sms_fields_text st number name dd mm yy hh mi ss tail) e
    = (1, e')
    /\ sms_mem e' = sms_mem e /\ sms_pos e' = sms_pos e
    /\ sms_fields_stored st number name dd mm yy hh mi ss e e'.
Proof.
  intros Hkw Hst Hnum Hnam Hdt Htail Hsized.
  destruct (sms_fields_read st number name dd mm yy hh mi ss tail e Hsized
              Hst Hnum Hnam Hdt Htail)
    as (r & d1 & d2 & E0 & E1 & Hs1 & E2 & Hs2 & E3).
  unfold gsmi_parse_cmgr.
  unfold sms_fields_text at 1, quoted_field at 1. cbn [opt_char app].
  rewrite skip_keyword_quote by assumption.
  change (QUOTE :: st ++ QUOTE :: ","%char :: ?x)
    with (quoted_field false st "," x).
  fold (sms_fields_text st number name dd mm yy hh mi ss tail).
  rewrite E0, E1, E2, E3.
  eexists. split; [reflexivity|].
  unfold sms_fields_stored. cbn.
  repeat split; (assumption || reflexivity).
Qed.

End SmsLines.

Lemma gsmi_parse_cmgl_line_witness :
  exists m' e',
    gsmi_parse_cmgl (hdr := sample_hdr)
      (lit "+CMGL: " ++ print_dec 3 ++ ","%char
         :: sms_fields_text (lit "REC READ") (lit "+38640123456") (lit "Ann")
              18 3 21 10 15 30 (lit "+04" ++ [QUOTE; CR; LF]))
      (gsm_with_cmd GSM_CMD_CMGL 2)
    = (1, set_msg (Some m') (gsm_with_cmd GSM_CMD_CMGL 2))
    /\ sl_entries (sms_list m') !! 0%nat = Some e'
    /\ sms_pos e' = 3
    /\ sms_status e' = GSM_SMS_STATUS_READ
    /\ c_str (sms_name e') = lit "Ann".
Proof.
  destruct (gsmi_parse_cmgl_line (hdr := sample_hdr) (lit "+CMGL: ") 3
              (lit "REC READ") (lit "+38640123456") (lit "Ann")
              18 3 21 10 15 30 (lit "+04" ++ [QUOTE; CR; LF])
              (gsm_with_cmd GSM_CMD_CMGL 2)
              {| cmd_def := GSM_CMD_CMGL; cops_get_curr := None;
                 cops_scan := blank_scan 2; sms_list := blank_sms_list 2;
                 pb_list := blank_pb_list 2; pb_search := blank_pb_list 2 |}
              blank_sms_entry)
    as (m' & e' & E & He & _ & Hpos & Hstat & _ & Hname & _).
  - right. split; reflexivity.
  - split; simpl; lia.
  - repeat constructor; discriminate.
  - repeat constructor; discriminate.
  - repeat constructor; discriminate.
  - repeat (constructor; [unfold two_digits; lia|]). constructor.
  - reflexivity.
  - reflexivity.
  - reflexivity.
  - reflexivity.
  - split; simpl; lia.
  - exists m', e'. repeat split; assumption.
Defined.

Lemma gsmi_parse_cmgr_line_witness :
  exists e',
    gsmi_parse_cmgr (hdr := sample_hdr)
      (lit "+CMGR: "
       ++ sms_fields_text (lit "REC UNREAD") (lit "+38640123456") (lit "Ann")
            18 3 21 10 15 30 (lit "+04" ++ [QUOTE; CR; LF]))
      blank_sms_entry
    = (1, e')
    /\ sms_status e' = GSM_SMS_STATUS_UNREAD
    /\ c_str (sms_number e') = lit "+38640123456".
Proof.
  destruct (gsmi_parse_cmgr_line (hdr := sample_hdr) (lit "+CMGR: ")
              (lit "REC UNREAD") (lit "+38640123456") (lit "Ann")
              18 3 21 10 15 30 (lit "+04" ++ [QUOTE; CR; LF]) blank_sms_entry)
    as (e' & E & _ & _ & Hstat & Hnumber & _).
  - right. split; reflexivity.
  - repeat constructor; discriminate.
  - repeat constructor; discriminate.
  - repeat constructor; discriminate.
  - repeat (constructor; [unfold two_digits; lia|]). constructor.
  - reflexivity.
  - split; simpl; lia.
  - exists e'. repeat split; assumption.
Defined.

(** ** The current operator by name *)

Section CopsNames.
Context {hdr : gsm_hdr}.

Lemma cops_payload_name (lg : bool) (name tail : cstr)
    (o : gsm_operator_curr_t) :
  format_name_ok lg -> plain_text name ->
  format o = name_format lg ->
  (1 <= sizeof_data_name lg <= length (data_name lg o))%nat ->
  let o' := cops_payload (quoted_field false name CR tail) o in
  c_str (data_name lg o') = take (sizeof_data_name lg - 1) name
  /\ mode o' = mode o /\ format o' = format o.
Proof.
  intros (_ & _ & Hdiff) Hname Hfmt Hsize. cbv zeta.
  unfold cops_payload. rewrite Hfmt.
  destruct lg; cbn [name_format data_name sizeof_data_name] in *.
  - rewrite Z.eqb_refl.
    destruct (parse_string_into_quoted false name CR tail (data_long_name o)
                sizeof_curr_long_name Hname eq_refl Hsize) as (d' & -> & Hs & _).
    cbn. auto.
  - destruct (Z.eqb_spec GSM_OPERATOR_FORMAT_SHORT_NAME
                GSM_OPERATOR_FORMAT_LONG_NAME) as [E | _];
      [now destruct (Hdiff eq_refl)|].
    rewrite Z.eqb_refl.
    destruct (parse_string_into_quoted false name CR tail (data_short_name o)
                sizeof_curr_short_name Hname eq_refl Hsize) as (d' & -> & Hs & _).
    cbn. auto.
Qed.

Lemma gsmi_parse_cops_user (str : cstr) (g : gsm_t) :
  fst (gsmi_parse_cops str g) = 1
  /\ (user_curr g <> None ->
      user_curr (snd (gsmi_parse_cops str g))
      = Some (curr_operator (snd (gsmi_parse_cops str g)))).
Proof.
  unfold gsmi_parse_cops, user_curr.
  destruct (gsmi_parse_number (skip_keyword str)) as [n p].
  match goal with
  | |- context [set_curr_operator ?o g] => generalize o
  end.
  intros o. cbn [msg set_curr_operator curr_operator].
  destruct (msg g) as [m|]; [|split; [reflexivity | congruence]].
  case_bool_decide as Hc; [|split; [reflexivity | congruence]].
  destruct (cops_get_curr m) eqn:Eu; (split; [reflexivity|]); [|congruence].
  intros _. cbn. now rewrite bool_decide_eq_true_2.
Qed.

(** X22: [gsmi_parse_cops] reads the current-operator line that carries a
    name format and a quoted name: it returns 1 and leaves the mode, the
    format tag, and the name, cut to what its buffer holds before the
    terminator, in the member of [data] the format selects; the user
    variable of an active query holds the record as it is after the
    call. *)
Theorem gsmi_parse_cops_name (kw : cstr) (lg : bool) (md : Z)
    (name tail : cstr) (g : gsm_t) :
  response_keyword kw -> format_name_ok lg ->
  0 <= md < 2 ^ 31 -> plain_text name ->
  (1 <= sizeof_data_name lg <= length (data_name lg (curr_operator g)))%nat ->
  let r := gsmi_parse_cops (cops_name_line kw lg md name tail) g in
  fst r = 1
  /\ mode (curr_operator (snd r)) = to_enum md
  /\ format (curr_operator (snd r)) = name_format lg
  /\ c_str (data_name lg (curr_operator (snd r)))
     = take (sizeof_data_name lg - 1) name
  /\ (user_curr g <> None ->
      user_curr (snd r) = Some (curr_operator (snd r))).
Proof.
  intros Hkw Hfmt Hmd Hname Hsize. cbv zeta.
  destruct (gsmi_parse_cops_user (cops_name_line kw lg md name tail) g)
    as [Hret Huser].
  split; [exact Hret|].
  assert (Hop : exists o',
            curr_operator (snd (gsmi_parse_cops
                                  (cops_name_line kw lg md name tail) g)) = o'
            /\ mode o' = to_enum md /\ format o' = name_format lg
            /\ c_str (data_name lg o') = take (sizeof_data_name lg - 1) name).
  { pose proof Hfmt as (Hrange & Henum & _).
    destruct (print_dec_spec _ (proj1 Hrange)) as (Hne & Hds & _).
    unfold gsmi_parse_cops, cops_name_line.
    rewrite skip_keyword_digits by (assumption || lia).
    rewrite (gsmi_parse_number_print_plain md) by (lia || reflexivity).
    rewrite skip_char_hit.
    rewrite (digit_not_CR _ (digit_head _ _ Hne Hds)). simpl negb. cbv iota.
    rewrite (gsmi_parse_number_print_plain (name_format lg))
      by (lia || reflexivity).
    rewrite skip_char_hit.
    rewrite (int32_small (name_format lg)), (int32_small md) by lia.
    rewrite Henum.
    change (deref (quoted_field false name CR tail) =? CR)%char with false.
    simpl negb. cbv iota.
    destruct (cops_payload_name lg name tail
                (set_format (name_format lg)
                   (set_mode (to_enum md) (curr_operator g)))
                Hfmt Hname eq_refl) as (Hs & Hmode & Hformat).
    { destruct lg; exact Hsize. }
    exists (cops_payload (quoted_field false name CR tail)
              (set_format (name_format lg)
                 (set_mode (to_enum md) (curr_operator g)))).
    split.
    - destruct (msg (set_curr_operator _ g)) as [m|]; [|reflexivity].
      case_bool_decide; [|reflexivity].
      destruct (cops_get_curr m); reflexivity.
    - rewrite Hmode, Hformat. auto. }
  destruct Hop as (o' & Eo & Hmode & Hformat & Hs). subst o'.
  split; [exact Hmode|]. split; [exact Hformat|].
  split; [exact Hs | exact Huser].
Qed.

(** X23: on a current-operator line that carries the mode alone,
    [gsmi_parse_cops] returns 1, stores the mode and tags the format as
    invalid. *)
Theorem gsmi_parse_cops_mode_only (kw : cstr) (md : Z) (tail : cstr)
    (g : gsm_t) :
  response_keyword kw -> 0 <= md < 2 ^ 31 ->
  let r := gsmi_parse_cops (kw ++ print_dec md ++ CR :: tail) g in
  fst r = 1
  /\ mode (curr_operator (snd r)) = to_enum md
  /\ format (curr_operator (snd r)) = GSM_OPERATOR_FORMAT_INVALID
  /\ (user_curr g <> None ->
      user_curr (snd r) = Some (curr_operator (snd r))).
Proof.
  intros Hkw Hmd. cbv zeta.
  destruct (gsmi_parse_cops_user (kw ++ print_dec md ++ CR :: tail) g)
    as [Hret Huser].
  split; [exact Hret|].
  assert (Hop : mode (curr_operator (snd (gsmi_parse_cops
                        (kw ++ print_dec md ++ CR :: tail) g))) = to_enum md
                /\ format (curr_operator (snd (gsmi_parse_cops
                        (kw ++ print_dec md ++ CR :: tail) g)))
                   = GSM_OPERATOR_FORMAT_INVALID).
  { unfold gsmi_parse_cops.
    rewrite skip_keyword_digits by (assumption || lia).
    rewrite (gsmi_parse_number_print_plain md) by (lia || reflexivity).
    rewrite (skip_char_miss "," (CR :: tail)) by reflexivity.
    simpl deref. rewrite Ascii.eqb_refl. simpl negb. cbv iota.
    rewrite (int32_small md) by lia.
    destruct (msg (set_curr_operator _ g)) as [m|]; [|split; reflexivity].
    case_bool_decide; [|split; reflexivity].
    destruct (cops_get_curr m); split; reflexivity. }
  destruct Hop as [Hmode Hformat].
  split; [exact Hmode|]. split; [exact Hformat | exact Huser].
Qed.

End CopsNames.

Lemma gsmi_parse_cops_name_witness :
  let r := gsmi_parse_cops (hdr := sample_hdr)
             (cops_name_line (hdr := sample_hdr) (lit "+COPS: ") false 0 (lit "A long operator")
                [LF]) blank_gsm in
  format (curr_operator (snd r)) = 1
  /\ c_str (data_short_name (curr_operator (snd r))) = lit "A long op".
Proof.
  destruct (gsmi_parse_cops_name (hdr := sample_hdr) (lit "+COPS: ") false 0
              (lit "A long operator") [LF] blank_gsm)
    as (_ & _ & Hformat & Hname & _).
  - right. split; reflexivity.
  - split; [simpl; lia | split; [reflexivity | intros _; discriminate]].
  - lia.
  - repeat constructor; discriminate.
  - simpl. lia.
  - split; [exact Hformat | exact Hname].
Defined.

Lemma gsmi_parse_cops_mode_only_witness :
  let r := gsmi_parse_cops (hdr := sample_hdr) (lit "+COPS: 2" ++ [CR; LF])
             blank_gsm in
  mode (curr_operator (snd r)) = 2 /\ format (curr_operator (snd r)) = 3.
Proof.
  destruct (gsmi_parse_cops_mode_only (hdr := sample_hdr) (lit "+COPS: ") 2
              [LF] blank_gsm) as (_ & Hmode & Hformat & _).
  - right. split; reflexivity.
  - lia.
  - split; [exact Hmode | exact Hformat].
Defined.

(** ** The SIM state *)

(** A comparison that runs past the end of the phrase takes in the
    terminator: it holds when the string is the phrase and nothing more. *)
Lemma strncmp_eq_whole (t s : cstr) (n : nat) :
  Forall (fun c => c <> NUL) t ->
  (length t < n)%nat ->
  strncmp_eq s t n = bool_decide (c_str s = t).
Proof.
  intros Ht. revert s n.
  induction Ht as [|c t Hc _ IH]; intros s n Hn;
    (destruct n as [|n]; [simpl in Hn; lia|]); cbn [strncmp_eq deref next].
  - destruct s as [|a s]; cbn [deref c_str].
    + now rewrite bool_decide_eq_true_2.
    + destruct (Ascii.eqb_spec a NUL) as [-> | Ha].
      * now rewrite bool_decide_eq_true_2.
      * now rewrite bool_decide_eq_false_2.
  - destruct s as [|a s]; cbn [deref c_str next].
    + apply Ascii.eqb_neq in Hc. rewrite Ascii.eqb_sym, Hc.
      now rewrite bool_decide_eq_false_2.
    + destruct (Ascii.eqb_spec a c) as [-> | Hac].
      * destruct (Ascii.eqb_spec c NUL) as [-> | _]; [contradiction|].
        rewrite IH by (simpl in Hn; lia).
        apply bool_decide_ext. split; [now intros -> | congruence].
      * rewrite bool_decide_eq_false_2; [reflexivity|].
        destruct (a =? NUL)%char; congruence.
Qed.

Lemma is_prefix_c_str (t s : cstr) :
  Forall (fun c => c <> NUL) t ->
  is_prefix t s = true -> is_prefix t (c_str s) = true.
Proof.
  intros Ht. revert s. induction Ht as [|c t Hc _ IH]; intros s E;
    [reflexivity|].
  destruct s as [|a s]; [discriminate E|]. simpl in E.
  apply andb_true_iff in E as [Eca E].
  apply Ascii.eqb_eq in Eca. subst a.
  apply Ascii.eqb_neq in Hc. simpl. rewrite Hc. simpl.
  rewrite Ascii.eqb_refl. now apply IH.
Qed.

(** X24: [gsmi_parse_cpin] always returns 1; it reports the SIM as not
    inserted exactly when the body of the line is the phrase NOT INSERTED
    with nothing after it, it copies the state it leaves to the event
    record exactly when an event is asked for, and it sends the event
    exactly then. *)
Theorem gsmi_parse_cpin_state (str : cstr) (send_evt : bool) (g : gsm_t) :
  let '(ret, g', calls) := gsmi_parse_cpin str send_evt g in
  ret = 1
  /\ (sim_state g' = GSM_SIM_STATE_NOT_INSERTED
      <-> c_str (skip_keyword str) = lit "NOT INSERTED")
  /\ cb_cpin_state g' = (if send_evt then sim_state g' else cb_cpin_state g)
  /\ (In (call_gsmi_send_cb GSM_CB_CPIN) calls <-> send_evt = true).
Proof.
  unfold gsmi_parse_cpin.
  set (body := skip_keyword str).
  assert (Hchain : exists s,
            (if strncmp_eq body (lit "READY") 5 then
               set_sim_state GSM_SIM_STATE_READY g
             else if strncmp_eq body (lit "NOT READY") 9 then
               set_sim_state GSM_SIM_STATE_NOT_READY g
             else if strncmp_eq body (lit "NOT INSERTED") 14 then
               set_sim_state GSM_SIM_STATE_NOT_INSERTED g
             else if strncmp_eq body (lit "SIM PIN") 7 then
               set_sim_state GSM_SIM_STATE_PIN g
             else if strncmp_eq body (lit "PIN PUK") 7 then
               set_sim_state GSM_SIM_STATE_PUK g
             else set_sim_state GSM_SIM_STATE_NOT_READY g)
            = set_sim_state s g
            /\ (s = GSM_SIM_STATE_NOT_INSERTED
                <-> c_str body = lit "NOT INSERTED")).
  { rewrite (phrase_cmp (lit "READY") 5 body eq_refl)
      by (repeat constructor; discriminate).
    rewrite (phrase_cmp (lit "NOT READY") 9 body eq_refl)
      by (repeat constructor; discriminate).
    rewrite (strncmp_eq_whole (lit "NOT INSERTED") body 14)
      by ((repeat constructor; discriminate) || (simpl; lia)).
    assert (Hnot : forall t,
              Forall (fun c => c <> NUL) t ->
              is_prefix t (lit "NOT INSERTED") = false ->
              c_str body = lit "NOT INSERTED" -> is_prefix t body = false).
    { intros t Ht Hno E. destruct (is_prefix t body) eqn:Ep; [|reflexivity].
      apply is_prefix_c_str in Ep; [|assumption]. rewrite E in Ep.
      congruence. }
    pose proof (Hnot (lit "READY") ltac:(repeat constructor; discriminate)
                  eq_refl) as H1.
    pose proof (Hnot (lit "NOT READY") ltac:(repeat constructor; discriminate)
                  eq_refl) as H2.
    destruct (is_prefix (lit "READY") body) eqn:E1.
    { eexists. split; [reflexivity|].
      split; [discriminate | intros E; now specialize (H1 E)]. }
    destruct (is_prefix (lit "NOT READY") body) eqn:E2.
    { eexists. split; [reflexivity|].
      split; [discriminate | intros E; now specialize (H2 E)]. }
    case_bool_decide as E3.
    { eexists. split; [reflexivity|]. split; [intros _; exact E3 | reflexivity]. }
    destruct (strncmp_eq body (lit "SIM PIN") 7);
      [|destruct (strncmp_eq body (lit "PIN PUK") 7)];
      (eexists; split; [reflexivity|]);
      (split; [discriminate | intros E; contradiction]). }
  destruct Hchain as (s & -> & Hs).
  cbn [sim_state set_sim_state].
  destruct send_evt; case_bool_decide;
    cbn [app In sim_state set_sim_state set_cb_cpin_state cb_cpin_state];
    (split; [reflexivity|]); (split; [exact Hs|]);
    (split; [reflexivity|]); intuition congruence.
Qed.

(** ** The network registration line *)

Section CregLine.
Context {hdr : gsm_hdr}.

(** X25: [gsmi_parse_creg] reads the registration status off both shapes
    of the line, the unsolicited one that carries the status alone and
    the answer to a query, where the caller asks for the index in front
    to be skipped: in [gsm.network.status] it leaves the status of the
    line, and it asks for the current operator exactly when that status is
    connected or connected-roaming. *)
Theorem gsmi_parse_creg_line (kw : cstr) (skip_first : bool) (n st : Z)
    (tail : cstr) (res : gsmr_t) (g : gsm_t) :
  response_keyword kw -> 0 <= n < 2 ^ 31 -> 0 <= st < 2 ^ 31 ->
  let '(ret, g', calls) :=
    gsmi_parse_creg (creg_line kw skip_first n st tail) skip_first res g in
  ret = 1
  /\ network_status g' = to_enum st
  /\ calls = (if attached (to_enum st) then [call_gsm_operator_get] else []).
Proof.
  intros Hkw Hn Hst.
  assert (Hfield : creg_status_field (creg_line kw skip_first n st tail)
                     skip_first = st).
  { unfold creg_status_field, creg_line.
    destruct skip_first.
    - rewrite skip_keyword_digits by (assumption || lia).
      rewrite (gsmi_parse_number_print_plain n) by (lia || reflexivity).
      rewrite skip_char_hit. cbn [snd].
      rewrite (gsmi_parse_number_print_plain st) by (lia || reflexivity).
      cbn [fst]. apply int32_small. lia.
    - rewrite skip_keyword_digits by (assumption || lia).
      rewrite (gsmi_parse_number_print_plain st) by (lia || reflexivity).
      cbn [fst]. apply int32_small. lia. }
  unfold creg_status_field in Hfield.
  unfold gsmi_parse_creg, attached.
  destruct (gsmi_parse_number _) as [v str'] eqn:E.
  cbn [fst] in Hfield. subst v.
  cbn [network_status set_network_status].
  destruct ((to_enum st =? _) || _); destruct res; auto.
Qed.

End CregLine.

Lemma gsmi_parse_creg_line_witness :
  let '(ret, g', calls) :=
    gsmi_parse_creg (hdr := sample_hdr)
      (creg_line (lit "+CREG: ") true 0 5 [LF]) true gsmOK blank_gsm in
  ret = 1 /\ network_status g' = 5 /\ calls = [call_gsm_operator_get].
Proof.
  apply (gsmi_parse_creg_line (hdr := sample_hdr) (lit "+CREG: ") true 0 5
           [LF] gsmOK blank_gsm).
  - right. split; reflexivity.
  - lia.
  - lia.
Defined.
